(** * ember-headless-table: plugin metadata, feature resolution, options,
      preferences and the sticky-columns plugin

    A shallow embedding of
      - [plugins/-private/base.ts]   (meta, options, preferences, findPlugin,
                                       getPluginInstance),
      - [-private/table.ts]          (Table.modify, Table.plugins, Table.pluginOf),
      - [plugins/sticky-columns/plugin.ts] (ColumnMeta.position/isSticky/offset/style).

    JavaScript objects that are mutated in place (the three module-level
    metadata maps, the Table objects) live in an explicit [World]; every
    operation of the source that reads or writes them is a computation in a
    state-and-exception monad [M].  A thrown exception does not roll the
    world back, exactly as in the source.

    Conventions:
      - [assert] of [@ember/debug] throws when its condition is false (the
        behaviour of a development build);
      - an object is a number, its identity, drawn from an allocation
        counter; a class is compared and used as a [Map] key by identity;
      - a [@tracked] field counts its assignments.  A [@cached] getter has a
        cell that holds the count it was last computed at and the value that
        its last successful computation returned; as in [getValue] of
        [@glimmer/validator], a computation that throws still records the
        count and leaves the earlier value (or [undefined]) in the cell, so
        that later reads return that value until the tracked field is
        assigned again;
      - the constructor of a meta only allocates the meta: what the metas of
        other plugins answer is a parameter of the sticky-columns meta;
      - a Number is an IEEE 754 binary64 value ([SpecFloat] of the standard
        library), added with [SFadd] and printed as [Number::toString] of
        ECMAScript prints it; the values of properties are the primitives
        [undefined], [null], booleans, Numbers and strings. *)

From Stdlib Require Import ZArith String List Lia DecimalString SpecFloat.
From stdpp Require Import gmap strings list fin_maps.

Open Scope string_scope.
Open Scope list_scope.
Open Scope nat_scope.
Open Scope stdpp_scope.

(** ** Numbers *)

(** A Number: [S754_finite sign m e] is (-1)^sign * m * 2^e. *)
Definition Number := spec_float.

#[global] Instance Number_eq_dec : EqDecision Number.
Proof. solve_decision. Defined.

(** [x + y] on Numbers: the exact sum, rounded to the nearest binary64
    value, ties to even. *)
Definition Number_add : Number → Number → Number := SFadd 53 1024.

(** The Number nearest to an integer; exact up to 2^53. *)
Definition Number_of_Z (z : Z) : Number := binary_normalize 53 1024 z 0 false.

(** [cmp_scaled a j b p] compares a * 10^j with b * 2^p. *)
Definition cmp_scaled (a j b p : Z) : comparison :=
  (a * 10 ^ Z.max j 0 * 2 ^ Z.max (- p) 0
   ?= b * 10 ^ Z.max (- j) 0 * 2 ^ Z.max p 0)%Z.

(** Does the decimal s * 10^j round to the Number m * 2^e?  It does when it
    lies between the midpoints to the two neighbouring Numbers, the
    midpoints included when [m] is even.  The neighbour below is half as far
    away when [m] is the least mantissa of its binade. *)
Definition rounds_to (m e s j : Z) : bool :=
  let lo := if ((m =? 2 ^ 52) && (-1074 <? e))%Z
            then (4 * m - 1)%Z else (4 * m - 2)%Z in
  let hi := (4 * m + 2)%Z in
  let below := cmp_scaled s j lo (e - 2) in
  let above := cmp_scaled s j hi (e - 2) in
  if Z.even m
  then negb (bool_decide (below = Lt)) && negb (bool_decide (above = Gt))
  else bool_decide (below = Gt) && bool_decide (above = Lt).

(** The least [n], from [n] upwards, with m * 2^e < 10^n. *)
Fixpoint decimal_exponent (fuel : nat) (n m e : Z) : Z :=
  match fuel with
  | O => n
  | S fuel =>
      match cmp_scaled 1 n m e with
      | Gt => n
      | _ => decimal_exponent fuel (n + 1)%Z m e
      end
  end.

(** The integer part of m * 2^e / 10^j. *)
Definition floor_scaled (m e j : Z) : Z :=
  ((m * 2 ^ Z.max e 0 * 10 ^ Z.max (- j) 0)
   / (2 ^ Z.max (- e) 0 * 10 ^ Z.max j 0))%Z.

(** A decimal of [k] digits that rounds to m * 2^e, if there is one: of the
    two decimals around the value, the one that rounds to it; when both do,
    the nearer one, and the even one on a tie. *)
Definition candidate (m e n k : Z) : option Z :=
  let j := (n - k)%Z in
  let s := floor_scaled m e j in
  match rounds_to m e s j, rounds_to m e (s + 1) j with
  | true, false => Some s
  | false, true => Some (s + 1)%Z
  | false, false => None
  | true, true =>
      match cmp_scaled (2 * s + 1) j (2 * m) e with
      | Gt => Some s
      | Lt => Some (s + 1)%Z
      | Eq => Some (if Z.even s then s else s + 1)%Z
      end
  end.

(** The digits [s] and the exponent [n] of [Number::toString]: the least
    number of digits [k] for which s * 10^(n-k) rounds to the Number. *)
Fixpoint shortest (fuel : nat) (k m e n : Z) : Z * Z :=
  match fuel with
  | O => (floor_scaled m e (n - k), n)
  | S fuel =>
      match candidate m e n k with
      | Some s => if (s =? 10 ^ k)%Z then ((10 ^ (k - 1))%Z, (n + 1)%Z) else (s, n)
      | None => shortest fuel (k + 1)%Z m e n
      end
  end.

Definition digits_of (s : Z) : string := NilZero.string_of_int (Z.to_int s).

Fixpoint zeros (n : nat) : string :=
  match n with
  | O => ""
  | S n => "0" +:+ zeros n
  end.

(** The last steps of [Number::toString]: plain digits up to 21 places,
    a decimal point where needed, and the exponent form otherwise. *)
Definition format_number (digits : string) (n : Z) : string :=
  let k := Z.of_nat (String.length digits) in
  if ((k <=? n) && (n <=? 21))%Z then digits +:+ zeros (Z.to_nat (n - k))
  else if ((0 <? n) && (n <=? 21))%Z then
    substring 0 (Z.to_nat n) digits +:+ "." +:+
    substring (Z.to_nat n) (Z.to_nat (k - n)) digits
  else if ((-6 <? n) && (n <=? 0))%Z then
    "0." +:+ zeros (Z.to_nat (- n)) +:+ digits
  else
    let exponent := (if (n - 1 <? 0)%Z then "-" else "+")
                    +:+ digits_of (Z.abs (n - 1)) in
    if (k =? 1)%Z then digits +:+ "e" +:+ exponent
    else substring 0 1 digits +:+ "." +:+ substring 1 (Z.to_nat (k - 1)) digits
         +:+ "e" +:+ exponent.

(** [Number::toString(x)], radix 10.  The search for the exponent starts
    just below the estimate that the binary exponent gives. *)
Definition Number_toString (x : Number) : string :=
  match x with
  | S754_nan => "NaN"
  | S754_zero _ => "0"
  | S754_infinity false => "Infinity"
  | S754_infinity true => "-Infinity"
  | S754_finite sign m e =>
      let start := ((Z.log2 (Z.pos m) + e) * 30102 / 100000 - 1)%Z in
      let n := decimal_exponent 640 start (Z.pos m) e in
      let '(s, n) := shortest 17 1 (Z.pos m) e n in
      (if sign then "-" else "") +:+ format_number (digits_of s) n
  end.

(** ** JavaScript values: the primitives that occur in option objects, in
    preferences and as the [width] of a column meta *)

Inductive JsVal :=
| JUndefined
| JNull
| JBool (b : bool)
| JNum (x : Number)
| JStr (s : string).

#[global] Instance JsVal_eq_dec : EqDecision JsVal.
Proof. solve_decision. Defined.

(** Truthiness, as used by [||] and [!]. *)
Definition truthy (v : JsVal) : bool :=
  match v with
  | JUndefined | JNull => false
  | JBool b => b
  | JNum (S754_zero _) | JNum S754_nan => false
  | JNum _ => true
  | JStr s => negb (String.eqb s "")
  end.

(** [a || b] *)
Definition js_or (a b : JsVal) : JsVal := if truthy a then a else b.

(** [a ?? b] *)
Definition nullish_or (a b : JsVal) : JsVal :=
  match a with
  | JUndefined | JNull => b
  | _ => a
  end.

(** [a === b] on the primitive values above: Numbers are compared as
    Numbers (NaN differs from itself, the two zeros are equal). *)
Definition strict_eq (a b : JsVal) : bool :=
  match a, b with
  | JNum x, JNum y => SFeqb x y
  | _, _ => bool_decide (a = b)
  end.

(** [ToString(v)], also the conversion of a computed property key. *)
Definition ToString (v : JsVal) : string :=
  match v with
  | JStr s => s
  | JUndefined => "undefined"
  | JNull => "null"
  | JBool true => "true"
  | JBool false => "false"
  | JNum x => Number_toString x
  end.

(** [ToNumber(v)] for a value that is not a string. *)
Definition ToNumber (v : JsVal) : Number :=
  match v with
  | JNum x => x
  | JUndefined => S754_nan
  | JNull | JBool false => S754_zero false
  | JBool true => Number_of_Z 1
  | JStr _ => S754_nan      (* not asked for: [+] concatenates strings *)
  end.

(** [a + b]: concatenation as soon as one side is a string, the sum of the
    Numbers otherwise. *)
Definition js_add (a b : JsVal) : JsVal :=
  match a, b with
  | JStr s, _ => JStr (s +:+ ToString b)
  | _, JStr s => JStr (ToString a +:+ s)
  | _, _ => JNum (Number_add (ToNumber a) (ToNumber b))
  end.

(** A plain options object; [{}] is the empty map. *)
Abbreviation Options := (gmap string JsVal).

(** Property read [obj.k]: a missing property reads as [undefined]. *)
Definition prop (k : string) (obj : Options) : JsVal :=
  default JUndefined (obj !! k).

(** A zero-argument option provider, represented by what calling it yields:
    [None] when it returns nothing ([undefined] or [null]). *)
Abbreviation Provider := (option Options).

(** ** Plugin classes and plugin instances *)

(** [plugin.meta]: the constructors of the table, column and row metas. A
    constructor is identified by a number. *)
Record MetaSpec := {
  meta_table : option nat;
  meta_column : option nat;
  meta_row : option nat;
}.

(** A plugin class (a constructor function).  [c_id] is its object identity:
    [===] on classes and [Map] keys compare it.  [c_supers] lists the
    identities of the classes further up its prototype chain.  The static
    fields are what a property read on the constructor yields.  The [c_inst_]
    fields are the instance fields that [new klass(table)] initialises. *)
Record Class := {
  c_id : nat;
  c_name : string;
  c_supers : list nat;
  c_features : option (list string);
  c_requires : option (list string);
  c_inst_name : string;
  c_inst_features : option (list string);
  c_inst_requires : option (list string);
  c_inst_meta : option MetaSpec;
}.

(** Identity of the built-in [Object] constructor: every object is an
    instance of it. *)
Definition Object_id : nat := 0.

(** A live plugin object. *)
Record Plugin := {
  p_obj : nat;                         (* object identity *)
  p_constructor : Class;               (* plugin.constructor *)
  p_name : string;                     (* plugin.name *)
  p_features : option (list string);   (* plugin.features *)
  p_requires : option (list string);   (* plugin.requires *)
  p_meta : option MetaSpec;            (* plugin.meta *)
  p_owner : option nat;                (* set by setOwner *)
}.

(** [plugin instanceof klass] *)
Definition instanceof (plugin : Plugin) (klass : Class) : bool :=
  bool_decide (c_id klass ∈
    Object_id :: c_id (p_constructor plugin) :: c_supers (p_constructor plugin)).

(** An element of a plugin configuration: a class, or a plugin object
    ("classless" plugin). [typeof x === 'function'] holds of the former. *)
Inductive PluginRef :=
| PClass (c : Class)
| PObject (p : Plugin).

(** The two forms a user writes in a plugin list: a plain reference, or the
    pair produced by [BasePlugin.with]. *)
Inductive PluginEntry :=
| Bare (r : PluginRef)
| WithOptions (r : PluginRef) (fn : Provider).

(** [BasePlugin.with(configFn)] and [BasePlugin.forColumn(configFn)]. *)
Definition BasePlugin_with (this : Class) (configFn : Provider) : PluginEntry :=
  WithOptions (PClass this) configFn.

Definition BasePlugin_forColumn (this : Class) (configFn : Provider)
  : Class * Provider := (this, configFn).

(** ** Entities *)

Record Column := {
  col_id : nat;                 (* object identity of the Column *)
  col_table : nat;              (* column.table *)
  col_key : string;             (* column.key *)
  col_pluginOptions : option (list (Class * Provider));
                                (* column.config.pluginOptions *)
}.

Record Row := {
  row_id : nat;
  row_table : nat;
}.

Record PreferencesConfig := {
  pc_key : option string;
  pc_adapter : option nat;
}.

(** The named arguments of a table (its configuration). *)
Record TableConfig := {
  cfg_plugins : option (list PluginEntry);
  cfg_preferences : option PreferencesConfig;
}.

(** Modelled from the spec: the preferences store of [-private/preferences.ts],
    which is not part of the sources at hand.  "A nested key-value structure
    addressed by (plugin name) -> (column key | "table") -> (preference key)
    -> value, with an explicit persist() operation that flushes to the
    backing adapter."  [base.ts] reaches the table level through the
    property [.table] and a column level through [.forColumn(key)], hence the
    two fields. *)
Record PluginPrefs := {
  pp_table : gmap string JsVal;
  pp_columns : gmap string (gmap string JsVal);
}.

Record TablePreferences := {
  tp_key : string;
  tp_adapter : option nat;
  tp_storage : gmap string PluginPrefs;
}.

(** The object [{ named }] that [modify] assigns to [this.args]; [named]
    itself may be [undefined]. *)
Record Args := {
  args_named : option TableConfig;
}.

(** A [Table] object.  [t_args] is the [@tracked] field [args], declared
    but not initialised: it is [undefined] ([None]) until [modify] assigns
    it, and [t_args_rev] counts its assignments.  [t_plugins_cache] is the
    cell of the [@cached] getter [plugins]; there is none before the first
    read.  It holds the revision of [args] at the last computation, and the
    value the last successful computation returned ([None]: none has
    returned yet). *)
Record Table := {
  t_key : string;                                 (* this[TABLE_KEY] *)
  t_owner : option nat;                           (* getOwner(this) *)
  t_args : option Args;
  t_args_rev : nat;
  t_plugins_cache : option (nat * option (list Plugin));
  t_preferences : option TablePreferences;
  t_scrollTop : option nat;       (* scrollContainerElement?.scrollTop *)
}.

(** ** Meta objects and the world *)

Inductive EntityRef :=
| RTable (t : nat)
| RColumn (c : nat)
| RRow (r : nat).

(** The object made by [new plugin.meta.X(entity)]. *)
Record MetaObj := {
  mo_id : nat;            (* object identity *)
  mo_ctor : nat;          (* the constructor that made it *)
  mo_entity : EntityRef;  (* the constructor argument *)
}.

#[global] Instance EntityRef_eq_dec : EqDecision EntityRef.
Proof. solve_decision. Defined.
#[global] Instance MetaObj_eq_dec : EqDecision MetaObj.
Proof. solve_decision. Defined.

(** The three module-level maps of [base.ts]. *)
Inductive MetaMap := TABLE_META_map | COLUMN_META_map | ROW_META_map.

(** A root key: the table's identity string, or a Column/Row object. *)
Inductive RootKey :=
| KString (s : string)
| KObject (o : nat).

#[global] Instance MetaMap_eq_dec : EqDecision MetaMap.
Proof. solve_decision. Defined.
#[global] Instance RootKey_eq_dec : EqDecision RootKey.
Proof. solve_decision. Defined.

(** What the run leaves behind for an observer: constructions of metas and
    calls of [persist]. *)
Inductive Event :=
| EvNewMeta (map : MetaMap) (rootKey : RootKey) (klass : nat) (m : MetaObj)
| EvNewPlugin (table : nat) (klass : nat) (obj : nat)
| EvPersist (table : nat) (key : string) (snapshot : gmap string PluginPrefs).

(** The cell of the [@cached] getter [offset] of a sticky-columns column
    meta: the revision of the table's [args] that the last computation read
    ([None] when it read no tracked field), and the value the last successful
    computation returned. *)
Definition OffsetCell : Type := option nat * option string.

Record World := {
  TABLE_META : gmap string (gmap nat MetaObj);
  COLUMN_META : gmap nat (gmap nat MetaObj);
  ROW_META : gmap nat (gmap nat MetaObj);
  tables : gmap nat Table;      (* the Table objects, by identity *)
  offset_cache : gmap nat OffsetCell;
                                (* the cells of [offset], by column *)
  next_obj : nat;               (* allocation counter *)
  trace : list Event;
}.

(** ** Errors and the monad *)

Inductive Error :=
| TypeError                                       (* property read on undefined *)
| UnregisteredPlugin (klass_name : string)
| NoMetaSpecified (plugin_name : string)
| NoScopeMeta (map : MetaMap) (plugin_name : string)
| PluginAlreadyExists (plugin_name : string)
| FeatureNotFound (featureName available : string)
| NoOwner
| StringKeyWithWeakMap
| ObjectKeyWithMap
| UnsatisfiedRequirement (feature plugin_name : string)
| InvalidSticky (v : JsVal).

Inductive Result (A : Type) :=
| Ok (a : A)
| Throw (e : Error).
Arguments Ok {A} a.
Arguments Throw {A} e.

Definition M (A : Type) : Type := World → World * Result A.

Definition ret {A} (a : A) : M A := λ w, (w, Ok a).
Definition throw {A} (e : Error) : M A := λ w, (w, Throw e).
Definition bind {A B} (m : M A) (k : A → M B) : M B :=
  λ w, match m w with
       | (w', Ok a) => k a w'
       | (w', Throw e) => (w', Throw e)
       end.

Notation "'let*' x ':=' m 'in' k" := (bind m (λ x, k))
  (at level 10, x pattern, m at level 100, k at level 200).

(** [assert(msg, cond)] of [@ember/debug]. *)
Definition assert (msg : Error) (cond : bool) : M unit :=
  if cond then ret tt else throw msg.

Fixpoint mapM {A B} (f : A → M B) (l : list A) : M (list B) :=
  match l with
  | [] => ret []
  | x :: xs => let* y := f x in let* ys := mapM f xs in ret (y :: ys)
  end.

(** [try { m } finally { f }], where the clean-up sees how [m] ended. *)
Definition finally {A} (m : M A) (f : Result A → World → World) : M A :=
  λ w, match m w with
       | (w', r) => (f r w', r)
       end.

(** A method call on a value that is an array or [undefined]: on
    [undefined] it throws a type error. *)
Definition the_array {A} (v : option (list A)) : M (list A) :=
  match v with
  | Some l => ret l
  | None => throw TypeError
  end.

(** [l.reduce(f, init)] with an effectful callback. *)
Fixpoint reduceM {A B} (f : B → A → M B) (init : B) (l : list A) : M B :=
  match l with
  | [] => ret init
  | x :: xs => let* acc := f init x in reduceM f acc xs
  end.

(** ** World updates *)

Definition set_TABLE_META (v : gmap string (gmap nat MetaObj)) (w : World) :=
  {| TABLE_META := v; COLUMN_META := COLUMN_META w; ROW_META := ROW_META w;
     tables := tables w; offset_cache := offset_cache w;
     next_obj := next_obj w; trace := trace w |}.
Definition set_COLUMN_META (v : gmap nat (gmap nat MetaObj)) (w : World) :=
  {| TABLE_META := TABLE_META w; COLUMN_META := v; ROW_META := ROW_META w;
     tables := tables w; offset_cache := offset_cache w;
     next_obj := next_obj w; trace := trace w |}.
Definition set_ROW_META (v : gmap nat (gmap nat MetaObj)) (w : World) :=
  {| TABLE_META := TABLE_META w; COLUMN_META := COLUMN_META w; ROW_META := v;
     tables := tables w; offset_cache := offset_cache w;
     next_obj := next_obj w; trace := trace w |}.
Definition set_tables (v : gmap nat Table) (w : World) :=
  {| TABLE_META := TABLE_META w; COLUMN_META := COLUMN_META w;
     ROW_META := ROW_META w;
     tables := v; offset_cache := offset_cache w;
     next_obj := next_obj w; trace := trace w |}.
Definition set_offset_cache (v : gmap nat OffsetCell) (w : World) :=
  {| TABLE_META := TABLE_META w; COLUMN_META := COLUMN_META w;
     ROW_META := ROW_META w;
     tables := tables w; offset_cache := v;
     next_obj := next_obj w; trace := trace w |}.
Definition set_next_obj (v : nat) (w : World) :=
  {| TABLE_META := TABLE_META w; COLUMN_META := COLUMN_META w;
     ROW_META := ROW_META w;
     tables := tables w; offset_cache := offset_cache w;
     next_obj := v; trace := trace w |}.
Definition log (e : Event) (w : World) :=
  {| TABLE_META := TABLE_META w; COLUMN_META := COLUMN_META w;
     ROW_META := ROW_META w;
     tables := tables w; offset_cache := offset_cache w;
     next_obj := next_obj w; trace := trace w ++ [e] |}.

(** Allocation of a fresh object identity. *)
Definition fresh : M nat :=
  λ w, (set_next_obj (S (next_obj w)) w, Ok (next_obj w)).

Definition emit (e : Event) : M unit := λ w, (log e w, Ok tt).

(** Dereferencing a table. *)
Definition get_table (table : nat) : M Table :=
  λ w, match tables w !! table with
       | Some T => (w, Ok T)
       | None => (w, Throw TypeError)
       end.

Definition put_table (table : nat) (T : Table) : M unit :=
  λ w, (set_tables (<[table := T]> (tables w)) w, Ok tt).

(** ** [plugins/-private/utils.ts] *)

(** Modelled from the spec: [normalizePluginsConfig] of
    [plugins/-private/utils.ts], which is not part of the sources at hand.
    It turns the configured plugin list into "an ordered list of
    (plugin-class-or-instance, option-provider) pairs"; a plain reference
    stands for "plugin configured with defaults", that is a provider
    yielding the empty options object. *)
Definition normalizePluginsConfig (plugins : option (list PluginEntry))
  : list (PluginRef * Provider) :=
  match plugins with
  | None => []
  | Some l =>
      map (λ e, match e with
                | Bare r => (r, Some ∅)
                | WithOptions r fn => (r, fn)
                end) l
  end.

(** [plugin.features || plugin.constructor.features]; an array is always
    truthy, so the static declaration is read only when the instance has no
    [features] property. *)
Definition features_of (plugin : Plugin) : option (list string) :=
  match p_features plugin with
  | Some fs => Some fs
  | None => c_features (p_constructor plugin)
  end.

Definition ref_features (r : PluginRef) : list string :=
  match r with
  | PClass c => default [] (c_features c)
  | PObject p => default [] (features_of p)
  end.

Definition ref_requires (r : PluginRef) : list string :=
  match r with
  | PClass c => default [] (c_requires c)
  | PObject p =>
      default [] (match p_requires p with
                  | Some rs => Some rs
                  | None => c_requires (p_constructor p)
                  end)
  end.

Definition ref_name (r : PluginRef) : string :=
  match r with
  | PClass c => c_name c
  | PObject p => p_name p
  end.

Definition includes (l : list string) (x : string) : bool :=
  bool_decide (x ∈ l).

(** Modelled from the spec: [verifyPlugins] of [plugins/-private/utils.ts],
    which is not part of the sources at hand.  "Every declared requires
    entry for every plugin must be satisfiable by some features entry among
    the other configured plugins; if not, fail with a configuration error
    naming the missing feature and the requiring plugin." *)
Fixpoint verify_from (before after : list (PluginRef * Provider))
  : option Error :=
  match after with
  | [] => None
  | (r, fn) :: rest =>
      let others := flat_map (λ t, ref_features (fst t)) (before ++ rest) in
      match List.find (λ f, negb (includes others f)) (ref_requires r) with
      | Some f => Some (UnsatisfiedRequirement f (ref_name r))
      | None => verify_from (before ++ [(r, fn)]) rest
      end
  end.

Definition verifyPlugins (plugins : list (PluginRef * Provider)) : M unit :=
  match verify_from [] plugins with
  | Some e => throw e
  | None => ret tt
  end.

(** ** [-private/table.ts] *)

(** [guidFor(obj)]: a string determined by the object's identity. *)
Definition guidFor (obj : nat) : string :=
  "ember" +:+ NilZero.string_of_uint (Nat.to_uint obj).

(** [this.args = { named }] *)
Definition set_args (named : option TableConfig) (T : Table) : Table :=
  {| t_key := t_key T; t_owner := t_owner T;
     t_args := Some {| args_named := named |}; t_args_rev := S (t_args_rev T);
     t_plugins_cache := t_plugins_cache T;
     t_preferences := t_preferences T; t_scrollTop := t_scrollTop T |}.

Definition set_plugins_cache (c : option (nat * option (list Plugin)))
    (T : Table) :=
  {| t_key := t_key T; t_owner := t_owner T;
     t_args := t_args T; t_args_rev := t_args_rev T;
     t_plugins_cache := c;
     t_preferences := t_preferences T; t_scrollTop := t_scrollTop T |}.

Definition set_preferences (p : option TablePreferences) (T : Table) :=
  {| t_key := t_key T; t_owner := t_owner T;
     t_args := t_args T; t_args_rev := t_args_rev T;
     t_plugins_cache := t_plugins_cache T;
     t_preferences := p; t_scrollTop := t_scrollTop T |}.

Definition set_scrollTop (s : option nat) (T : Table) :=
  {| t_key := t_key T; t_owner := t_owner T;
     t_args := t_args T; t_args_rev := t_args_rev T;
     t_plugins_cache := t_plugins_cache T;
     t_preferences := t_preferences T; t_scrollTop := s |}.

(** [Table.resetScrollContainer] *)
Definition resetScrollContainer (T : Table) : Table :=
  match t_scrollTop T with
  | None => T
  | Some _ => set_scrollTop (Some 0) T
  end.

(** [Table.modify(_, named)]: assigns the tracked [args]; creates the
    preferences the first time only. *)
Definition modify (table : nat) (named : option TableConfig) : M unit :=
  let* T := get_table table in
  let T := set_args named T in
  match t_preferences T with
  | None =>
      let pc := named ≫= cfg_preferences in
      let key := default (t_key T) (pc ≫= pc_key) in
      let adapter := pc ≫= pc_adapter in
      put_table table
        (set_preferences
           (Some {| tp_key := key; tp_adapter := adapter; tp_storage := ∅ |}) T)
  | Some _ => put_table table (resetScrollContainer T)
  end.

(** The body of the [map] callback in [Table.plugins]. *)
Definition instantiate (table : nat) (tuple : PluginRef * Provider)
  : M Plugin :=
  match fst tuple with
  | PClass PluginClass =>
      let* obj := fresh in
      let* _ := emit (EvNewPlugin table (c_id PluginClass) obj) in
      let* T := get_table table in
      match t_owner T with
      | None => throw NoOwner
      | Some owner =>
          ret {| p_obj := obj; p_constructor := PluginClass;
                 p_name := c_inst_name PluginClass;
                 p_features := c_inst_features PluginClass;
                 p_requires := c_inst_requires PluginClass;
                 p_meta := c_inst_meta PluginClass;
                 p_owner := Some owner |}
      end
  | PObject plugin => ret plugin
  end.

(** [this.args.named]: a type error while [args] is [undefined]. *)
Definition read_named (table : nat) : M (option TableConfig) :=
  let* T := get_table table in
  match t_args T with
  | Some args => ret (args_named args)
  | None => throw TypeError
  end.

(** The getter body of [Table.plugins]. *)
Definition compute_plugins (table : nat) : M (list Plugin) :=
  let* named := read_named table in
  let plugins := normalizePluginsConfig (named ≫= cfg_plugins) in
  let* _ := verifyPlugins plugins in
  mapM (instantiate table) plugins.

(** Writing the cell of [plugins]. *)
Definition store_plugins_cache (table : nat)
    (cell : nat * option (list Plugin)) (w : World) : World :=
  match tables w !! table with
  | Some T => set_tables (<[table := set_plugins_cache (Some cell) T]> (tables w)) w
  | None => w
  end.

(** The computation of a cell of [plugins] that is missing or out of date:
    the getter body runs, and whether it returns or throws the cell records
    the revision [rev] of [args]; the value [last] in the cell is replaced
    only when the body returns. *)
Definition recompute_plugins (table rev : nat) (last : option (list Plugin))
  : M (option (list Plugin)) :=
  let* ps := finally (compute_plugins table)
               (λ r, store_plugins_cache table
                       (rev, match r with
                             | Ok ps => Some ps
                             | Throw _ => last
                             end)) in
  ret (Some ps).

(** [@cached get plugins()].  The getter body reads the tracked [args]
    before anything else, so the cell is up to date exactly while [args] has
    not been assigned since the last computation.  An up-to-date cell
    answers the read with the value it holds, which is [undefined] ([None])
    when no computation has returned yet. *)
Definition plugins (table : nat) : M (option (list Plugin)) :=
  let* T := get_table table in
  match t_plugins_cache T with
  | Some (rev, last) =>
      if Nat.eqb rev (t_args_rev T) then ret last
      else recompute_plugins table (t_args_rev T) last
  | None => recompute_plugins table (t_args_rev T) None
  end.

(** [Table.pluginOf(klass)] *)
Definition pluginOf (table : nat) (klass : Class) : M (option Plugin) :=
  let* plugins := plugins table in
  let* plugins := the_array plugins in
  ret (List.find (λ plugin, instanceof plugin klass) plugins).

(** The getter [Table.config]. *)
Definition config (table : nat) : M (option TableConfig) := read_named table.

(** ** [plugins/-private/base.ts]: the metadata cache *)

Definition is_WeakMap (map : MetaMap) : bool :=
  match map with
  | TABLE_META_map => false
  | _ => true
  end.

Definition is_string_key (k : RootKey) : bool :=
  match k with
  | KString _ => true
  | KObject _ => false
  end.

(** [map.get(rootKey)] *)
Definition map_get (map : MetaMap) (rootKey : RootKey) (w : World)
  : option (gmap nat MetaObj) :=
  match map, rootKey with
  | TABLE_META_map, KString s => TABLE_META w !! s
  | COLUMN_META_map, KObject o => COLUMN_META w !! o
  | ROW_META_map, KObject o => ROW_META w !! o
  | _, _ => None
  end.

(** [map.set(rootKey, bucket)] *)
Definition map_set (map : MetaMap) (rootKey : RootKey)
    (bucket : gmap nat MetaObj) (w : World) : World :=
  match map, rootKey with
  | TABLE_META_map, KString s => set_TABLE_META (<[s := bucket]> (TABLE_META w)) w
  | COLUMN_META_map, KObject o => set_COLUMN_META (<[o := bucket]> (COLUMN_META w)) w
  | ROW_META_map, KObject o => set_ROW_META (<[o := bucket]> (ROW_META w)) w
  | _, _ => w
  end.

(** The bucket is a [Map] object that stays in [map] under [rootKey]; a read
    or write through the local variable [bucket] is a read or write of that
    entry of the world. *)
Definition bucket_get (map : MetaMap) (rootKey : RootKey) (mapKey : nat)
  : M (option MetaObj) :=
  λ w, (w, Ok (map_get map rootKey w ≫= (λ b, b !! mapKey))).

Definition bucket_set (map : MetaMap) (rootKey : RootKey) (mapKey : nat)
    (instance : MetaObj) : M unit :=
  λ w, (map_set map rootKey
          (<[mapKey := instance]> (default ∅ (map_get map rootKey w))) w,
        Ok tt).

(** The first half of [getPluginInstance]: find the bucket, or install an
    empty one. *)
Definition ensure_bucket (map : MetaMap) (rootKey : RootKey) : M unit :=
  let* _ :=
    if is_WeakMap map
    then assert StringKeyWithWeakMap (negb (is_string_key rootKey))
    else assert ObjectKeyWithMap (is_string_key rootKey) in
  λ w, match map_get map rootKey w with
       | Some _ => (w, Ok tt)
       | None => (map_set map rootKey ∅ w, Ok tt)
       end.

(** [getPluginInstance(map, rootKey, mapKey, factory)] *)
Definition getPluginInstance (map : MetaMap) (rootKey : RootKey)
    (mapKey : nat) (factory : M MetaObj) : M MetaObj :=
  let* _ := ensure_bucket map rootKey in
  let* instance := bucket_get map rootKey mapKey in
  match instance with
  | Some instance => ret instance
  | None =>
      let* instance := factory in
      let* _ := bucket_set map rootKey mapKey instance in
      ret instance
  end.

(** [new ctor(entity)]: a fresh object; the construction is recorded for the
    pair it is made for. *)
Definition new_meta (map : MetaMap) (rootKey : RootKey) (klass : nat)
    (ctor : nat) (entity : EntityRef) : M MetaObj :=
  let* id := fresh in
  let m := {| mo_id := id; mo_ctor := ctor; mo_entity := entity |} in
  let* _ := emit (EvNewMeta map rootKey klass m) in
  ret m.

Definition table_key (table : nat) : M string :=
  let* T := get_table table in ret (t_key T).

(** The factory closure of [meta.forColumn]. *)
Definition forColumn_factory (column : Column) (klass : Class) : M MetaObj :=
  let* plugin := pluginOf (col_table column) klass in
  match plugin with
  | None => throw (UnregisteredPlugin (c_name klass))
  | Some plugin =>
      match p_meta plugin with
      | None => throw (NoMetaSpecified (p_name plugin))
      | Some meta =>
          match meta_column meta with
          | None => throw (NoScopeMeta COLUMN_META_map (p_name plugin))
          | Some ctor =>
              new_meta COLUMN_META_map (KObject (col_id column)) (c_id klass)
                ctor (RColumn (col_id column))
          end
      end
  end.

(** [meta.forColumn(column, klass)] *)
Definition meta_forColumn (column : Column) (klass : Class) : M MetaObj :=
  getPluginInstance COLUMN_META_map (KObject (col_id column)) (c_id klass)
    (forColumn_factory column klass).

(** The factory closure of [meta.forRow]. *)
Definition forRow_factory (row : Row) (klass : Class) : M MetaObj :=
  let* plugin := pluginOf (row_table row) klass in
  match plugin with
  | None => throw (UnregisteredPlugin (c_name klass))
  | Some plugin =>
      match p_meta plugin with
      | None => throw (NoMetaSpecified (p_name plugin))
      | Some meta =>
          match meta_row meta with
          | None => throw (NoScopeMeta ROW_META_map (p_name plugin))
          | Some ctor =>
              new_meta ROW_META_map (KObject (row_id row)) (c_id klass)
                ctor (RRow (row_id row))
          end
      end
  end.

(** [meta.forRow(row, klass)] *)
Definition meta_forRow (row : Row) (klass : Class) : M MetaObj :=
  getPluginInstance ROW_META_map (KObject (row_id row)) (c_id klass)
    (forRow_factory row klass).

(** [[...(TABLE_META.get(key)?.keys() ?? [])].includes(klass)] *)
Definition table_bucket_has (key : string) (klass : nat) : M bool :=
  λ w, (w, Ok (match TABLE_META w !! key with
               | Some b => bool_decide (is_Some (b !! klass))
               | None => false
               end)).

(** The factory closure of [meta.forTable]. *)
Definition forTable_factory (table : nat) (klass : Class) : M MetaObj :=
  let* plugin := pluginOf table klass in
  match plugin with
  | None => throw (UnregisteredPlugin (c_name klass))
  | Some plugin =>
      match p_meta plugin with
      | None => throw (NoMetaSpecified (p_name plugin))
      | Some meta =>
          match meta_table meta with
          | None => throw (NoScopeMeta TABLE_META_map (p_name plugin))
          | Some ctor =>
              let* key := table_key table in
              let* has := table_bucket_has key (c_id klass) in
              let* _ := assert (PluginAlreadyExists (p_name plugin)) (negb has) in
              new_meta TABLE_META_map (KString key) (c_id klass)
                ctor (RTable table)
          end
      end
  end.

(** [meta.forTable(table, klass)] *)
Definition meta_forTable (table : nat) (klass : Class) : M MetaObj :=
  let* key := table_key table in
  getPluginInstance TABLE_META_map (KString key) (c_id klass)
    (forTable_factory table klass).

(** ** Feature resolution *)

(** The predicate of [plugins.find] in [findPlugin]:
    [features?.includes(featureName)], a missing list counting as false. *)
Definition provides (featureName : string) (plugin : Plugin) : bool :=
  match features_of plugin with
  | Some features => includes features featureName
  | None => false
  end.

Definition findPlugin (plugins : list Plugin) (featureName : string)
  : option Plugin :=
  List.find (provides featureName) plugins.

Definition join (sep : string) (l : list string) : string :=
  match l with
  | [] => ""
  | x :: xs => fold_left (λ acc y, acc +:+ sep +:+ y) xs x
  end.

(** [availableFeatures(plugins)]; [.filter(Boolean)] drops the [undefined]
    of plugins without features, and empty feature names. *)
Definition availableFeatures (plugins : list Plugin) : string :=
  let allFeatures :=
    filter (λ f, f ≠ "")
      (flat_map (λ plugin, default [] (features_of plugin)) plugins) in
  if Nat.ltb 0 (length allFeatures) then join ", " allFeatures else "[none]".

(** [meta.withFeature.forColumn(column, featureName)] *)
Definition withFeature_forColumn (column : Column) (featureName : string)
  : M MetaObj :=
  let* plugins := plugins (col_table column) in
  let* ps := the_array plugins in
  match findPlugin ps featureName with
  | None => throw (FeatureNotFound featureName (availableFeatures ps))
  | Some provider => meta_forColumn column (p_constructor provider)
  end.

(** [meta.withFeature.forTable(table, featureName)] *)
Definition withFeature_forTable (table : nat) (featureName : string)
  : M MetaObj :=
  let* plugins := plugins table in
  let* ps := the_array plugins in
  match findPlugin ps featureName with
  | None => throw (FeatureNotFound featureName (availableFeatures ps))
  | Some provider => meta_forTable table (p_constructor provider)
  end.

(** ** [plugins/-private/base.ts]: options *)

(** [option[0] === klass]: identity of constructors; a plugin object is
    never identical to a class. *)
Definition is_class (klass : Class) (r : PluginRef) : bool :=
  match r with
  | PClass c => Nat.eqb (c_id c) (c_id klass)
  | PObject _ => false
  end.

(** [fn() ?? {}] *)
Definition call_or_empty (fn : Provider) : Options := default ∅ fn.

(** The body of [options.forTable(table, klass)], given what
    [table?.config] reads. *)
Definition options_from (config : option TableConfig) (klass : Class) : Options :=
  let normalized := normalizePluginsConfig (config ≫= cfg_plugins) in
  let tuple := List.find (λ option, is_class klass (fst option)) normalized in
  match tuple with
  | None => ∅
  | Some t => call_or_empty (snd t)
  end.

(** [options.forTable(table, klass)] *)
Definition options_forTable (table : nat) (klass : Class) : M Options :=
  let* config := config table in ret (options_from config klass).

(** [options.forColumn(column, klass)] *)
Definition options_forColumn (column : Column) (klass : Class) : Options :=
  let tuple :=
    col_pluginOptions column ≫=
      List.find (λ option, Nat.eqb (c_id (fst option)) (c_id klass)) in
  match tuple with
  | None => ∅
  | Some t => call_or_empty (snd t)
  end.

(** ** [plugins/-private/base.ts]: preferences *)

Definition empty_prefs : PluginPrefs := {| pp_table := ∅; pp_columns := ∅ |}.

(** Modelled from the spec: [storage.forPlugin(name)] and
    [pluginPrefs.forColumn(key)] of [-private/preferences.ts] (not part of
    the sources at hand) hand out the map stored under the given plugin
    name, respectively column key; a map that was never written reads as
    empty, and a write through it becomes part of the store. *)
Definition forPlugin (name : string) (storage : gmap string PluginPrefs)
  : PluginPrefs := default empty_prefs (storage !! name).

Definition forColumn (key : string) (existing : PluginPrefs)
  : gmap string JsVal := default ∅ (pp_columns existing !! key).

Definition with_table_prefs (f : gmap string JsVal → gmap string JsVal)
    (name : string) (storage : gmap string PluginPrefs) :=
  let existing := forPlugin name storage in
  <[name := {| pp_table := f (pp_table existing);
               pp_columns := pp_columns existing |}]> storage.

Definition with_column_prefs (f : gmap string JsVal → gmap string JsVal)
    (name key : string) (storage : gmap string PluginPrefs) :=
  let existing := forPlugin name storage in
  <[name := {| pp_table := pp_table existing;
               pp_columns := <[key := f (forColumn key existing)]>
                               (pp_columns existing) |}]> storage.

(** [table.preferences]; reading [.storage] of an unset field throws. *)
Definition get_preferences (table : nat) : M TablePreferences :=
  let* T := get_table table in
  match t_preferences T with
  | Some prefs => ret prefs
  | None => throw TypeError
  end.

Definition update_storage (table : nat)
    (f : gmap string PluginPrefs → gmap string PluginPrefs) : M unit :=
  let* T := get_table table in
  match t_preferences T with
  | Some prefs =>
      put_table table
        (set_preferences
           (Some {| tp_key := tp_key prefs; tp_adapter := tp_adapter prefs;
                    tp_storage := f (tp_storage prefs) |}) T)
  | None => throw TypeError
  end.

(** Modelled from the spec: [prefs.persist()] "flushes to the backing
    adapter"; the flush is recorded with the store as it is at that
    moment. *)
Definition persist (table : nat) : M unit :=
  let* prefs := get_preferences table in
  emit (EvPersist table (tp_key prefs) (tp_storage prefs)).

Module preferences.

(** [preferences.forColumn(column, klass).delete(key)] *)
Definition forColumn_delete (column : Column) (klass : Class) (key : string)
  : M unit :=
  let* _ := update_storage (col_table column)
              (with_column_prefs (delete key) (c_name klass) (col_key column)) in
  persist (col_table column).

(** [preferences.forColumn(column, klass).get(key)] *)
Definition forColumn_get (column : Column) (klass : Class) (key : string)
  : M JsVal :=
  let* prefs := get_preferences (col_table column) in
  let existing := forPlugin (c_name klass) (tp_storage prefs) in
  let columnPrefs := forColumn (col_key column) existing in
  ret (default JUndefined (columnPrefs !! key)).

(** [preferences.forColumn(column, klass).set(key, value)] *)
Definition forColumn_set (column : Column) (klass : Class) (key : string)
    (value : JsVal) : M unit :=
  let* _ := update_storage (col_table column)
              (with_column_prefs (<[key := value]>) (c_name klass)
                 (col_key column)) in
  persist (col_table column).

(** [preferences.forTable(table, klass).delete(key)] *)
Definition forTable_delete (table : nat) (klass : Class) (key : string)
  : M unit :=
  let* _ := update_storage table
              (with_table_prefs (delete key) (c_name klass)) in
  persist table.

(** [preferences.forTable(table, klass).get(key)] *)
Definition forTable_get (table : nat) (klass : Class) (key : string)
  : M JsVal :=
  let* prefs := get_preferences table in
  let existing := forPlugin (c_name klass) (tp_storage prefs) in
  ret (default JUndefined (pp_table existing !! key)).

(** [preferences.forTable(table, klass).set(key, value)] *)
Definition forTable_set (table : nat) (klass : Class) (key : string)
    (value : JsVal) : M unit :=
  let* _ := update_storage table
              (with_table_prefs (<[key := value]>) (c_name klass)) in
  persist table.

End preferences.

(** The address of a preference entry:
    [pluginName][columnKey | "table"][key]. *)
Inductive PrefLevel :=
| TableLevel
| ColumnLevel (columnKey : string).

Definition entry_at (storage : gmap string PluginPrefs)
    (pluginName : string) (level : PrefLevel) (key : string) : option JsVal :=
  storage !! pluginName ≫= λ pp,
    match level with
    | TableLevel => pp_table pp !! key
    | ColumnLevel columnKey => pp_columns pp !! columnKey ≫= λ m, m !! key
    end.

(** ** [plugins/sticky-columns/plugin.ts] *)

Definition BasePlugin_id : nat := 1.
Definition StickyColumns_TableMeta : nat := 10.
Definition StickyColumns_ColumnMeta : nat := 11.

(** [class StickyColumns extends BasePlugin<Signature>] *)
Definition StickyColumns : Class :=
  {| c_id := 2;
     c_name := "StickyColumns";
     c_supers := [BasePlugin_id];
     c_features := None;
     c_requires := Some ["columnWidth"; "columnVisibility"];
     c_inst_name := "sticky-columns";
     c_inst_features := None;
     c_inst_requires := None;
     c_inst_meta := Some {| meta_table := Some StickyColumns_TableMeta;
                            meta_column := Some StickyColumns_ColumnMeta;
                            meta_row := None |} |}.

(** [`${v}px`] *)
Definition px (v : JsVal) : string := ToString v +:+ "px".

(** The cell of [offset] for a column, and writing it. *)
Definition offset_cell (column : Column) (w : World) : option OffsetCell :=
  offset_cache w !! col_id column.

Definition store_offset_cell (column : Column) (cell : OffsetCell) (w : World)
  : World :=
  set_offset_cache (<[col_id column := cell]> (offset_cache w)) w.

(** Is what a cell of [offset] recorded still the revision of [args] of the
    column's table?  A cell whose computation read no tracked field stays
    valid. *)
Definition offset_cell_valid (column : Column) (cell : OffsetCell) (w : World)
  : bool :=
  match cell.1 with
  | None => true
  | Some rev =>
      bool_decide (t_args_rev <$> tables w !! col_table column = Some rev)
  end.

(** The cell of [offset] of a column is missing or out of date, so that a
    read runs the getter body. *)
Definition offset_stale (column : Column) (w : World) : Prop :=
  ∀ cell, offset_cell column w = Some cell →
          offset_cell_valid column cell w = false.

(** The value that the cell of [offset] holds from an earlier computation,
    [undefined] when there was none. *)
Definition offset_last (column : Column) (w : World) : option string :=
  match offset_cell column w with
  | Some cell => cell.2
  | None => None
  end.

Section StickyColumnMeta.

(** The metas of the other plugins are opaque to this one: what the
    "columnVisibility" table meta answers to [columnsBefore] and
    [columnsAfter], and what a "columnWidth" column meta has as [width]:
    [None] when it has no such property, otherwise the value that reading
    the property yields. *)
Variable columnsBefore : MetaObj → Column → list Column.
Variable columnsAfter : MetaObj → Column → list Column.
Variable width_of : MetaObj → option JsVal.

(** [hasWidth(obj)]; a meta is always a non-null object, which leaves
    ['width' in obj]. *)
Definition hasWidth (obj : MetaObj) : bool :=
  match width_of obj with
  | None => false
  | Some _ => true
  end.

(** [columnMeta.width] *)
Definition width (obj : MetaObj) : JsVal := default JUndefined (width_of obj).

(** The condition asserted in [position]. *)
Definition valid_sticky (sticky : JsVal) : bool :=
  strict_eq sticky (JStr "left") || strict_eq sticky (JStr "right")
  || strict_eq sticky (JBool false) || strict_eq sticky JUndefined.

(** [get position()] *)
Definition position (column : Column) : M JsVal :=
  let sticky := prop "sticky" (options_forColumn column StickyColumns) in
  let* _ := assert (InvalidSticky sticky) (valid_sticky sticky) in
  ret (js_or sticky (JStr "none")).

(** [get isSticky()] *)
Definition isSticky (column : Column) : M bool :=
  let* position := position column in
  ret (negb (strict_eq position (JStr "none"))).

(** What the callback of [reduce] in [offset] returns, once the
    "columnWidth" meta of the column is there. *)
Definition accumulate (acc : JsVal) (columnMeta : MetaObj) : JsVal :=
  if hasWidth columnMeta
  then js_add acc (nullish_or (width columnMeta) (JNum (S754_zero false)))
  else acc.

(** The callback of [reduce] in [offset]. *)
Definition add_width (acc : JsVal) (column : Column) : M JsVal :=
  let* columnMeta := withFeature_forColumn column "columnWidth" in
  ret (accumulate acc columnMeta).

(** The getter body of [offset]; [None] is [undefined]. *)
Definition compute_offset (column : Column) : M (option string) :=
  let* sticky := isSticky column in
  if negb sticky then ret None else
  let* visiblility := withFeature_forTable (col_table column) "columnVisibility" in
  let* pos := position column in
  if strict_eq pos (JStr "left") then
    let leftColumns := columnsBefore visiblility column in
    let* left' := reduceM add_width (JNum (S754_zero false)) leftColumns in
    ret (Some (px left'))
  else
  let* pos := position column in
  if strict_eq pos (JStr "right") then
    let rightColumns := columnsAfter visiblility column in
    let* right' := reduceM add_width (JNum (S754_zero false)) rightColumns in
    ret (Some (px right'))
  else ret None.

(** The tracked state that the getter body reads: none when the column is
    not sticky or [position] throws; otherwise [args] of the column's
    table, through [table.plugins]. *)
Definition offset_reads (column : Column) (w : World) : option nat :=
  match isSticky column w with
  | (_, Ok true) => t_args_rev <$> tables w !! col_table column
  | _ => None
  end.

(** [@cached get offset()].  A cell that is still valid answers the read
    with the value it holds.  Otherwise the body runs, and whether it
    returns or throws the cell records what it read; the value in the cell
    is replaced only when the body returns. *)
Definition offset (column : Column) : M (option string) :=
  λ w,
    let getValue (last : option string) :=
      finally (compute_offset column)
        (λ r, store_offset_cell column
                (offset_reads column w, match r with
                                        | Ok v => v
                                        | Throw _ => last
                                        end)) w in
    match offset_cell column w with
    | Some cell =>
        if offset_cell_valid column cell w then (w, Ok cell.2)
        else getValue cell.2
    | None => getValue None
    end.



(** [get style()] *)
Definition style (column : Column) : M (gmap string JsVal) :=
  let* sticky := isSticky column in
  if sticky then
    let* pos := position column in
    let* off := offset column in
    ret (<["zIndex" := JStr "8"]>
          (<[ToString pos := from_option JStr JUndefined off]>
            (<["position" := JStr "sticky"]> ∅)))
  else ret ∅.

End StickyColumnMeta.

(** ** The uniform accessors the specification speaks of *)

Inductive Entity :=
| OfTable (table : nat)
| OfColumn (column : Column)
| OfRow (row : Row).

(** [metaFor(entity, pluginClass)] *)
Definition metaFor (e : Entity) (klass : Class) : M MetaObj :=
  match e with
  | OfTable table => meta_forTable table klass
  | OfColumn column => meta_forColumn column klass
  | OfRow row => meta_forRow row klass
  end.

(** The entry of the metadata cache for a root key and a plugin class. *)
Definition cached (map : MetaMap) (rootKey : RootKey) (klass : nat) (w : World)
  : option MetaObj :=
  map_get map rootKey w ≫= λ bucket, bucket !! klass.

(** Where the metadata cache keeps the metas of an entity. *)
Definition store_of (e : Entity) : MetaMap :=
  match e with
  | OfTable _ => TABLE_META_map
  | OfColumn _ => COLUMN_META_map
  | OfRow _ => ROW_META_map
  end.

Definition root_of (e : Entity) (w : World) : option RootKey :=
  match e with
  | OfTable table => (λ T, KString (t_key T)) <$> tables w !! table
  | OfColumn column => Some (KObject (col_id column))
  | OfRow row => Some (KObject (row_id row))
  end.

Definition cached_for (e : Entity) (klass : Class) (w : World) : option MetaObj :=
  root_of e w ≫= λ root, cached (store_of e) root (c_id klass) w.

(** The (store, root key, class) triples of the metas constructed in a
    trace, in order. *)
Fixpoint constructions (tr : list Event) : list (MetaMap * RootKey * nat) :=
  match tr with
  | [] => []
  | EvNewMeta map rootKey klass _ :: tr => (map, rootKey, klass) :: constructions tr
  | _ :: tr => constructions tr
  end.

Definition times_constructed (map : MetaMap) (rootKey : RootKey) (klass : nat)
    (tr : list Event) : nat :=
  length (filter (λ x, x = (map, rootKey, klass)) (constructions tr)).

(** The preference façade, by entity. *)
Inductive PrefEntity :=
| PrefTable (table : nat)
| PrefColumn (column : Column).

Definition pref_table (e : PrefEntity) : nat :=
  match e with
  | PrefTable table => table
  | PrefColumn column => col_table column
  end.

Definition pref_level (e : PrefEntity) : PrefLevel :=
  match e with
  | PrefTable _ => TableLevel
  | PrefColumn column => ColumnLevel (col_key column)
  end.

Definition pref_get (e : PrefEntity) (klass : Class) (key : string) : M JsVal :=
  match e with
  | PrefTable table => preferences.forTable_get table klass key
  | PrefColumn column => preferences.forColumn_get column klass key
  end.

Definition pref_set (e : PrefEntity) (klass : Class) (key : string)
    (value : JsVal) : M unit :=
  match e with
  | PrefTable table => preferences.forTable_set table klass key value
  | PrefColumn column => preferences.forColumn_set column klass key value
  end.

Definition pref_delete (e : PrefEntity) (klass : Class) (key : string) : M unit :=
  match e with
  | PrefTable table => preferences.forTable_delete table klass key
  | PrefColumn column => preferences.forColumn_delete column klass key
  end.

(** ** Sequences of calls from independent call sites *)

Inductive Call :=
| CallMetaFor (e : Entity) (klass : Class)
| CallWithFeatureTable (table : nat) (featureName : string)
| CallWithFeatureColumn (column : Column) (featureName : string)
| CallPlugins (table : nat)
| CallPluginOf (table : nat) (klass : Class)
| CallModify (table : nat) (named : option TableConfig)
| CallOptions (table : nat) (klass : Class)
| CallPrefGet (e : PrefEntity) (klass : Class) (key : string)
| CallPrefSet (e : PrefEntity) (klass : Class) (key : string) (value : JsVal)
| CallPrefDelete (e : PrefEntity) (klass : Class) (key : string).

(** The world a call leaves behind, whether it returns or throws. *)
Definition exec (c : Call) (w : World) : World :=
  match c with
  | CallMetaFor e klass => (metaFor e klass w).1
  | CallWithFeatureTable table f => (withFeature_forTable table f w).1
  | CallWithFeatureColumn column f => (withFeature_forColumn column f w).1
  | CallPlugins table => (plugins table w).1
  | CallPluginOf table klass => (pluginOf table klass w).1
  | CallModify table named => (modify table named w).1
  | CallOptions table klass => (options_forTable table klass w).1
  | CallPrefGet e klass key => (pref_get e klass key w).1
  | CallPrefSet e klass key value => (pref_set e klass key value w).1
  | CallPrefDelete e klass key => (pref_delete e klass key w).1
  end.

Definition run (calls : list Call) (w : World) : World :=
  fold_left (λ w c, exec c w) calls w.

(** ** Relations between worlds, used to state what a step keeps *)

(** A relation between the world before and after, kept by a computation
    whatever its outcome. *)
Definition keeps {A} (R : relation World) (m : M A) : Prop :=
  ∀ w, R w (m w).1.

(** [quiet_but extra w w']: from [w] to [w'] the three metadata maps are
    the same, the tables are still there under the same identity key, and
    exactly the metas listed in [extra] were constructed. *)
Record quiet_but (extra : list (MetaMap * RootKey * nat)) (w w' : World)
  : Prop := {
  qb_table : TABLE_META w' = TABLE_META w;
  qb_column : COLUMN_META w' = COLUMN_META w;
  qb_row : ROW_META w' = ROW_META w;
  qb_tables : ∀ t T, tables w !! t = Some T →
              ∃ T', tables w' !! t = Some T' ∧ t_key T' = t_key T;
  qb_trace : constructions (trace w') = constructions (trace w) ++ extra;
}.

Abbreviation quiet := (quiet_but []).

(** The key kinds the two branches of [getPluginInstance] accept. *)
Definition kind_ok (map : MetaMap) (rootKey : RootKey) : bool :=
  if is_WeakMap map then negb (is_string_key rootKey) else is_string_key rootKey.

(** No meta was constructed more often than once, and whatever was
    constructed is in the cache. *)
Definition at_most_once (w : World) : Prop :=
  ∀ map rootKey klass,
    (times_constructed map rootKey klass (trace w)
     ≤ if cached map rootKey klass w is Some _ then 1 else 0)%nat.

(** [grows w w']: every meta the cache holds in [w] it holds in [w'], the
    tables keep their identity keys, and [at_most_once] is passed on. *)
Record grows (w w' : World) : Prop := {
  g_cached : ∀ map rootKey klass m,
      cached map rootKey klass w = Some m → cached map rootKey klass w' = Some m;
  g_tables : ∀ t T, tables w !! t = Some T →
             ∃ T', tables w' !! t = Some T' ∧ t_key T' = t_key T;
  g_once : at_most_once w → at_most_once w';
}.

(** What the closures handed to [getPluginInstance] do: they leave the
    metadata maps alone and, when they return, have constructed exactly one
    meta, for the pair at hand. *)
Definition factory_ok_at (map : MetaMap) (rootKey : RootKey) (klass : nat)
    (factory : M MetaObj) (w : World) : Prop :=
  match (factory w).2 with
  | Ok _ => quiet_but [(map, rootKey, klass)] w (factory w).1
  | Throw _ => quiet w (factory w).1
  end.

Definition factory_ok (map : MetaMap) (rootKey : RootKey) (klass : nat)
    (factory : M MetaObj) : Prop :=
  ∀ w, factory_ok_at map rootKey klass factory w.

Definition same_tables : relation World := λ w w', tables w' = tables w.

(** The store of a table's preferences, if the table has them. *)
Definition storage_of (w : World) (table : nat) : option (gmap string PluginPrefs) :=
  tables w !! table ≫= λ T, tp_storage <$> t_preferences T.

(** The map that a façade reads and writes. *)
Definition bucket_at (storage : gmap string PluginPrefs) (name : string)
    (level : PrefLevel) : gmap string JsVal :=
  match level with
  | TableLevel => pp_table (forPlugin name storage)
  | ColumnLevel columnKey => forColumn columnKey (forPlugin name storage)
  end.

Definition write_level (f : gmap string JsVal → gmap string JsVal)
    (name : string) (level : PrefLevel) (storage : gmap string PluginPrefs) :=
  match level with
  | TableLevel => with_table_prefs f name storage
  | ColumnLevel columnKey => with_column_prefs f name columnKey storage
  end.

#[global] Instance PrefLevel_eq_dec : EqDecision PrefLevel.
Proof. solve_decision. Defined.

(** ** Fixtures *)

(** ** A table with three plugins and three columns *)

Module Fixture.

(** A plugin that provides "columnWidth". *)
Definition WidthPlugin : Class :=
  {| c_id := 20; c_name := "WidthPlugin"; c_supers := [BasePlugin_id];
     c_features := Some ["columnWidth"]; c_requires := None;
     c_inst_name := "width-plugin"; c_inst_features := None;
     c_inst_requires := None;
     c_inst_meta := Some {| meta_table := Some 21; meta_column := Some 22;
                            meta_row := None |} |}.

(** A plugin that provides "columnVisibility". *)
Definition VisibilityPlugin : Class :=
  {| c_id := 30; c_name := "VisibilityPlugin"; c_supers := [BasePlugin_id];
     c_features := Some ["columnVisibility"]; c_requires := None;
     c_inst_name := "visibility-plugin"; c_inst_features := None;
     c_inst_requires := None;
     c_inst_meta := Some {| meta_table := Some 31; meta_column := Some 32;
                            meta_row := None |} |}.

Definition named : TableConfig :=
  {| cfg_plugins := Some [Bare (PClass WidthPlugin);
                          Bare (PClass VisibilityPlugin);
                          Bare (PClass StickyColumns)];
     cfg_preferences := None |}.

Definition table : nat := 1.

Definition the_table : Table :=
  {| t_key := guidFor table; t_owner := Some 7;
     t_args := Some {| args_named := Some named |};
     t_args_rev := 1; t_plugins_cache := None;
     t_preferences := Some {| tp_key := guidFor table; tp_adapter := None;
                              tp_storage := ∅ |};
     t_scrollTop := None |}.

Definition world : World :=
  {| TABLE_META := ∅; COLUMN_META := ∅; ROW_META := ∅;
     tables := {[ table := the_table ]}; offset_cache := ∅;
     next_obj := 200; trace := [] |}.

Definition column (i : nat) (sticky : option JsVal) : Column :=
  {| col_id := 100 + i; col_table := table;
     col_key := "col" +:+ NilZero.string_of_uint (Nat.to_uint i);
     col_pluginOptions :=
       Some [BasePlugin_forColumn StickyColumns
               (Some (match sticky with
                      | Some v => {[ "sticky" := v ]}
                      | None => ∅
                      end))] |}.

Definition first : Column := column 1 None.
Definition middle : Column := column 2 (Some (JStr "left")).
Definition last : Column := column 3 (Some (JStr "right")).
Definition all_columns : list Column := [first; middle; last].

(** A visibility meta that hides nothing. *)
Definition columnsBefore (_ : MetaObj) (c : Column) : list Column :=
  filter (λ x, col_id x < col_id c) all_columns.
Definition columnsAfter (_ : MetaObj) (c : Column) : list Column :=
  filter (λ x, col_id c < col_id x) all_columns.

(** Widths 50, 100 and 75. *)
Definition width_of (m : MetaObj) : option JsVal :=
  match mo_entity m with
  | RColumn 101 => Some (JNum (Number_of_Z 50))
  | RColumn 102 => Some (JNum (Number_of_Z 100))
  | RColumn 103 => Some (JNum (Number_of_Z 75))
  | _ => None
  end.

End Fixture.

(** Two plugins [A] and [B] that both provide the feature "w", configured
    in that order. *)
Module TwoProviders.

Definition A : Class :=
  {| c_id := 40; c_name := "A"; c_supers := [BasePlugin_id];
     c_features := Some ["w"]; c_requires := None;
     c_inst_name := "a"; c_inst_features := None; c_inst_requires := None;
     c_inst_meta := Some {| meta_table := Some 41; meta_column := Some 42;
                            meta_row := None |} |}.

Definition B : Class :=
  {| c_id := 50; c_name := "B"; c_supers := [BasePlugin_id];
     c_features := Some ["w"]; c_requires := None;
     c_inst_name := "b"; c_inst_features := None; c_inst_requires := None;
     c_inst_meta := Some {| meta_table := Some 51; meta_column := Some 52;
                            meta_row := None |} |}.

Definition table : nat := 1.

Definition world : World :=
  {| TABLE_META := ∅; COLUMN_META := ∅; ROW_META := ∅;
     tables := {[ table :=
       {| t_key := guidFor table; t_owner := Some 7;
          t_args := Some {| args_named :=
                      Some {| cfg_plugins := Some [Bare (PClass A); Bare (PClass B)];
                              cfg_preferences := None |} |};
          t_args_rev := 1; t_plugins_cache := None; t_preferences := None;
          t_scrollTop := None |} ]};
     offset_cache := ∅; next_obj := 200; trace := [] |}.

Definition column : Column :=
  {| col_id := 100; col_table := table; col_key := "name";
     col_pluginOptions := None |}.

(** The live instances. *)
Definition a : Plugin :=
  {| p_obj := 200; p_constructor := A; p_name := "a"; p_features := None;
     p_requires := None; p_meta := c_inst_meta A; p_owner := Some 7 |}.
Definition b : Plugin :=
  {| p_obj := 201; p_constructor := B; p_name := "b"; p_features := None;
     p_requires := None; p_meta := c_inst_meta B; p_owner := Some 7 |}.

End TwoProviders.

(** A plugin class [Base] that provides "w", a class [Sub] that extends
    [Base] and declares features of its own, and an unrelated class
    [Other]; a table configured with a list of them. *)
Module Inheritance.

Definition Base : Class :=
  {| c_id := 70; c_name := "Base"; c_supers := [BasePlugin_id];
     c_features := Some ["w"]; c_requires := None;
     c_inst_name := "base"; c_inst_features := None; c_inst_requires := None;
     c_inst_meta := Some {| meta_table := Some 71; meta_column := Some 72;
                            meta_row := None |} |}.

Definition Sub : Class :=
  {| c_id := 75; c_name := "Sub"; c_supers := [c_id Base; BasePlugin_id];
     c_features := Some ["sub"]; c_requires := None;
     c_inst_name := "sub"; c_inst_features := None; c_inst_requires := None;
     c_inst_meta := Some {| meta_table := Some 76; meta_column := Some 77;
                            meta_row := None |} |}.


Definition table : nat := 1.

Definition world_with (plugins : list PluginEntry) : World :=
  {| TABLE_META := ∅; COLUMN_META := ∅; ROW_META := ∅;
     tables := {[ table :=
       {| t_key := guidFor table; t_owner := Some 7;
          t_args := Some {| args_named :=
                      Some {| cfg_plugins := Some plugins;
                              cfg_preferences := None |} |};
          t_args_rev := 1; t_plugins_cache := None; t_preferences := None;
          t_scrollTop := None |} ]};
     offset_cache := ∅; next_obj := 200; trace := [] |}.

Definition column : Column :=
  {| col_id := 100; col_table := table; col_key := "name";
     col_pluginOptions := None |}.

(** The instance that [new klass(table)] makes as object [obj]. *)
Definition instance (klass : Class) (obj : nat) : Plugin :=
  {| p_obj := obj; p_constructor := klass; p_name := c_inst_name klass;
     p_features := c_inst_features klass; p_requires := c_inst_requires klass;
     p_meta := c_inst_meta klass; p_owner := Some 7 |}.

End Inheritance.

(** A table object on which [modify] has not run yet. *)
Module Unconfigured.
Definition table : nat := 1.
Definition the_table : Table :=
  {| t_key := guidFor table; t_owner := Some 7; t_args := None;
     t_args_rev := 0; t_plugins_cache := None; t_preferences := None;
     t_scrollTop := None |}.
Definition world : World :=
  {| TABLE_META := ∅; COLUMN_META := ∅; ROW_META := ∅;
     tables := {[ table := the_table ]}; offset_cache := ∅;
     next_obj := 200; trace := [] |}.
End Unconfigured.

(** Two distinct plugin classes that carry the same class name. *)
Module SameName.
Definition P : Class :=
  {| c_id := 60; c_name := "Plugin"; c_supers := [BasePlugin_id];
     c_features := None; c_requires := None;
     c_inst_name := "p"; c_inst_features := None; c_inst_requires := None;
     c_inst_meta := None |}.
Definition Q : Class :=
  {| c_id := 61; c_name := "Plugin"; c_supers := [BasePlugin_id];
     c_features := None; c_requires := None;
     c_inst_name := "q"; c_inst_features := None; c_inst_requires := None;
     c_inst_meta := None |}.
End SameName.

(** ** Further vocabulary for stating what the operations do *)

(** The table an entity belongs to, the reference a meta constructor is
    given for it, and the meta constructor a plugin declares for its
    scope. *)
Definition table_of (e : Entity) : nat :=
  match e with
  | OfTable table => table
  | OfColumn column => col_table column
  | OfRow row => row_table row
  end.

Definition ref_of (e : Entity) : EntityRef :=
  match e with
  | OfTable table => RTable table
  | OfColumn column => RColumn (col_id column)
  | OfRow row => RRow (row_id row)
  end.

Definition scope_ctor (e : Entity) (meta : MetaSpec) : option nat :=
  match e with
  | OfTable _ => meta_table meta
  | OfColumn _ => meta_column meta
  | OfRow _ => meta_row meta
  end.

(** The cell of [plugins] is up to date and holds [last]. *)
Definition plugins_memo (w : World) (table : nat)
    (last : option (list Plugin)) : Prop :=
  ∃ T, tables w !! table = Some T
       ∧ t_plugins_cache T = Some (t_args_rev T, last).

(** The world after [new ctor(entity)] was stored under a root key and a
    class. *)
Definition with_new_meta (map : MetaMap) (rootKey : RootKey) (klass : nat)
    (m : MetaObj) (w : World) : World :=
  let w1 := log (EvNewMeta map rootKey klass m) (set_next_obj (S (next_obj w)) w) in
  map_set map rootKey (<[klass := m]> (default ∅ (map_get map rootKey w1))) w1.

(** The errors a metadata lookup can end in. *)
Definition lookup_error (klass : Class) (err : Error) : Prop :=
  err = TypeError
  ∨ err = NoOwner
  ∨ (∃ feature name, err = UnsatisfiedRequirement feature name)
  ∨ err = UnregisteredPlugin (c_name klass)
  ∨ (∃ name, err = NoMetaSpecified name)
  ∨ (∃ map name, err = NoScopeMeta map name).

(** The allocation counter does not go back. *)
Definition older : relation World := λ w w', next_obj w ≤ next_obj w'.

(** The metas in the cache are sound: each is an object that was allocated,
    no object sits in two places of the cache, and a meta in the column
    (row) store was constructed for the column (row) it is stored under. *)
Definition metas_sound (w : World) : Prop :=
  (∀ map rootKey klass m,
     cached map rootKey klass w = Some m → mo_id m < next_obj w)
  ∧ (∀ map1 rootKey1 klass1 map2 rootKey2 klass2 m,
       cached map1 rootKey1 klass1 w = Some m →
       cached map2 rootKey2 klass2 w = Some m →
       (map1, rootKey1, klass1) = (map2, rootKey2, klass2))
  ∧ (∀ o klass m,
       cached COLUMN_META_map (KObject o) klass w = Some m →
       mo_entity m = RColumn o)
  ∧ (∀ o klass m,
       cached ROW_META_map (KObject o) klass w = Some m →
       mo_entity m = RRow o).

Definition sound_step : relation World :=
  λ w w', older w w' ∧ (metas_sound w → metas_sound w').

(** What the cell of [plugins] of a table holds, while it is up to date,
    it still holds afterwards. *)
Definition memo_kept (table : nat) : relation World :=
  λ w w', ∀ last, plugins_memo w table last → plugins_memo w' table last.

(** Is the call a [modify] of the table? *)
Definition is_modify_of (table : nat) (c : Call) : bool :=
  match c with
  | CallModify t _ => Nat.eqb t table
  | _ => false
  end.

(** Every table is as before, but for the memo cell of [plugins]. *)
Definition memo_only : relation World :=
  λ w w', ∀ t,
    match tables w !! t with
    | Some T => ∃ c, tables w' !! t = Some (set_plugins_cache c T)
    | None => tables w' !! t = None
    end.

(** A call that only reads: a lookup, a feature resolution, a read of the
    plugins, of the options or of a preference. *)
Definition is_read (c : Call) : bool :=
  match c with
  | CallModify _ _ | CallPrefSet _ _ _ _ | CallPrefDelete _ _ _ => false
  | _ => true
  end.

(** Is the call a [set] or [delete] on the preferences of the table? *)
Definition is_pref_write (table : nat) (c : Call) : bool :=
  match c with
  | CallPrefSet e _ _ _ | CallPrefDelete e _ _ => Nat.eqb (pref_table e) table
  | _ => false
  end.

(** The preferences object of a table is kept: its key and adapter, and,
    when [strict], its store as well. *)
Definition prefs_kept (strict : bool) (table : nat) : relation World :=
  λ w w', ∀ T prefs,
    tables w !! table = Some T → t_preferences T = Some prefs →
    ∃ T' prefs',
      tables w' !! table = Some T' ∧ t_preferences T' = Some prefs'
      ∧ tp_key prefs' = tp_key prefs ∧ tp_adapter prefs' = tp_adapter prefs
      ∧ (strict = true → tp_storage prefs' = tp_storage prefs).

(** The plugin list that [Table.plugins] builds for a normalised
    configuration, for a table with owner [owner], when the allocation counter
    stands at [n]. *)
Fixpoint built (owner : nat) (n : nat) (l : list (PluginRef * Provider))
  : list Plugin :=
  match l with
  | [] => []
  | (PClass PluginClass, _) :: l =>
      {| p_obj := n; p_constructor := PluginClass;
         p_name := c_inst_name PluginClass;
         p_features := c_inst_features PluginClass;
         p_requires := c_inst_requires PluginClass;
         p_meta := c_inst_meta PluginClass;
         p_owner := Some owner |} :: built owner (S n) l
  | (PObject plugin, _) :: l => plugin :: built owner n l
  end.

Definition is_PClass (r : PluginRef) : bool :=
  match r with
  | PClass _ => true
  | PObject _ => false
  end.

(** The cell of [plugins] is missing or out of date. *)
Definition memo_stale (T : Table) : Prop :=
  ∀ rev last, t_plugins_cache T = Some (rev, last) → rev ≠ t_args_rev T.

(** The value that the cell of [plugins] holds from an earlier
    computation, if any. *)
Definition last_plugins (T : Table) : option (list Plugin) :=
  match t_plugins_cache T with
  | Some (_, last) => last
  | None => None
  end.

(** A table without an owner. *)
Module NoOwnerTable.
Definition an_object : Plugin :=
  {| p_obj := 9; p_constructor :=
       {| c_id := Object_id; c_name := "Object"; c_supers := [];
          c_features := None; c_requires := None; c_inst_name := "";
          c_inst_features := None; c_inst_requires := None;
          c_inst_meta := None |};
     p_name := "classless"; p_features := Some ["columnWidth"];
     p_requires := None; p_meta := None; p_owner := None |}.

Definition table_with (plugins : list PluginEntry) : Table :=
  {| t_key := guidFor 1; t_owner := None;
     t_args := Some {| args_named :=
                 Some {| cfg_plugins := Some plugins; cfg_preferences := None |} |};
     t_args_rev := 1; t_plugins_cache := None; t_preferences := None;
     t_scrollTop := None |}.

Definition world_with (plugins : list PluginEntry) : World :=
  {| TABLE_META := ∅; COLUMN_META := ∅; ROW_META := ∅;
     tables := {[ 1 := table_with plugins ]}; offset_cache := ∅;
     next_obj := 200; trace := [] |}.
End NoOwnerTable.

(** What a read of [plugins] that throws leaves behind, for a table that
    was [T] with a cell that was missing or out of date: the cell now
    carries the revision of [args] and still holds the value it held, so the
    next read returns that value -- [undefined] when there was none, and
    [pluginOf] then throws a type error. *)
Definition read_failed (table : nat) (T : Table) (w' : World) : Prop :=
  tables w' !! table
  = Some (set_plugins_cache (Some (t_args_rev T, last_plugins T)) T)
  ∧ plugins table w' = (w', Ok (last_plugins T))
  ∧ (last_plugins T = None →
     ∀ klass, pluginOf table klass w' = (w', Throw TypeError)).

(** * Properties *)

(** ** Reasoning about computations *)

Lemma bind_Ok {A B} (m : M A) (k : A → M B) w w1 a :
  m w = (w1, Ok a) → bind m k w = k a w1.
Proof. intros H. unfold bind. by rewrite H. Qed.

Lemma bind_Throw {A B} (m : M A) (k : A → M B) w w1 e :
  m w = (w1, Throw e) → bind m k w = (w1, Throw e).
Proof. intros H. unfold bind. by rewrite H. Qed.

Lemma bind_inv {A B} (m : M A) (k : A → M B) w w' r :
  bind m k w = (w', r) →
  (∃ w1 a, m w = (w1, Ok a) ∧ k a w1 = (w', r)) ∨
  (∃ e, m w = (w', Throw e) ∧ r = Throw e).
Proof.
  unfold bind. destruct (m w) as [w1 [a|e]]; intros H.
  - left. eauto.
  - right. exists e. by inversion H.
Qed.

Lemma finally_inv {A} (m : M A) (f : Result A → World → World) w w' r :
  finally m f w = (w', r) → ∃ w1, m w = (w1, r) ∧ w' = f r w1.
Proof.
  unfold finally. destruct (m w) as [w1 r1]. intros [= <- <-]. eauto.
Qed.

Lemma finally_eq {A} (m : M A) (f : Result A → World → World) w w1 r :
  m w = (w1, r) → finally m f w = (f r w1, r).
Proof. intros H. unfold finally. by rewrite H. Qed.

Section Keeps.
Context (R : relation World) `{!PreOrder R}.

Lemma keeps_ret {A} (a : A) : keeps R (ret a).
Proof. intros w. simpl. reflexivity. Qed.

Lemma keeps_throw {A} e : keeps R (@throw A e).
Proof. intros w. simpl. reflexivity. Qed.

Lemma keeps_assert e b : keeps R (assert e b).
Proof. destruct b; [apply keeps_ret | apply keeps_throw]. Qed.

Lemma bind_rel {A B} (m : M A) (k : A → M B) w :
  R w (m w).1 →
  (∀ a w1, m w = (w1, Ok a) → R w1 (k a w1).1) →
  R w (bind m k w).1.
Proof.
  intros Hm Hk. unfold bind. destruct (m w) as [w1 [a|e]] eqn:E; simpl in *.
  - etrans; [exact Hm | by apply Hk].
  - exact Hm.
Qed.

Lemma keeps_bind {A B} (m : M A) (k : A → M B) :
  keeps R m → (∀ a, keeps R (k a)) → keeps R (bind m k).
Proof. intros Hm Hk w. apply bind_rel; [apply Hm | intros; apply Hk]. Qed.

Lemma keeps_mapM {A B} (f : A → M B) l :
  (∀ x, keeps R (f x)) → keeps R (mapM f l).
Proof.
  intros Hf. induction l as [|x xs IH]; simpl.
  - apply keeps_ret.
  - apply keeps_bind; [apply Hf | intros y].
    apply keeps_bind; [apply IH | intros ys; apply keeps_ret].
Qed.

Lemma keeps_finally {A} (m : M A) (f : Result A → World → World) :
  keeps R m → (∀ r w, R w (f r w)) → keeps R (finally m f).
Proof.
  intros Hm Hf w. unfold finally. specialize (Hm w).
  destruct (m w) as [w1 r]; simpl in *. etrans; [exact Hm | apply Hf].
Qed.

Lemma keeps_the_array {A} (v : option (list A)) : keeps R (the_array v).
Proof. destruct v; [apply keeps_ret | apply keeps_throw]. Qed.

Lemma keeps_reduceM {A B} (f : B → A → M B) l :
  (∀ acc x, keeps R (f acc x)) → ∀ init, keeps R (reduceM f init l).
Proof.
  intros Hf. induction l as [|x xs IH]; intros init; simpl.
  - apply keeps_ret.
  - apply keeps_bind; [apply Hf | intros acc; apply IH].
Qed.
End Keeps.

(** ** Steps that leave the metadata alone *)

Lemma constructions_app tr1 tr2 :
  constructions (tr1 ++ tr2) = constructions tr1 ++ constructions tr2.
Proof.
  induction tr1 as [|[] tr1 IH]; simpl; [done | | done | done].
  by rewrite IH.
Qed.

Lemma quiet_refl w : quiet w w.
Proof. split; eauto using app_nil_r. Qed.

Lemma quiet_but_trans a b w1 w2 w3 :
  quiet_but a w1 w2 → quiet_but b w2 w3 → quiet_but (a ++ b) w1 w3.
Proof.
  intros [H1 H2 H3 H4 H5] [G1 G2 G3 G4 G5]. split; try congruence.
  - intros t T HT. destruct (H4 t T HT) as (T' & HT' & Hk).
    destruct (G4 t T' HT') as (T'' & HT'' & Hk'). exists T''. split; congruence.
  - by rewrite G5, H5, app_assoc.
Qed.

#[global] Instance quiet_preorder : PreOrder quiet.
Proof.
  split; [exact quiet_refl |].
  intros w1 w2 w3 H1 H2. exact (quiet_but_trans [] [] _ _ _ H1 H2).
Qed.

Lemma quiet_get_table t : keeps quiet (get_table t).
Proof. intros w. unfold get_table. destruct (tables w !! t); apply quiet_refl. Qed.

Lemma quiet_fresh : keeps quiet fresh.
Proof. intros w. split; simpl; eauto. by rewrite app_nil_r. Qed.

Lemma quiet_emit_plugin t k o : keeps quiet (emit (EvNewPlugin t k o)).
Proof.
  intros w. split; simpl; eauto.
  by rewrite constructions_app.
Qed.

Lemma quiet_emit_persist t k s : keeps quiet (emit (EvPersist t k s)).
Proof.
  intros w. split; simpl; eauto.
  by rewrite constructions_app.
Qed.

(** Writing back a table under its own identity key. *)
Lemma quiet_put_table t T T' w :
  tables w !! t = Some T → t_key T' = t_key T →
  quiet w (put_table t T' w).1.
Proof.
  intros HT Hk. split; simpl; eauto; [| by rewrite app_nil_r].
  intros t0 T0 H0. destruct (decide (t0 = t)) as [->|Hne].
  - rewrite lookup_insert_eq. exists T'. split; [done | congruence].
  - rewrite lookup_insert_ne by done. eauto.
Qed.

Lemma get_table_inv t w w' T :
  get_table t w = (w', Ok T) → w' = w ∧ tables w !! t = Some T.
Proof.
  unfold get_table. destruct (tables w !! t); intros H; inversion H; auto.
Qed.

Lemma quiet_verifyPlugins l : keeps quiet (verifyPlugins l).
Proof.
  unfold verifyPlugins. destruct (verify_from [] l);
    [apply keeps_throw | apply keeps_ret]; apply _.
Qed.

Lemma quiet_instantiate t tuple : keeps quiet (instantiate t tuple).
Proof.
  unfold instantiate. destruct (fst tuple) as [c|p]; [| apply keeps_ret; apply _].
  apply keeps_bind; [apply _ | apply quiet_fresh | intros obj].
  apply keeps_bind; [apply _ | apply quiet_emit_plugin | intros _].
  apply keeps_bind; [apply _ | apply quiet_get_table | intros T].
  destruct (t_owner T); [apply keeps_ret | apply keeps_throw]; apply _.
Qed.

Lemma quiet_read_named t : keeps quiet (read_named t).
Proof.
  unfold read_named.
  apply keeps_bind; [apply _ | apply quiet_get_table | intros T].
  destruct (t_args T); [apply keeps_ret | apply keeps_throw]; apply _.
Qed.

Lemma quiet_compute_plugins t : keeps quiet (compute_plugins t).
Proof.
  unfold compute_plugins.
  apply keeps_bind; [apply _ | apply quiet_read_named | intros named].
  apply keeps_bind; [apply _ | apply quiet_verifyPlugins | intros _].
  apply keeps_mapM; [apply _ | intros x; apply quiet_instantiate].
Qed.

Lemma quiet_store_plugins_cache t cell w : quiet w (store_plugins_cache t cell w).
Proof.
  unfold store_plugins_cache. destruct (tables w !! t) as [T|] eqn:HT;
    [| apply quiet_refl].
  by apply (quiet_put_table t T).
Qed.

(** The two ways a read of [plugins] goes: an up-to-date cell answers it,
    a missing or stale one is computed. *)
Lemma memo_cases T :
  (∃ last, t_plugins_cache T = Some (t_args_rev T, last)) ∨ memo_stale T.
Proof.
  unfold memo_stale. destruct (t_plugins_cache T) as [[rev last]|]; [| by right].
  destruct (decide (rev = t_args_rev T)) as [->|Hne]; [eauto |].
  right. by intros ? ? [= <- _].
Qed.

Lemma plugins_cached t w T last :
  tables w !! t = Some T →
  t_plugins_cache T = Some (t_args_rev T, last) →
  plugins t w = (w, Ok last).
Proof.
  intros HT Hc. unfold plugins, bind at 1, get_table at 1.
  by rewrite HT, Hc, Nat.eqb_refl.
Qed.

Lemma plugins_stale t w T :
  tables w !! t = Some T → memo_stale T →
  plugins t w = recompute_plugins t (t_args_rev T) (last_plugins T) w.
Proof.
  intros HT Hstale. unfold plugins, bind at 1, get_table at 1, last_plugins.
  rewrite HT. destruct (t_plugins_cache T) as [[rev last]|] eqn:Ec; [| done].
  destruct (Nat.eqb_spec rev (t_args_rev T)) as [E|_]; [| done].
  by destruct (Hstale _ _ Ec).
Qed.

Lemma plugins_no_table t w :
  tables w !! t = None → plugins t w = (w, Throw TypeError).
Proof. intros H. unfold plugins, bind, get_table. by rewrite H. Qed.

Lemma keeps_recompute_plugins (R : relation World) `{!PreOrder R} t rev last :
  keeps R (compute_plugins t) →
  (∀ cell w, R w (store_plugins_cache t cell w)) →
  keeps R (recompute_plugins t rev last).
Proof.
  intros Hc Hs. unfold recompute_plugins.
  apply keeps_bind; [done | | intros; by apply keeps_ret].
  apply keeps_finally; [done | done | intros; apply Hs].
Qed.

Lemma keeps_plugins (R : relation World) `{!PreOrder R} t :
  keeps R (compute_plugins t) →
  (∀ cell w, R w (store_plugins_cache t cell w)) →
  keeps R (plugins t).
Proof.
  intros Hc Hs w. destruct (tables w !! t) as [T|] eqn:HT; cycle 1.
  { rewrite plugins_no_table by done. reflexivity. }
  destruct (memo_cases T) as [[last Hm]|Hstale].
  - rewrite (plugins_cached _ _ _ _ HT Hm). reflexivity.
  - rewrite (plugins_stale _ _ _ HT Hstale). by apply keeps_recompute_plugins.
Qed.

Lemma quiet_plugins t : keeps quiet (plugins t).
Proof.
  apply keeps_plugins; [apply _ | apply quiet_compute_plugins |].
  intros; apply quiet_store_plugins_cache.
Qed.

Lemma keeps_pluginOf (R : relation World) `{!PreOrder R} t klass :
  keeps R (plugins t) → keeps R (pluginOf t klass).
Proof.
  intros Hp. unfold pluginOf. apply keeps_bind; [done | done | intros v].
  apply keeps_bind; [done | by apply keeps_the_array | intros; by apply keeps_ret].
Qed.

Lemma quiet_pluginOf t klass : keeps quiet (pluginOf t klass).
Proof. apply keeps_pluginOf; [apply _ | apply quiet_plugins]. Qed.

Lemma quiet_modify t named : keeps quiet (modify t named).
Proof.
  intros w. unfold modify. apply bind_rel; [apply _ | apply quiet_get_table |].
  intros T w1 HT. apply get_table_inv in HT as [-> HT].
  destruct (t_preferences (set_args named T)) eqn:E.
  - eapply quiet_put_table; [done |]. unfold resetScrollContainer.
    by destruct (t_scrollTop _).
  - by eapply quiet_put_table.
Qed.

Lemma quiet_options_forTable t klass : keeps quiet (options_forTable t klass).
Proof.
  unfold options_forTable, config.
  apply keeps_bind; [apply _ | apply quiet_read_named | intros; apply keeps_ret; apply _].
Qed.

Lemma quiet_get_preferences t : keeps quiet (get_preferences t).
Proof.
  unfold get_preferences.
  apply keeps_bind; [apply _ | apply quiet_get_table | intros T].
  destruct (t_preferences T); [apply keeps_ret | apply keeps_throw]; apply _.
Qed.

Lemma quiet_update_storage t f : keeps quiet (update_storage t f).
Proof.
  intros w. unfold update_storage.
  apply bind_rel; [apply _ | apply quiet_get_table |].
  intros T w1 HT. apply get_table_inv in HT as [-> HT].
  destruct (t_preferences T); [by eapply quiet_put_table | apply quiet_refl].
Qed.

Lemma quiet_persist t : keeps quiet (persist t).
Proof.
  unfold persist.
  apply keeps_bind; [apply _ | apply quiet_get_preferences | intros prefs].
  apply quiet_emit_persist.
Qed.

Lemma quiet_pref_get e klass key : keeps quiet (pref_get e klass key).
Proof.
  destruct e; simpl; unfold preferences.forTable_get, preferences.forColumn_get;
    (apply keeps_bind; [apply _ | apply quiet_get_preferences
                       | intros; apply keeps_ret; apply _]).
Qed.

Lemma quiet_pref_set e klass key value : keeps quiet (pref_set e klass key value).
Proof.
  destruct e; simpl; unfold preferences.forTable_set, preferences.forColumn_set;
    (apply keeps_bind; [apply _ | apply quiet_update_storage
                       | intros; apply quiet_persist]).
Qed.

Lemma quiet_pref_delete e klass key : keeps quiet (pref_delete e klass key).
Proof.
  destruct e; simpl;
    unfold preferences.forTable_delete, preferences.forColumn_delete;
    (apply keeps_bind; [apply _ | apply quiet_update_storage
                       | intros; apply quiet_persist]).
Qed.

(** ** The metadata cache only grows *)

Lemma map_get_kind map rootKey w b :
  map_get map rootKey w = Some b → kind_ok map rootKey = true.
Proof. by destruct map, rootKey. Qed.

Lemma map_get_set map rootKey b map' rootKey' w :
  kind_ok map rootKey = true →
  map_get map' rootKey' (map_set map rootKey b w) =
    if decide (map' = map ∧ rootKey' = rootKey) then Some b
    else map_get map' rootKey' w.
Proof.
  intros Hk. case_decide as Hd.
  - destruct Hd as [-> ->].
    destruct map, rootKey; try done; simpl; apply lookup_insert_eq.
  - destruct map, rootKey; try done; destruct map', rootKey'; simpl; try done;
      (rewrite lookup_insert_ne; [done |]); intros ->; by apply Hd.
Qed.

Lemma map_set_tables map rootKey b w :
  tables (map_set map rootKey b w) = tables w.
Proof. by destruct map, rootKey. Qed.

Lemma map_set_trace map rootKey b w :
  trace (map_set map rootKey b w) = trace w.
Proof. by destruct map, rootKey. Qed.

Lemma map_set_next_obj map rootKey b w :
  next_obj (map_set map rootKey b w) = next_obj w.
Proof. by destruct map, rootKey. Qed.

Lemma cached_set map rootKey klass m map' rootKey' klass' w :
  kind_ok map rootKey = true →
  cached map' rootKey' klass'
    (map_set map rootKey
       (<[klass := m]> (default ∅ (map_get map rootKey w))) w) =
    if decide ((map', rootKey', klass') = (map, rootKey, klass)) then Some m
    else cached map' rootKey' klass' w.
Proof.
  intros Hk. unfold cached. rewrite map_get_set by done.
  case_decide as H1.
  - destruct H1 as [-> ->]. simpl.
    destruct (decide (klass' = klass)) as [->|Hne].
    + rewrite lookup_insert_eq. by rewrite decide_True.
    + rewrite lookup_insert_ne by done.
      rewrite decide_False by congruence.
      destruct (map_get map rootKey w); simpl; [done | by rewrite lookup_empty].
  - rewrite decide_False; [done |]. intros [= -> -> ->]. by apply H1.
Qed.

Lemma cached_set_empty map rootKey map' rootKey' klass' w :
  kind_ok map rootKey = true →
  map_get map rootKey w = None →
  cached map' rootKey' klass' (map_set map rootKey ∅ w) =
    cached map' rootKey' klass' w.
Proof.
  intros Hk Hn. unfold cached. rewrite map_get_set by done.
  case_decide as H1; [| done]. destruct H1 as [-> ->]. by rewrite Hn.
Qed.

Lemma quiet_but_cached extra w w' map rootKey klass :
  quiet_but extra w w' → cached map rootKey klass w' = cached map rootKey klass w.
Proof.
  intros [H1 H2 H3 _ _]. unfold cached.
  by destruct map, rootKey; simpl; rewrite ?H1, ?H2, ?H3.
Qed.

#[global] Instance grows_preorder : PreOrder grows.
Proof.
  split.
  - intros w. split; eauto.
  - intros w1 w2 w3 [H1 H2 H3] [G1 G2 G3]. split; eauto.
    intros t T HT. destruct (H2 t T HT) as (T' & HT' & Hk).
    destruct (G2 t T' HT') as (T'' & HT'' & Hk'). exists T''. split; congruence.
Qed.

Lemma quiet_grows w w' : quiet w w' → grows w w'.
Proof.
  intros Hq. split.
  - intros map rootKey klass m. by rewrite (quiet_but_cached _ _ _ _ _ _ Hq).
  - apply Hq.
  - intros Ho map rootKey klass. unfold times_constructed.
    rewrite (qb_trace _ _ _ Hq), app_nil_r.
    rewrite (quiet_but_cached _ _ _ _ _ _ Hq). apply Ho.
Qed.

Lemma keeps_quiet_grows {A} (m : M A) : keeps quiet m → keeps grows m.
Proof. intros H w. apply quiet_grows, H. Qed.

Lemma ensure_bucket_spec map rootKey w :
  kind_ok map rootKey = true →
  ∃ wa, ensure_bucket map rootKey w = (wa, Ok tt)
    ∧ (∀ map' rootKey' klass',
         cached map' rootKey' klass' wa = cached map' rootKey' klass' w)
    ∧ tables wa = tables w ∧ trace wa = trace w ∧ next_obj wa = next_obj w.
Proof.
  intros Hk. unfold ensure_bucket, kind_ok in *.
  assert ((if is_WeakMap map
           then assert StringKeyWithWeakMap (negb (is_string_key rootKey))
           else assert ObjectKeyWithMap (is_string_key rootKey)) w = (w, Ok tt))
    as Ha.
  { destruct (is_WeakMap map); by rewrite Hk. }
  rewrite (bind_Ok _ _ _ _ _ Ha).
  destruct (map_get map rootKey w) eqn:E.
  - by exists w.
  - exists (map_set map rootKey ∅ w). split; [done |].
    split; [intros; by apply cached_set_empty |].
    by rewrite map_set_tables, map_set_trace, map_set_next_obj.
Qed.

Lemma ensure_bucket_wrong_kind map rootKey w :
  kind_ok map rootKey = false →
  ∃ e, ensure_bucket map rootKey w = (w, Throw e).
Proof.
  intros Hk. unfold ensure_bucket, kind_ok in *.
  destruct (is_WeakMap map).
  - exists StringKeyWithWeakMap. by rewrite Hk.
  - exists ObjectKeyWithMap. by rewrite Hk.
Qed.

(** A hit: the stored instance is returned and nothing changes. *)
Lemma getPluginInstance_hit map rootKey klass factory w m :
  cached map rootKey klass w = Some m →
  getPluginInstance map rootKey klass factory w = (w, Ok m).
Proof.
  intros Hc. unfold getPluginInstance.
  assert (∃ b, map_get map rootKey w = Some b) as [b Hb].
  { unfold cached in Hc. destruct (map_get map rootKey w); [eauto | done]. }
  assert (ensure_bucket map rootKey w = (w, Ok tt)) as He.
  { destruct (ensure_bucket_spec map rootKey w (map_get_kind _ _ _ _ Hb))
      as (wa & He & _).
    revert He. unfold ensure_bucket, bind.
    destruct (if is_WeakMap map then _ else _) as [w1 [[]|e]] eqn:Ea; [| done].
    assert (w1 = w) as ->.
    { destruct (is_WeakMap map); revert Ea; unfold assert;
        destruct (is_string_key rootKey); simpl; unfold ret, throw; congruence. }
    by rewrite Hb. }
  rewrite (bind_Ok _ _ _ _ _ He).
  unfold bucket_get. unfold bind at 1. fold (cached map rootKey klass w).
  by rewrite Hc.
Qed.

(** On a miss the factory runs on the world with the bucket in place, and
    its result is stored in that bucket. *)
Lemma getPluginInstance_miss map rootKey klass factory w :
  kind_ok map rootKey = true →
  cached map rootKey klass w = None →
  ∃ wa, ensure_bucket map rootKey w = (wa, Ok tt)
    ∧ (∀ map' rootKey' klass',
         cached map' rootKey' klass' wa = cached map' rootKey' klass' w)
    ∧ tables wa = tables w ∧ trace wa = trace w ∧ next_obj wa = next_obj w
    ∧ getPluginInstance map rootKey klass factory w =
        match factory wa with
        | (wb, Ok m) =>
            (map_set map rootKey
               (<[klass := m]> (default ∅ (map_get map rootKey wb))) wb, Ok m)
        | (wb, Throw e) => (wb, Throw e)
        end.
Proof.
  intros Hk Hc.
  destruct (ensure_bucket_spec map rootKey w Hk) as (wa & He & Hca & Hta & Htr & Hn).
  exists wa. repeat (split; [done |]).
  unfold getPluginInstance. rewrite (bind_Ok _ _ _ _ _ He).
  unfold bucket_get. unfold bind at 1. fold (cached map rootKey klass wa).
  rewrite Hca, Hc. unfold bind, bucket_set, ret.
  by destruct (factory wa) as [wb [m|e]].
Qed.

Lemma getPluginInstance_grows_at map rootKey klass factory w :
  (∀ wa, tables wa = tables w → factory_ok_at map rootKey klass factory wa) →
  grows w (getPluginInstance map rootKey klass factory w).1.
Proof.
  intros Hf.
  destruct (kind_ok map rootKey) eqn:Hk; cycle 1.
  { destruct (ensure_bucket_wrong_kind map rootKey w Hk) as [e He].
    unfold getPluginInstance. rewrite (bind_Throw _ _ _ _ _ He). reflexivity. }
  destruct (cached map rootKey klass w) as [m|] eqn:Hc.
  { rewrite (getPluginInstance_hit _ _ _ _ _ _ Hc). reflexivity. }
  destruct (getPluginInstance_miss map rootKey klass factory w Hk Hc)
    as (wa & _ & Hca & Hta & Htr & _ & ->).
  specialize (Hf wa Hta). unfold factory_ok_at in Hf.
  destruct (factory wa) as [wb [m|e]]; simpl in *.
  - split.
    + intros map' rootKey' klass' m' Hm'. rewrite cached_set by done.
      case_decide as Hd; [congruence |].
      by rewrite (quiet_but_cached _ _ _ _ _ _ Hf), Hca.
    + intros t T HT. rewrite map_set_tables. apply (qb_tables _ _ _ Hf).
      by rewrite Hta.
    + intros Ho map' rootKey' klass'. unfold times_constructed.
      rewrite map_set_trace, (qb_trace _ _ _ Hf), Htr, filter_app, length_app.
      rewrite cached_set by done. specialize (Ho map' rootKey' klass').
      unfold times_constructed in Ho.
      rewrite filter_cons, filter_nil. case_decide as Hd.
      * injection Hd as -> -> ->. rewrite decide_True by done.
        rewrite Hc in Ho. simpl. lia.
      * rewrite decide_False by congruence.
        rewrite (quiet_but_cached _ _ _ _ _ _ Hf), Hca. simpl. lia.
  - split.
    + intros map' rootKey' klass' m'.
      by rewrite (quiet_but_cached _ _ _ _ _ _ Hf), Hca.
    + intros t T HT. apply (qb_tables _ _ _ Hf). by rewrite Hta.
    + intros Ho map' rootKey' klass'. unfold times_constructed.
      rewrite (qb_trace _ _ _ Hf), Htr, app_nil_r.
      rewrite (quiet_but_cached _ _ _ _ _ _ Hf), Hca. apply Ho.
Qed.

Lemma getPluginInstance_grows map rootKey klass factory :
  factory_ok map rootKey klass factory →
  keeps grows (getPluginInstance map rootKey klass factory).
Proof. intros Hf w. apply getPluginInstance_grows_at. intros; apply Hf. Qed.

(** Whatever [getPluginInstance] returns is what the cache holds
    afterwards. *)
Lemma getPluginInstance_Ok_cached map rootKey klass factory w w' m :
  getPluginInstance map rootKey klass factory w = (w', Ok m) →
  cached map rootKey klass w' = Some m.
Proof.
  intros H.
  destruct (kind_ok map rootKey) eqn:Hk; cycle 1.
  { destruct (ensure_bucket_wrong_kind map rootKey w Hk) as [e He].
    unfold getPluginInstance in H. by rewrite (bind_Throw _ _ _ _ _ He) in H. }
  destruct (cached map rootKey klass w) as [m0|] eqn:Hc.
  { rewrite (getPluginInstance_hit _ _ _ _ _ _ Hc) in H. congruence. }
  destruct (getPluginInstance_miss map rootKey klass factory w Hk Hc)
    as (wa & _ & _ & _ & _ & _ & Hg).
  rewrite Hg in H. destruct (factory wa) as [wb [m1|e]]; [| done].
  injection H as <- <-. rewrite cached_set by done. by rewrite decide_True.
Qed.

(** The closures of [meta.forColumn], [meta.forRow] and [meta.forTable]. *)
Lemma quiet_but_new_meta map rootKey klass ctor entity w :
  quiet_but [(map, rootKey, klass)] w (new_meta map rootKey klass ctor entity w).1.
Proof.
  split; simpl; eauto. by rewrite constructions_app.
Qed.

Lemma factory_ok_new_meta map rootKey klass ctor entity :
  factory_ok map rootKey klass (new_meta map rootKey klass ctor entity).
Proof. intros w. apply quiet_but_new_meta. Qed.

Lemma factory_ok_throw map rootKey klass e :
  factory_ok map rootKey klass (throw e).
Proof. intros w. apply quiet_refl. Qed.

Lemma factory_ok_bind {A} map rootKey klass (m : M A) (f : A → M MetaObj) :
  keeps quiet m → (∀ a, factory_ok map rootKey klass (f a)) →
  factory_ok map rootKey klass (bind m f).
Proof.
  intros Hm Hf w. specialize (Hm w). unfold factory_ok_at, bind.
  destruct (m w) as [w1 [a|e]]; simpl in *; [| done].
  specialize (Hf a w1). unfold factory_ok_at in Hf.
  destruct (f a w1) as [w2 [x|e]]; simpl in *.
  - exact (quiet_but_trans [] _ _ _ _ Hm Hf).
  - exact (quiet_but_trans [] [] _ _ _ Hm Hf).
Qed.

Lemma forColumn_factory_ok column klass :
  factory_ok COLUMN_META_map (KObject (col_id column)) (c_id klass)
    (forColumn_factory column klass).
Proof.
  unfold forColumn_factory.
  apply factory_ok_bind; [apply quiet_pluginOf |].
  intros [plugin|]; [| apply factory_ok_throw].
  destruct (p_meta plugin) as [meta|]; [| apply factory_ok_throw].
  destruct (meta_column meta); [| apply factory_ok_throw].
  apply factory_ok_new_meta.
Qed.

Lemma forRow_factory_ok row klass :
  factory_ok ROW_META_map (KObject (row_id row)) (c_id klass)
    (forRow_factory row klass).
Proof.
  unfold forRow_factory.
  apply factory_ok_bind; [apply quiet_pluginOf |].
  intros [plugin|]; [| apply factory_ok_throw].
  destruct (p_meta plugin) as [meta|]; [| apply factory_ok_throw].
  destruct (meta_row meta); [| apply factory_ok_throw].
  apply factory_ok_new_meta.
Qed.

Lemma quiet_table_key t : keeps quiet (table_key t).
Proof.
  unfold table_key.
  apply keeps_bind; [apply _ | apply quiet_get_table | intros; apply keeps_ret; apply _].
Qed.

Lemma table_key_inv t w w' key :
  table_key t w = (w', Ok key) →
  w' = w ∧ ∃ T, tables w !! t = Some T ∧ key = t_key T.
Proof.
  unfold table_key, bind, get_table, ret.
  destruct (tables w !! t) as [T|]; intros [= <- <-]; eauto.
Qed.

Lemma table_key_lookup t w T :
  tables w !! t = Some T → table_key t w = (w, Ok (t_key T)).
Proof. intros H. unfold table_key, bind, get_table, ret. by rewrite H. Qed.

(** The closure of [meta.forTable] is run for the key that the table has
    when the closure reads it; for a table whose key is [key] this is the
    key the instance is stored under. *)
Lemma forTable_factory_ok table klass key w :
  (∃ T, tables w !! table = Some T ∧ t_key T = key) →
  factory_ok_at TABLE_META_map (KString key) (c_id klass)
    (forTable_factory table klass) w.
Proof.
  intros (T & HT & Hkey). unfold factory_ok_at, forTable_factory, bind.
  pose proof (quiet_pluginOf table klass w) as Hq.
  destruct (pluginOf table klass w) as [w1 [[plugin|]|e]]; simpl in *; try done.
  destruct (p_meta plugin) as [meta|]; simpl; [| done].
  destruct (meta_table meta) as [ctor|]; simpl; [| done].
  destruct (qb_tables _ _ _ Hq table T HT) as (T1 & HT1 & Hk1).
  rewrite (table_key_lookup _ _ _ HT1). unfold table_bucket_has.
  destruct (negb _); simpl; [| done].
  rewrite Hk1, Hkey.
  exact (quiet_but_trans [] _ _ _ _ Hq (quiet_but_new_meta _ _ _ _ _ _)).
Qed.

(** ** Every operation lets the metadata cache grow only *)

Lemma grows_meta_forColumn column klass : keeps grows (meta_forColumn column klass).
Proof. apply getPluginInstance_grows, forColumn_factory_ok. Qed.

Lemma grows_meta_forRow row klass : keeps grows (meta_forRow row klass).
Proof. apply getPluginInstance_grows, forRow_factory_ok. Qed.

Lemma grows_meta_forTable table klass : keeps grows (meta_forTable table klass).
Proof.
  intros w. unfold meta_forTable. apply bind_rel; [apply _ | |].
  - apply quiet_grows, quiet_table_key.
  - intros key w1 Hk. apply table_key_inv in Hk as (-> & T & HT & ->).
    apply getPluginInstance_grows_at. intros wa Hwa.
    apply forTable_factory_ok. exists T. by rewrite Hwa.
Qed.

Lemma grows_metaFor e klass : keeps grows (metaFor e klass).
Proof.
  destruct e; [apply grows_meta_forTable | apply grows_meta_forColumn
              | apply grows_meta_forRow].
Qed.

Lemma keeps_withFeature_forTable (R : relation World) `{!PreOrder R} table f :
  keeps R (plugins table) →
  (∀ klass, keeps R (meta_forTable table klass)) →
  keeps R (withFeature_forTable table f).
Proof.
  intros Hp Hm. unfold withFeature_forTable.
  apply keeps_bind; [done | done | intros v].
  apply keeps_bind; [done | by apply keeps_the_array | intros ps].
  destruct (findPlugin ps f); [apply Hm | by apply keeps_throw].
Qed.

Lemma keeps_withFeature_forColumn (R : relation World) `{!PreOrder R} column f :
  keeps R (plugins (col_table column)) →
  (∀ klass, keeps R (meta_forColumn column klass)) →
  keeps R (withFeature_forColumn column f).
Proof.
  intros Hp Hm. unfold withFeature_forColumn.
  apply keeps_bind; [done | done | intros v].
  apply keeps_bind; [done | by apply keeps_the_array | intros ps].
  destruct (findPlugin ps f); [apply Hm | by apply keeps_throw].
Qed.

(** What a feature resolution does once the plugin list is read. *)
Lemma withFeature_forTable_read table f w w1 v :
  plugins table w = (w1, Ok v) →
  withFeature_forTable table f w =
    match v with
    | None => (w1, Throw TypeError)
    | Some ps =>
        match findPlugin ps f with
        | None => (w1, Throw (FeatureNotFound f (availableFeatures ps)))
        | Some provider => meta_forTable table (p_constructor provider) w1
        end
    end.
Proof.
  intros H. unfold withFeature_forTable. rewrite (bind_Ok _ _ _ _ _ H).
  destruct v as [ps|]; [| done]. unfold the_array. unfold bind at 1, ret at 1.
  by destruct (findPlugin ps f).
Qed.

Lemma withFeature_forColumn_read column f w w1 v :
  plugins (col_table column) w = (w1, Ok v) →
  withFeature_forColumn column f w =
    match v with
    | None => (w1, Throw TypeError)
    | Some ps =>
        match findPlugin ps f with
        | None => (w1, Throw (FeatureNotFound f (availableFeatures ps)))
        | Some provider => meta_forColumn column (p_constructor provider) w1
        end
    end.
Proof.
  intros H. unfold withFeature_forColumn. rewrite (bind_Ok _ _ _ _ _ H).
  destruct v as [ps|]; [| done]. unfold the_array. unfold bind at 1, ret at 1.
  by destruct (findPlugin ps f).
Qed.

Lemma pluginOf_read table klass w w1 v :
  plugins table w = (w1, Ok v) →
  pluginOf table klass w =
    match v with
    | None => (w1, Throw TypeError)
    | Some ps => (w1, Ok (List.find (λ q, instanceof q klass) ps))
    end.
Proof.
  intros H. unfold pluginOf. rewrite (bind_Ok _ _ _ _ _ H). by destruct v.
Qed.

Lemma grows_withFeature_forTable table f : keeps grows (withFeature_forTable table f).
Proof.
  apply keeps_withFeature_forTable; [apply _ | | apply grows_meta_forTable].
  apply keeps_quiet_grows, quiet_plugins.
Qed.

Lemma grows_withFeature_forColumn column f :
  keeps grows (withFeature_forColumn column f).
Proof.
  apply keeps_withFeature_forColumn; [apply _ | | apply grows_meta_forColumn].
  apply keeps_quiet_grows, quiet_plugins.
Qed.

Lemma grows_exec c w : grows w (exec c w).
Proof.
  destruct c; simpl.
  - apply grows_metaFor.
  - apply grows_withFeature_forTable.
  - apply grows_withFeature_forColumn.
  - apply quiet_grows, quiet_plugins.
  - apply quiet_grows, quiet_pluginOf.
  - apply quiet_grows, quiet_modify.
  - apply quiet_grows, quiet_options_forTable.
  - apply quiet_grows, quiet_pref_get.
  - apply quiet_grows, quiet_pref_set.
  - apply quiet_grows, quiet_pref_delete.
Qed.

Lemma grows_run calls w : grows w (run calls w).
Proof.
  revert w. induction calls as [|c calls IH]; intros w; simpl.
  - reflexivity.
  - etrans; [apply (grows_exec c) | apply IH].
Qed.

Lemma at_most_once_start w : constructions (trace w) = [] → at_most_once w.
Proof.
  intros H map rootKey klass. unfold times_constructed. rewrite H. simpl. lia.
Qed.

Lemma cached_for_grows e klass w w' m :
  grows w w' → cached_for e klass w = Some m → cached_for e klass w' = Some m.
Proof.
  intros Hg. unfold cached_for, root_of. destruct e as [table| |]; simpl;
    try apply (g_cached _ _ Hg).
  destruct (tables w !! table) as [T|] eqn:HT; [| done]. simpl.
  destruct (g_tables _ _ Hg _ _ HT) as (T' & HT' & Hk).
  rewrite HT'. simpl. rewrite Hk. apply (g_cached _ _ Hg).
Qed.

(** A lookup that finds the meta in the cache returns it and leaves the
    world as it is. *)
Lemma metaFor_hit e klass w m :
  cached_for e klass w = Some m → metaFor e klass w = (w, Ok m).
Proof.
  unfold cached_for, root_of. destruct e as [table|column|row]; simpl.
  - destruct (tables w !! table) as [T|] eqn:HT; [| done]. simpl. intros Hc.
    unfold meta_forTable. rewrite (bind_Ok _ _ _ _ _ (table_key_lookup _ _ _ HT)).
    by apply getPluginInstance_hit.
  - apply getPluginInstance_hit.
  - apply getPluginInstance_hit.
Qed.

(** A lookup that returns leaves the returned meta in the cache. *)
Lemma metaFor_Ok_cached e klass w w' m :
  metaFor e klass w = (w', Ok m) → cached_for e klass w' = Some m.
Proof.
  unfold cached_for, root_of. destruct e as [table|column|row]; simpl.
  - intros H. pose proof (grows_meta_forTable table klass w) as Hg.
    rewrite H in Hg. simpl in Hg.
    unfold meta_forTable in H. apply bind_inv in H as [(w1 & key & Hk & H)|(e & _ & ?)];
      [| done].
    apply table_key_inv in Hk as (-> & T & HT & ->).
    destruct (g_tables _ _ Hg _ _ HT) as (T' & HT' & Hk').
    rewrite HT'. simpl. rewrite Hk'.
    by eapply getPluginInstance_Ok_cached.
  - apply getPluginInstance_Ok_cached.
  - apply getPluginInstance_Ok_cached.
Qed.

Lemma run_at_most_once calls w0 map rootKey klass :
  trace w0 = [] →
  (times_constructed map rootKey klass (trace (run calls w0)) ≤ 1)%nat.
Proof.
  intros H0.
  assert (at_most_once (run calls w0)) as Ho.
  { apply (g_once _ _ (grows_run calls w0)), at_most_once_start.
    by rewrite H0. }
  specialize (Ho map rootKey klass).
  destruct (cached map rootKey klass (run calls w0)); lia.
Qed.

(** ** C1: the metadata lookup is get-or-create *)

(** C1.  Metadata lookup is get-or-create and idempotent, for the table, the
    column and the row store alike.  (1) Once [metaFor e klass] has returned
    a meta, every later [metaFor e klass] -- directly afterwards ([calls] =
    [[]]) or after any sequence of other calls -- returns that very meta
    and changes nothing.  (2) In a run that starts before any meta was made,
    the constructor of a meta runs at most once for each (entity root key,
    plugin class) pair.  (3) A meta that the cache holds is never replaced. *)
Theorem metaFor_get_or_create :
  (∀ e klass w w1 m calls,
     metaFor e klass w = (w1, Ok m) →
     metaFor e klass (run calls w1) = (run calls w1, Ok m))
  ∧ (∀ calls w0 map rootKey klass,
       trace w0 = [] →
       (times_constructed map rootKey klass (trace (run calls w0)) ≤ 1)%nat)
  ∧ (∀ calls e klass w m,
       cached_for e klass w = Some m →
       cached_for e klass (run calls w) = Some m).
Proof.
  split; [| split].
  - intros e klass w w1 m calls H. apply metaFor_hit.
    eapply cached_for_grows; [apply grows_run |].
    by eapply metaFor_Ok_cached.
  - intros calls w0 map rootKey klass. apply run_at_most_once.
  - intros calls e klass w m. apply cached_for_grows, grows_run.
Qed.

Lemma metaFor_get_or_create_witness :
  let e := OfColumn Fixture.middle in
  let calls := [CallModify Fixture.table (Some Fixture.named);
                CallMetaFor (OfTable Fixture.table) StickyColumns;
                CallMetaFor e StickyColumns] in
  let w1 := (metaFor e StickyColumns Fixture.world).1 in
  let m := {| mo_id := 203; mo_ctor := StickyColumns_ColumnMeta;
              mo_entity := RColumn 102 |} in
  metaFor e StickyColumns (run calls w1) = (run calls w1, Ok m)
  ∧ (times_constructed COLUMN_META_map (KObject 102) (c_id StickyColumns)
       (trace (run (CallMetaFor e StickyColumns :: calls) Fixture.world)) ≤ 1)%nat
  ∧ cached_for e StickyColumns (run calls w1) = Some m.
Proof.
  destruct metaFor_get_or_create as (H1 & H2 & H3).
  split; [| split].
  - apply (H1 (OfColumn Fixture.middle) StickyColumns Fixture.world). vm_compute. reflexivity.
  - apply H2. reflexivity.
  - apply H3. vm_compute. reflexivity.
Defined.

(** ** C2: what a new configuration keeps and what it discards *)

Lemma instantiate_spec table tuple w w' p :
  instantiate table tuple w = (w', Ok p) →
  next_obj w ≤ next_obj w' ∧
  match tuple.1 with
  | PClass c => p_constructor p = c ∧ next_obj w ≤ p_obj p < next_obj w'
  | PObject q => p = q
  end.
Proof.
  unfold instantiate. destruct (tuple.1) as [c|q].
  - unfold bind, fresh, emit, get_table, ret, throw. simpl.
    destruct (tables w !! table) as [T|]; [| done].
    destruct (t_owner T); [| done]. intros [= <- <-]. simpl.
    repeat split; lia.
  - unfold ret. intros [= <- <-]. auto.
Qed.

Lemma mapM_instantiate_spec table l : ∀ w w' ps n,
  mapM (instantiate table) l w = (w', Ok ps) → n ≤ next_obj w →
  n ≤ next_obj w' ∧
  Forall2 (λ tuple p, match tuple.1 with
                      | PClass c => p_constructor p = c ∧ n ≤ p_obj p
                      | PObject q => p = q
                      end) l ps.
Proof.
  induction l as [|x xs IH]; intros w w' ps n; simpl.
  - unfold ret. intros [= <- <-] Hn. split; [done | constructor].
  - intros H Hn.
    apply bind_inv in H as [(w1 & p & Hp & H)|(e & _ & ?)]; [| done].
    apply bind_inv in H as [(w2 & ps' & Hps & H)|(e & _ & ?)]; [| done].
    unfold ret in H. injection H as <- <-.
    apply instantiate_spec in Hp as [Hle Hp].
    destruct (IH _ _ _ n Hps ltac:(lia)) as [Hn2 HF]. split; [done |].
    constructor; [| done]. destruct (x.1); [| done].
    destruct Hp as [-> ?]. split; [done | lia].
Qed.

(** C2 (as amended).  Re-applying a configuration to a table succeeds and
    leaves the three metadata stores untouched: every meta that was cached
    is still what [metaFor] returns.  Options are read from the new
    configuration.  The memoised plugin list does not survive: the next read
    of [plugins] builds the list again from the new configuration, with a
    newly allocated instance for every plugin configured by class, while a
    plugin configured as an object is passed through. *)
Theorem modify_keeps_metadata_rebuilds_plugins table named w T :
  tables w !! table = Some T →
  (∀ rev ps, t_plugins_cache T = Some (rev, ps) → rev ≤ t_args_rev T) →
  ∃ w', modify table named w = (w', Ok tt)
    ∧ TABLE_META w' = TABLE_META w
    ∧ COLUMN_META w' = COLUMN_META w
    ∧ ROW_META w' = ROW_META w
    ∧ (∀ e klass m, cached_for e klass w = Some m →
         metaFor e klass w' = (w', Ok m))
    ∧ (∀ klass, options_forTable table klass w'
                = (w', Ok (options_from named klass)))
    ∧ (∀ w'' ps, plugins table w' = (w'', Ok (Some ps)) →
         Forall2 (λ tuple p, match tuple.1 with
                             | PClass c => p_constructor p = c
                                           ∧ next_obj w ≤ p_obj p
                             | PObject q => p = q
                             end)
           (normalizePluginsConfig (named ≫= cfg_plugins)) ps).
Proof.
  intros HT Hrev.
  pose proof (quiet_modify table named w) as Hq.
  assert (∃ T', modify table named w
                = (set_tables (<[table := T']> (tables w)) w, Ok tt)
            ∧ t_args T' = Some {| args_named := named |}
            ∧ t_args_rev T' = S (t_args_rev T)
            ∧ t_plugins_cache T' = t_plugins_cache T) as (T' & Hm & Ha & Hr & Hc).
  { unfold modify, bind, get_table, put_table. rewrite HT.
    destruct (t_preferences (set_args named T)); [| by eexists].
    eexists. split; [done |]. unfold resetScrollContainer.
    by destruct (t_scrollTop _). }
  rewrite Hm in Hq. simpl in Hq. eexists. split; [exact Hm |].
  repeat (split; [done |]).
  split; [| split].
  - intros e klass m Hcm. apply metaFor_hit.
    by eapply cached_for_grows; [apply quiet_grows, Hq |].
  - intros klass. unfold options_forTable, config, read_named, bind, get_table, ret.
    simpl. by rewrite lookup_insert_eq, Ha.
  - intros w'' ps.
    set (w' := set_tables (<[table := T']> (tables w)) w).
    assert (tables w' !! table = Some T') as HT' by apply lookup_insert_eq.
    assert (memo_stale T') as Hstale.
    { intros rev last Hc'. rewrite Hc in Hc'. specialize (Hrev _ _ Hc'). lia. }
    rewrite (plugins_stale _ _ _ HT' Hstale). unfold recompute_plugins. intros H.
    apply bind_inv in H as [(w1 & ps0 & Hf & H)|(e & _ & ?)]; [| done].
    unfold ret in H. injection H as _ <-.
    apply finally_inv in Hf as (wc & Hcp & _).
    unfold compute_plugins, read_named in Hcp.
    unfold bind at 1 2, get_table at 1 in Hcp. rewrite HT', Ha in Hcp.
    unfold ret at 1 in Hcp. simpl in Hcp.
    apply bind_inv in Hcp as [(w2 & [] & Hv & Hcp)|(e & _ & ?)]; [| done].
    assert (w2 = w') as ->.
    { revert Hv. unfold verifyPlugins. destruct (verify_from _ _); [done |].
      unfold ret. congruence. }
    by apply (mapM_instantiate_spec _ _ _ _ _ (next_obj w)) in Hcp as [_ ?].
Qed.

Lemma modify_keeps_metadata_rebuilds_plugins_witness :
  let w := (metaFor (OfTable Fixture.table) StickyColumns Fixture.world).1 in
  let T := default Fixture.the_table (tables w !! Fixture.table) in
  let named := Some Fixture.named in
  ∃ w', modify Fixture.table named w = (w', Ok tt)
    ∧ TABLE_META w' = TABLE_META w
    ∧ COLUMN_META w' = COLUMN_META w
    ∧ ROW_META w' = ROW_META w
    ∧ (∀ e klass m, cached_for e klass w = Some m →
         metaFor e klass w' = (w', Ok m))
    ∧ (∀ klass, options_forTable Fixture.table klass w'
                = (w', Ok (options_from named klass)))
    ∧ (∀ w'' ps, plugins Fixture.table w' = (w'', Ok (Some ps)) →
         Forall2 (λ tuple p, match tuple.1 with
                             | PClass c => p_constructor p = c
                                           ∧ next_obj w ≤ p_obj p
                             | PObject q => p = q
                             end)
           (normalizePluginsConfig (named ≫= cfg_plugins)) ps).
Proof.
  intros w T named.
  apply (modify_keeps_metadata_rebuilds_plugins Fixture.table named w T).
  - vm_compute. reflexivity.
  - intros rev ps. vm_compute. intros [= <- _]. lia.
Defined.

(** The claim C2 as it stands fails: on the fixture table, reading the
    plugins, re-applying the very same configuration and reading the plugins
    again yields three new plugin objects. *)
Lemma modify_discards_plugin_instances :
  ∃ w1 ps w2 w3 ps',
    plugins Fixture.table Fixture.world = (w1, Ok (Some ps))
    ∧ modify Fixture.table (Some Fixture.named) w1 = (w2, Ok tt)
    ∧ plugins Fixture.table w2 = (w3, Ok (Some ps'))
    ∧ map p_obj ps = [200; 201; 202]
    ∧ map p_obj ps' = [203; 204; 205]
    ∧ ps' ≠ ps.
Proof.
  eexists _, _, _, _, _.
  split; [vm_compute; reflexivity |].
  split; [vm_compute; reflexivity |].
  split; [vm_compute; reflexivity |].
  split; [reflexivity |]. split; [reflexivity |]. discriminate.
Qed.

(** ** C4: feature resolution *)

#[global] Instance same_tables_preorder : PreOrder same_tables.
Proof. split; [done | intros w1 w2 w3; unfold same_tables; congruence]. Qed.

Lemma same_tables_get_table t : keeps same_tables (get_table t).
Proof. intros w. unfold get_table. by destruct (tables w !! t). Qed.

Lemma same_tables_read_named t : keeps same_tables (read_named t).
Proof.
  unfold read_named.
  apply keeps_bind; [apply _ | apply same_tables_get_table | intros T].
  destruct (t_args T); [apply keeps_ret | apply keeps_throw]; apply _.
Qed.

Lemma same_tables_compute_plugins t : keeps same_tables (compute_plugins t).
Proof.
  unfold compute_plugins.
  apply keeps_bind; [apply _ | apply same_tables_read_named | intros named].
  apply keeps_bind; [apply _ | | intros _].
  { intros w. unfold verifyPlugins. by destruct (verify_from _ _). }
  apply keeps_mapM; [apply _ |]. intros x. unfold instantiate.
  destruct (x.1); [| apply keeps_ret; apply _].
  apply keeps_bind; [apply _ | done | intros obj].
  apply keeps_bind; [apply _ | done | intros _].
  apply keeps_bind; [apply _ | apply same_tables_get_table | intros T'].
  destruct (t_owner T'); [apply keeps_ret | apply keeps_throw]; apply _.
Qed.

(** What a computation of [plugins] leaves in the cell, however the getter
    body ends. *)
Lemma recompute_plugins_spec t w T last :
  tables w !! t = Some T →
  ∃ wc r, compute_plugins t w = (wc, r) ∧ tables wc = tables w
    ∧ recompute_plugins t (t_args_rev T) last w =
        (set_tables
           (<[t := set_plugins_cache
                     (Some (t_args_rev T, match r with
                                          | Ok ps => Some ps
                                          | Throw _ => last
                                          end)) T]> (tables wc)) wc,
         match r with
         | Ok ps => Ok (Some ps)
         | Throw e => Throw e
         end).
Proof.
  intros HT. pose proof (same_tables_compute_plugins t w) as Hst.
  unfold same_tables in Hst.
  destruct (compute_plugins t w) as [wc r] eqn:Ec. simpl in Hst.
  exists wc, r. split; [done |]. split; [done |].
  unfold recompute_plugins, bind. rewrite (finally_eq _ _ _ _ _ Ec).
  unfold store_plugins_cache. rewrite Hst, HT. by destruct r.
Qed.

(** After a read of [plugins] that returned, the cell is up to date and
    holds what was returned. *)
Lemma plugins_Ok_cached t w w1 v :
  plugins t w = (w1, Ok v) → plugins_memo w1 t v.
Proof.
  intros H. destruct (tables w !! t) as [T|] eqn:HT; cycle 1.
  { by rewrite plugins_no_table in H. }
  destruct (memo_cases T) as [[last Hm]|Hstale].
  - rewrite (plugins_cached _ _ _ _ HT Hm) in H. injection H as <- <-.
    by exists T.
  - rewrite (plugins_stale _ _ _ HT Hstale) in H.
    destruct (recompute_plugins_spec t w T (last_plugins T) HT)
      as (wc & r & _ & _ & Hr).
    rewrite Hr in H. destruct r as [ps|e]; [| done]. injection H as <- <-.
    eexists. simpl. split; [apply lookup_insert_eq | done].
Qed.



Lemma instanceof_constructor plugin : instanceof plugin (p_constructor plugin) = true.
Proof. unfold instanceof. apply bool_decide_eq_true_2. set_solver. Qed.

Lemma pluginOf_memo table klass w ps :
  plugins_memo w table (Some ps) →
  pluginOf table klass w = (w, Ok (List.find (λ q, instanceof q klass) ps)).
Proof.
  intros (T & HT & Hc).
  by rewrite (pluginOf_read _ _ _ _ _ (plugins_cached _ _ _ _ HT Hc)).
Qed.






(** With the plugins [A; B], both providing "w", resolving "w" yields a meta
    made by the table-meta constructor of [A], on the first and on every
    later resolution. *)
Example resolveFeature_two_providers :
  let '(w1, r1) := withFeature_forTable TwoProviders.table "w" TwoProviders.world in
  let '(w2, r2) := withFeature_forTable TwoProviders.table "w" w1 in
  r1 = Ok {| mo_id := 202; mo_ctor := 41; mo_entity := RTable TwoProviders.table |}
  ∧ r2 = r1.
Proof. vm_compute. split; reflexivity. Qed.

(** ** C5, C6: preferences *)

Lemma entry_at_bucket storage name level key :
  entry_at storage name level key = bucket_at storage name level !! key.
Proof.
  unfold entry_at, bucket_at, forPlugin, forColumn.
  destruct (storage !! name) as [pp|]; simpl.
  - destruct level as [|ck]; [done |].
    by destruct (pp_columns pp !! ck).
  - by destruct level.
Qed.

Lemma bucket_at_write f name level storage name' level' :
  bucket_at (write_level f name level storage) name' level' =
    if decide (name' = name ∧ level' = level)
    then f (bucket_at storage name level)
    else bucket_at storage name' level'.
Proof.
  unfold bucket_at, write_level, with_table_prefs, with_column_prefs, forPlugin.
  destruct (decide (name' = name)) as [->|Hn].
  - destruct level as [|ck], level' as [|ck']; rewrite lookup_insert_eq; simpl.
    + by rewrite decide_True.
    + by rewrite decide_False by (intros [_ ?]; done).
    + by rewrite decide_False by (intros [_ ?]; done).
    + unfold forColumn. simpl. destruct (decide (ck' = ck)) as [->|Hc].
      * rewrite lookup_insert_eq. by rewrite decide_True.
      * rewrite lookup_insert_ne by done.
        by rewrite decide_False by (intros [_ [= ?]]; done).
  - rewrite decide_False by (intros [? _]; done).
    by destruct level, level'; rewrite lookup_insert_ne.
Qed.

Lemma update_storage_spec t f w T prefs :
  tables w !! t = Some T → t_preferences T = Some prefs →
  update_storage t f w =
    (set_tables
       (<[t := set_preferences
                 (Some {| tp_key := tp_key prefs; tp_adapter := tp_adapter prefs;
                          tp_storage := f (tp_storage prefs) |}) T]> (tables w)) w,
     Ok tt).
Proof.
  intros HT Hp. unfold update_storage, bind, get_table, put_table.
  by rewrite HT, Hp.
Qed.

Lemma persist_spec t w T prefs :
  tables w !! t = Some T → t_preferences T = Some prefs →
  persist t w = (log (EvPersist t (tp_key prefs) (tp_storage prefs)) w, Ok tt).
Proof.
  intros HT Hp. unfold persist, get_preferences, bind, get_table, ret, emit.
  by rewrite HT, Hp.
Qed.

(** A write through a façade: the store is updated in the map the façade
    addresses, and then persisted. *)
Lemma pref_write_spec (f : gmap string JsVal → gmap string JsVal)
    e klass w T prefs :
  tables w !! pref_table e = Some T → t_preferences T = Some prefs →
  let storage' := write_level f (c_name klass) (pref_level e) (tp_storage prefs) in
  let T' := set_preferences
              (Some {| tp_key := tp_key prefs; tp_adapter := tp_adapter prefs;
                       tp_storage := storage' |}) T in
  (let* _ := update_storage (pref_table e)
               (write_level f (c_name klass) (pref_level e)) in
   persist (pref_table e)) w
  = (log (EvPersist (pref_table e) (tp_key prefs) storage')
       (set_tables (<[pref_table e := T']> (tables w)) w), Ok tt).
Proof.
  intros HT Hp storage' T'.
  rewrite (bind_Ok _ _ _ _ _ (update_storage_spec _ _ _ _ _ HT Hp)).
  rewrite (persist_spec (pref_table e) _ T'
             {| tp_key := tp_key prefs; tp_adapter := tp_adapter prefs;
                tp_storage := storage' |});
    [done | simpl; apply lookup_insert_eq | done].
Qed.

Lemma pref_set_unfold e klass key value :
  pref_set e klass key value =
  (let* _ := update_storage (pref_table e)
               (write_level (<[key := value]>) (c_name klass) (pref_level e)) in
   persist (pref_table e)).
Proof. by destruct e. Qed.

Lemma pref_delete_unfold e klass key :
  pref_delete e klass key =
  (let* _ := update_storage (pref_table e)
               (write_level (delete key) (c_name klass) (pref_level e)) in
   persist (pref_table e)).
Proof. by destruct e. Qed.

Lemma pref_get_spec e klass key w T prefs :
  tables w !! pref_table e = Some T → t_preferences T = Some prefs →
  pref_get e klass key w =
    (w, Ok (default JUndefined
              (bucket_at (tp_storage prefs) (c_name klass) (pref_level e) !! key))).
Proof.
  intros HT Hp. destruct e; simpl in *;
    unfold preferences.forTable_get, preferences.forColumn_get,
      get_preferences, bind, get_table, ret; by rewrite HT, Hp.
Qed.

(** C6 (as amended).  For a table that has its preferences, [set(key, value)] through
    the façade of an entity and a plugin class puts [value] at the address
    [klass.name][column key | table level][key] of the store, and [delete(key)]
    removes the entry at that address; every other address keeps what it
    had; and each of the two ends with exactly one [persist()], which sees
    the store as it is after the change.  The first segment of the address
    is the name of the plugin class the façade was made for. *)
Theorem preferences_path_and_persist e klass key w T prefs :
  tables w !! pref_table e = Some T → t_preferences T = Some prefs →
  (∀ value, ∃ w' storage',
     pref_set e klass key value w = (w', Ok tt)
     ∧ storage_of w' (pref_table e) = Some storage'
     ∧ entry_at storage' (c_name klass) (pref_level e) key = Some value
     ∧ (∀ name level k,
          (name, level, k) ≠ (c_name klass, pref_level e, key) →
          entry_at storage' name level k = entry_at (tp_storage prefs) name level k)
     ∧ trace w' = trace w ++ [EvPersist (pref_table e) (tp_key prefs) storage'])
  ∧ (∃ w' storage',
     pref_delete e klass key w = (w', Ok tt)
     ∧ storage_of w' (pref_table e) = Some storage'
     ∧ entry_at storage' (c_name klass) (pref_level e) key = None
     ∧ (∀ name level k,
          (name, level, k) ≠ (c_name klass, pref_level e, key) →
          entry_at storage' name level k = entry_at (tp_storage prefs) name level k)
     ∧ trace w' = trace w ++ [EvPersist (pref_table e) (tp_key prefs) storage']).
Proof.
  intros HT Hp. split; [intros value |].
  - eexists _, (write_level (<[key := value]>) (c_name klass) (pref_level e)
                  (tp_storage prefs)).
    rewrite pref_set_unfold.
    split; [by apply pref_write_spec |].
    split; [unfold storage_of; simpl; by rewrite lookup_insert_eq |].
    split; [| split; [| done]].
    + rewrite entry_at_bucket, bucket_at_write, decide_True by done.
      apply lookup_insert_eq.
    + intros name level k Hne.
      rewrite !entry_at_bucket, bucket_at_write. case_decide as Hd; [| done].
      destruct Hd as [-> ->]. rewrite lookup_insert_ne; [done | congruence].
  - eexists _, (write_level (delete key) (c_name klass) (pref_level e)
                  (tp_storage prefs)).
    rewrite pref_delete_unfold.
    split; [by apply pref_write_spec |].
    split; [unfold storage_of; simpl; by rewrite lookup_insert_eq |].
    split; [| split; [| done]].
    + rewrite entry_at_bucket, bucket_at_write, decide_True by done.
      apply lookup_delete_eq.
    + intros name level k Hne.
      rewrite !entry_at_bucket, bucket_at_write. case_decide as Hd; [| done].
      destruct Hd as [-> ->]. rewrite lookup_delete_ne; [done | congruence].
Qed.

Lemma preferences_path_and_persist_witness :
  let e := PrefColumn Fixture.middle in
  let klass := StickyColumns in
  let key := "pinned" in
  let w := Fixture.world in
  let prefs := {| tp_key := guidFor Fixture.table; tp_adapter := None;
                  tp_storage := ∅ |} in
  (∀ value, ∃ w' storage',
     pref_set e klass key value w = (w', Ok tt)
     ∧ storage_of w' (pref_table e) = Some storage'
     ∧ entry_at storage' "StickyColumns" (ColumnLevel "col2") key = Some value
     ∧ (∀ name level k,
          (name, level, k) ≠ (c_name klass, pref_level e, key) →
          entry_at storage' name level k = entry_at (tp_storage prefs) name level k)
     ∧ trace w' = trace w ++ [EvPersist (pref_table e) (tp_key prefs) storage'])
  ∧ (∃ w' storage',
     pref_delete e klass key w = (w', Ok tt)
     ∧ storage_of w' (pref_table e) = Some storage'
     ∧ entry_at storage' "StickyColumns" (ColumnLevel "col2") key = None
     ∧ (∀ name level k,
          (name, level, k) ≠ (c_name klass, pref_level e, key) →
          entry_at storage' name level k = entry_at (tp_storage prefs) name level k)
     ∧ trace w' = trace w ++ [EvPersist (pref_table e) (tp_key prefs) storage']).
Proof.
  intros e klass key w prefs.
  apply (preferences_path_and_persist e klass key w Fixture.the_table prefs).
  - vm_compute. reflexivity.
  - reflexivity.
Defined.

Lemma pref_get_after_write (f : gmap string JsVal → gmap string JsVal)
    e P Q key w T prefs :
  tables w !! pref_table e = Some T → t_preferences T = Some prefs →
  ∃ w', (let* _ := update_storage (pref_table e)
                     (write_level f (c_name Q) (pref_level e)) in
         persist (pref_table e)) w = (w', Ok tt)
    ∧ pref_get e P key w' =
        (w', Ok (default JUndefined
                   (bucket_at (write_level f (c_name Q) (pref_level e)
                                 (tp_storage prefs))
                      (c_name P) (pref_level e) !! key))).
Proof.
  intros HT Hp. eexists. split; [by apply pref_write_spec |].
  apply (pref_get_spec e P key _
           (set_preferences
              (Some {| tp_key := tp_key prefs; tp_adapter := tp_adapter prefs;
                       tp_storage := write_level f (c_name Q) (pref_level e)
                                       (tp_storage prefs) |}) T)
           {| tp_key := tp_key prefs; tp_adapter := tp_adapter prefs;
              tp_storage := write_level f (c_name Q) (pref_level e)
                              (tp_storage prefs) |}).
  - simpl. apply lookup_insert_eq.
  - done.
Qed.

(** C5 (as amended).  For a table that has its preferences and every
    façade of it: [set(k, v)] then [get(k)] returns [v]; [delete(k)] then
    [get(k)] returns [undefined]; and a [set] or [delete] made through the
    façade of a plugin class of another class name, on the same entity and
    any key, leaves what [get(k)] returns unchanged. *)
Theorem preferences_round_trip e P key w T prefs :
  tables w !! pref_table e = Some T → t_preferences T = Some prefs →
  (∀ value, ∃ w', pref_set e P key value w = (w', Ok tt)
                  ∧ pref_get e P key w' = (w', Ok value))
  ∧ (∃ w', pref_delete e P key w = (w', Ok tt)
           ∧ pref_get e P key w' = (w', Ok JUndefined))
  ∧ (∀ Q k value, c_name Q ≠ c_name P →
       ∃ v0 w1 w2,
         pref_get e P key w = (w, Ok v0)
         ∧ pref_set e Q k value w = (w1, Ok tt)
         ∧ pref_get e P key w1 = (w1, Ok v0)
         ∧ pref_delete e Q k w = (w2, Ok tt)
         ∧ pref_get e P key w2 = (w2, Ok v0)).
Proof.
  intros HT Hp. split; [intros value | split; [| intros Q k value Hne]].
  - destruct (pref_get_after_write (<[key := value]>) e P P key w T prefs HT Hp)
      as (w' & Hw & Hg).
    exists w'. rewrite pref_set_unfold. split; [done |]. rewrite Hg.
    by rewrite bucket_at_write, decide_True, lookup_insert_eq.
  - destruct (pref_get_after_write (delete key) e P P key w T prefs HT Hp)
      as (w' & Hw & Hg).
    exists w'. rewrite pref_delete_unfold. split; [done |]. rewrite Hg.
    by rewrite bucket_at_write, decide_True, lookup_delete_eq.
  - destruct (pref_get_after_write (<[k := value]>) e P Q key w T prefs HT Hp)
      as (w1 & Hw1 & Hg1).
    destruct (pref_get_after_write (delete k) e P Q key w T prefs HT Hp)
      as (w2 & Hw2 & Hg2).
    eexists _, w1, w2. split; [by eapply pref_get_spec |].
    rewrite pref_set_unfold, pref_delete_unfold.
    split; [done |]. split.
    { rewrite Hg1. by rewrite bucket_at_write, decide_False by (intros [? _]; done). }
    split; [done |].
    rewrite Hg2. by rewrite bucket_at_write, decide_False by (intros [? _]; done).
Qed.

Lemma preferences_round_trip_witness :
  let e := PrefTable Fixture.table in
  let w := Fixture.world in
  (∀ value, ∃ w', pref_set e StickyColumns "k" value w = (w', Ok tt)
                  ∧ pref_get e StickyColumns "k" w' = (w', Ok value))
  ∧ (∃ w', pref_delete e StickyColumns "k" w = (w', Ok tt)
           ∧ pref_get e StickyColumns "k" w' = (w', Ok JUndefined))
  ∧ (∀ Q k value, c_name Q ≠ c_name StickyColumns →
       ∃ v0 w1 w2,
         pref_get e StickyColumns "k" w = (w, Ok v0)
         ∧ pref_set e Q k value w = (w1, Ok tt)
         ∧ pref_get e StickyColumns "k" w1 = (w1, Ok v0)
         ∧ pref_delete e Q k w = (w2, Ok tt)
         ∧ pref_get e StickyColumns "k" w2 = (w2, Ok v0)).
Proof.
  intros e w.
  apply (preferences_round_trip e StickyColumns "k" w Fixture.the_table
           {| tp_key := guidFor Fixture.table; tp_adapter := None;
              tp_storage := ∅ |}).
  - vm_compute. reflexivity.
  - reflexivity.
Defined.

(** The claim C5 as it stands fails for two distinct plugin classes of one
    class name: what is set through the façade of [Q] is what the façade of
    [P] gets, and a delete through [P] removes it for [Q]. *)
Lemma preferences_shared_by_classes_of_one_name :
  let e := PrefTable Fixture.table in
  let w1 := (pref_set e SameName.Q "k" (JStr "q") Fixture.world).1 in
  let w2 := (pref_delete e SameName.P "k" w1).1 in
  c_id SameName.P ≠ c_id SameName.Q
  ∧ pref_get e SameName.P "k" Fixture.world = (Fixture.world, Ok JUndefined)
  ∧ pref_get e SameName.P "k" w1 = (w1, Ok (JStr "q"))
  ∧ pref_get e SameName.Q "k" w1 = (w1, Ok (JStr "q"))
  ∧ pref_get e SameName.Q "k" w2 = (w2, Ok JUndefined).
Proof.
  split; [discriminate |]. repeat split; vm_compute; reflexivity.
Qed.

(** The claim C6 as it stands fails: the first segment is not the plugin's
    name.  The live [StickyColumns] plugin of the fixture table has the name
    "sticky-columns"; after a [set] through the façade made for
    [StickyColumns] nothing is stored under "sticky-columns", at the table
    level or at a column level, and the value is found under the name of the
    class, "StickyColumns". *)
Lemma preferences_not_keyed_by_plugin_name :
  let plugin := (pluginOf Fixture.table StickyColumns Fixture.world).2 in
  let w1 := (pref_set (PrefTable Fixture.table) StickyColumns "k" (JBool true)
               Fixture.world).1 in
  let w2 := (pref_set (PrefColumn Fixture.middle) StickyColumns "k" (JBool true)
               Fixture.world).1 in
  (∃ p, plugin = Ok (Some p) ∧ p_name p = "sticky-columns"
        ∧ c_name (p_constructor p) = "StickyColumns")
  ∧ (storage_of w1 Fixture.table ≫= λ s, entry_at s "sticky-columns" TableLevel "k")
    = None
  ∧ (storage_of w1 Fixture.table ≫= λ s, entry_at s "StickyColumns" TableLevel "k")
    = Some (JBool true)
  ∧ (storage_of w2 Fixture.table
       ≫= λ s, entry_at s "sticky-columns" (ColumnLevel "col2") "k")
    = None
  ∧ (storage_of w2 Fixture.table
       ≫= λ s, entry_at s "StickyColumns" (ColumnLevel "col2") "k")
    = Some (JBool true).
Proof.
  split; [eexists; split; [vm_compute; reflexivity | split; reflexivity] |].
  repeat split; vm_compute; reflexivity.
Qed.

(** ** C7: options *)

Lemma find_none_Forall {A} (f : A → bool) l :
  Forall (λ x, f x = false) l → List.find f l = None.
Proof. induction 1 as [|x l Hx _ IH]; simpl; [done | by rewrite Hx]. Qed.

Lemma find_first {A} (f : A → bool) pre x post :
  Forall (λ y, f y = false) pre → f x = true →
  List.find f (pre ++ x :: post) = Some x.
Proof.
  intros Hpre Hx. induction Hpre as [|y pre Hy _ IH]; simpl.
  - by rewrite Hx.
  - by rewrite Hy.
Qed.

Lemma options_forTable_spec table klass w T args :
  tables w !! table = Some T → t_args T = Some args →
  options_forTable table klass w = (w, Ok (options_from (args_named args) klass)).
Proof.
  intros HT Ha. unfold options_forTable, config, read_named, bind, get_table, ret.
  by rewrite HT, Ha.
Qed.

(** C7 (as amended).  The options lookup does not fail on absence.  Table
    scope, for a table whose [args] have been assigned: the lookup does not
    throw and changes nothing; it returns [{}] when no tuple of the
    normalised plugin configuration has the class as its first element;
    otherwise it takes the first such tuple and returns [{}] when its
    provider yields nothing, and the provider's result when it yields one.
    On a table whose [args] have not been assigned yet the lookup throws a
    type error.  Column scope: the same over the column's own list of
    option providers, a missing list counting as an empty one. *)
Theorem options_default_to_empty klass :
  (∀ table w T args,
     tables w !! table = Some T → t_args T = Some args →
     let normalized := normalizePluginsConfig (args_named args ≫= cfg_plugins) in
     (∃ result, options_forTable table klass w = (w, Ok result))
     ∧ (Forall (λ t, is_class klass t.1 = false) normalized →
        options_forTable table klass w = (w, Ok ∅))
     ∧ (∀ pre r fn post,
          normalized = pre ++ (r, fn) :: post →
          Forall (λ t, is_class klass t.1 = false) pre →
          is_class klass r = true →
          options_forTable table klass w
          = (w, Ok match fn with
                   | Some result => result
                   | None => ∅
                   end)))
  ∧ (∀ table w T,
       tables w !! table = Some T → t_args T = None →
       options_forTable table klass w = (w, Throw TypeError))
  ∧ (∀ column,
       Forall (λ t, Nat.eqb (c_id t.1) (c_id klass) = false)
         (default [] (col_pluginOptions column)) →
       options_forColumn column klass = ∅)
  ∧ (∀ column pre c fn post,
       col_pluginOptions column = Some (pre ++ (c, fn) :: post) →
       Forall (λ t, Nat.eqb (c_id t.1) (c_id klass) = false) pre →
       c_id c = c_id klass →
       options_forColumn column klass = match fn with
                                        | Some result => result
                                        | None => ∅
                                        end).
Proof.
  split; [| split; [| split]].
  - intros table w T args HT Ha normalized.
    rewrite (options_forTable_spec _ _ _ _ _ HT Ha).
    split; [eauto |]. split.
    + intros H. unfold options_from. fold normalized.
      by rewrite (find_none_Forall (λ option, is_class klass option.1) _ H).
    + intros pre r fn post Hn Hpre Hr. unfold options_from. fold normalized.
      rewrite Hn.
      rewrite (find_first (λ option, is_class klass option.1) pre (r, fn) post
                 Hpre Hr).
      by destruct fn.
  - intros table w T HT Ha.
    unfold options_forTable, config, read_named, bind, get_table, throw.
    by rewrite HT, Ha.
  - intros column H. unfold options_forColumn.
    destruct (col_pluginOptions column) as [l|]; [| done]. simpl in *.
    by rewrite (find_none_Forall (λ option, Nat.eqb (c_id option.1) (c_id klass)) _ H).
  - intros column pre c fn post Hl Hpre Hc. unfold options_forColumn.
    rewrite Hl. simpl.
    rewrite (find_first (λ option, Nat.eqb (c_id option.1) (c_id klass))
               pre (c, fn) post Hpre); [by destruct fn |].
    simpl. by apply Nat.eqb_eq.
Qed.

Lemma options_default_to_empty_witness :
  let one := JNum (Number_of_Z 1) in
  let entries := [Bare (PClass TwoProviders.B);
                  BasePlugin_with TwoProviders.A (Some {[ "x" := one ]});
                  BasePlugin_with Fixture.WidthPlugin None;
                  BasePlugin_with TwoProviders.A (Some {[ "x" := JNull ]})] in
  let w := NoOwnerTable.world_with entries in
  options_forTable 1 TwoProviders.A w = (w, Ok {[ "x" := one ]})
  ∧ options_forTable 1 TwoProviders.B w = (w, Ok ∅)
  ∧ options_forTable 1 Fixture.WidthPlugin w = (w, Ok ∅)
  ∧ options_forTable 1 StickyColumns w = (w, Ok ∅)
  ∧ options_forTable Unconfigured.table StickyColumns Unconfigured.world
    = (Unconfigured.world, Throw TypeError)
  ∧ options_forColumn TwoProviders.column StickyColumns = ∅
  ∧ options_forColumn Fixture.middle StickyColumns = {[ "sticky" := JStr "left" ]}.
Proof.
  intros one entries w.
  destruct (options_default_to_empty TwoProviders.A) as (HA & _).
  destruct (options_default_to_empty TwoProviders.B) as (HB & _).
  destruct (options_default_to_empty Fixture.WidthPlugin) as (HW & _).
  destruct (options_default_to_empty StickyColumns) as (HS & HU & H4 & H5).
  assert (tables w !! 1 = Some (NoOwnerTable.table_with entries)) as HT
    by (vm_compute; reflexivity).
  split; [| split; [| split; [| split; [| split; [| split]]]]].
  - apply (proj2 (proj2 (HA 1 w _ _ HT eq_refl))
             [(PClass TwoProviders.B, Some ∅)] (PClass TwoProviders.A)
             (Some {[ "x" := one ]})
             [(PClass Fixture.WidthPlugin, None);
              (PClass TwoProviders.A, Some {[ "x" := JNull ]})]);
      [reflexivity | repeat constructor | reflexivity].
  - apply (proj2 (proj2 (HB 1 w _ _ HT eq_refl))
             [] (PClass TwoProviders.B) (Some ∅)
             [(PClass TwoProviders.A, Some {[ "x" := one ]});
              (PClass Fixture.WidthPlugin, None);
              (PClass TwoProviders.A, Some {[ "x" := JNull ]})]);
      [reflexivity | constructor | reflexivity].
  - apply (proj2 (proj2 (HW 1 w _ _ HT eq_refl))
             [(PClass TwoProviders.B, Some ∅);
              (PClass TwoProviders.A, Some {[ "x" := one ]})]
             (PClass Fixture.WidthPlugin) None
             [(PClass TwoProviders.A, Some {[ "x" := JNull ]})]);
      [reflexivity | repeat constructor | reflexivity].
  - apply (proj1 (proj2 (HS 1 w _ _ HT eq_refl))). repeat constructor.
  - apply (HU Unconfigured.table Unconfigured.world Unconfigured.the_table);
      [vm_compute; reflexivity | reflexivity].
  - apply H4. constructor.
  - apply (H5 Fixture.middle [] StickyColumns
             (Some {[ "sticky" := JStr "left" ]}) []);
      [reflexivity | constructor | reflexivity].
Defined.

(** The claim C7 as it stands fails for a table on which [modify] has not
    run: [args] is still [undefined], the getter [config] throws, and so
    does the options lookup, for every plugin class. *)
Lemma options_throw_before_first_modify :
  t_args Unconfigured.the_table = None
  ∧ ∀ klass, options_forTable Unconfigured.table klass Unconfigured.world
             = (Unconfigured.world, Throw TypeError).
Proof. split; [reflexivity |]. intros klass. vm_compute. reflexivity. Qed.

(** * Further properties of the code *)

(** ** The outcomes of a metadata lookup *)

Lemma root_of_kind e w root :
  root_of e w = Some root → kind_ok (store_of e) root = true.
Proof.
  destruct e as [table| |]; simpl; [| by intros [= <-] ..].
  destruct (tables w !! table); simpl; [by intros [= <-] | done].
Qed.

Lemma metaFor_unfold e klass w root :
  root_of e w = Some root →
  metaFor e klass w =
    getPluginInstance (store_of e) root (c_id klass)
      (match e with
       | OfTable table => forTable_factory table klass
       | OfColumn column => forColumn_factory column klass
       | OfRow row => forRow_factory row klass
       end) w.
Proof.
  destruct e as [table|column|row]; simpl; [| by intros [= <-] ..].
  destruct (tables w !! table) as [T|] eqn:HT; simpl; [| done].
  intros [= <-]. unfold meta_forTable.
  by rewrite (bind_Ok _ _ _ _ _ (table_key_lookup _ _ _ HT)).
Qed.

Lemma metaFor_no_table table klass w :
  tables w !! table = None →
  metaFor (OfTable table) klass w = (w, Throw TypeError).
Proof.
  intros H. simpl. unfold meta_forTable, table_key, bind, get_table.
  by rewrite H.
Qed.

(** What the construction closure of a lookup does after [pluginOf]. *)
Lemma factory_after_pluginOf e klass w root :
  root_of e w = Some root →
  cached (store_of e) root (c_id klass) w = None →
  (match e with
   | OfTable table => forTable_factory table klass
   | OfColumn column => forColumn_factory column klass
   | OfRow row => forRow_factory row klass
   end) w =
  match pluginOf (table_of e) klass w with
  | (wp, Throw err) => (wp, Throw err)
  | (wp, Ok None) => (wp, Throw (UnregisteredPlugin (c_name klass)))
  | (wp, Ok (Some plugin)) =>
      match p_meta plugin with
      | None => (wp, Throw (NoMetaSpecified (p_name plugin)))
      | Some meta =>
          match scope_ctor e meta with
          | None => (wp, Throw (NoScopeMeta (store_of e) (p_name plugin)))
          | Some ctor =>
              let m := {| mo_id := next_obj wp; mo_ctor := ctor;
                          mo_entity := ref_of e |} in
              (log (EvNewMeta (store_of e) root (c_id klass) m)
                 (set_next_obj (S (next_obj wp)) wp), Ok m)
          end
      end
  end.
Proof.
  intros Hroot Hmiss.
  pose proof (quiet_pluginOf (table_of e) klass w) as Hq.
  destruct e as [table|column|row]; simpl in *.
  - destruct (tables w !! table) as [T|] eqn:HT; simpl in Hroot; [| done].
    injection Hroot as <-.
    unfold forTable_factory, bind.
    destruct (pluginOf table klass w) as [wp [[plugin|]|err]]; simpl in *; try done.
    destruct (p_meta plugin) as [meta|]; [| done].
    destruct (meta_table meta) as [ctor|]; [| done].
    destruct (qb_tables _ _ _ Hq table T HT) as (T1 & HT1 & Hk1).
    rewrite (table_key_lookup _ _ _ HT1). unfold table_bucket_has.
    rewrite <- (quiet_but_cached _ _ _ _ _ _ Hq) in Hmiss.
    unfold cached in Hmiss. simpl in Hmiss. rewrite Hk1.
    assert ((match TABLE_META wp !! t_key T with
             | Some b => bool_decide (is_Some (b !! c_id klass))
             | None => false
             end) = false) as ->.
    { destruct (TABLE_META wp !! t_key T) as [b|]; [| done]. simpl in Hmiss.
      apply bool_decide_eq_false_2. rewrite Hmiss. by intros [? ?]. }
    reflexivity.
  - injection Hroot as <-. unfold forColumn_factory, bind.
    destruct (pluginOf (col_table column) klass w) as [wp [[plugin|]|err]];
      simpl in *; try done.
    destruct (p_meta plugin) as [meta|]; [| done].
    by destruct (meta_column meta).
  - injection Hroot as <-. unfold forRow_factory, bind.
    destruct (pluginOf (row_table row) klass w) as [wp [[plugin|]|err]];
      simpl in *; try done.
    destruct (p_meta plugin) as [meta|]; [| done].
    by destruct (meta_row meta).
Qed.

(** A lookup that misses, in full: the bucket is put in place, [pluginOf] is
    asked, and then either one of three errors is thrown or a new meta is
    made for the entity and stored. *)
Lemma metaFor_miss e klass w root :
  root_of e w = Some root →
  cached (store_of e) root (c_id klass) w = None →
  ∃ wa, ensure_bucket (store_of e) root w = (wa, Ok tt)
    ∧ (∀ map' rootKey' klass',
         cached map' rootKey' klass' wa = cached map' rootKey' klass' w)
    ∧ tables wa = tables w ∧ trace wa = trace w ∧ next_obj wa = next_obj w
    ∧ metaFor e klass w =
      match pluginOf (table_of e) klass wa with
      | (wp, Throw err) => (wp, Throw err)
      | (wp, Ok None) => (wp, Throw (UnregisteredPlugin (c_name klass)))
      | (wp, Ok (Some plugin)) =>
          match p_meta plugin with
          | None => (wp, Throw (NoMetaSpecified (p_name plugin)))
          | Some meta =>
              match scope_ctor e meta with
              | None => (wp, Throw (NoScopeMeta (store_of e) (p_name plugin)))
              | Some ctor =>
                  let m := {| mo_id := next_obj wp; mo_ctor := ctor;
                              mo_entity := ref_of e |} in
                  (with_new_meta (store_of e) root (c_id klass) m wp, Ok m)
              end
          end
      end.
Proof.
  intros Hroot Hmiss.
  destruct (getPluginInstance_miss (store_of e) root (c_id klass)
              (match e with
               | OfTable table => forTable_factory table klass
               | OfColumn column => forColumn_factory column klass
               | OfRow row => forRow_factory row klass
               end) w (root_of_kind _ _ _ Hroot) Hmiss)
    as (wa & He & Hca & Hta & Htr & Hn & Hg).
  exists wa. repeat (split; [done |]).
  rewrite (metaFor_unfold _ _ _ _ Hroot), Hg.
  assert (root_of e wa = Some root) as Hroot'.
  { destruct e; simpl in *; by rewrite ?Hta. }
  rewrite (factory_after_pluginOf e klass wa root Hroot') by by rewrite Hca.
  destruct (pluginOf (table_of e) klass wa) as [wp [[plugin|]|err]]; try done.
  destruct (p_meta plugin) as [meta|]; [| done].
  by destruct (scope_ctor e meta).
Qed.

Lemma cached_with_new_meta map rootKey klass m w map' rootKey' klass' :
  kind_ok map rootKey = true →
  cached map' rootKey' klass' (with_new_meta map rootKey klass m w) =
    if decide ((map', rootKey', klass') = (map, rootKey, klass)) then Some m
    else cached map' rootKey' klass' w.
Proof.
  intros Hk. unfold with_new_meta. rewrite cached_set by done.
  case_decide; [done |]. unfold cached. by destruct map', rootKey'.
Qed.

(** X1.  A lookup that misses the cache puts the bucket of the entity
    in place and asks the table for its plugins.  When that read throws, the
    lookup throws the same error; when it returns [undefined] (the cell of
    [plugins] holds no list after a failed computation), the lookup throws a
    type error.  Otherwise it ends in exactly one of four ways, decided by
    the first plugin of the list that is an instance of the class: no such
    plugin -- "unregistered plugin"; the plugin has no [meta] -- "no meta
    specified"; its [meta] has no constructor for the scope -- "does not
    specify table/column/row meta"; otherwise a new meta, made by that
    constructor for the entity, is returned and stored.  A lookup that
    throws stores nothing: every entry of the cache, the one asked for
    included, reads as before. *)
Theorem metaFor_outcomes e klass w root wa wp r :
  root_of e w = Some root →
  cached (store_of e) root (c_id klass) w = None →
  ensure_bucket (store_of e) root w = (wa, Ok tt) →
  plugins (table_of e) wa = (wp, r) →
  (∀ map' rootKey' klass',
     cached map' rootKey' klass' wp = cached map' rootKey' klass' w)
  ∧ match r with
    | Throw err => metaFor e klass w = (wp, Throw err)
    | Ok None => metaFor e klass w = (wp, Throw TypeError)
    | Ok (Some ps) =>
        match List.find (λ q, instanceof q klass) ps with
        | None =>
            metaFor e klass w = (wp, Throw (UnregisteredPlugin (c_name klass)))
        | Some plugin =>
            match p_meta plugin with
            | None =>
                metaFor e klass w = (wp, Throw (NoMetaSpecified (p_name plugin)))
            | Some meta =>
                match scope_ctor e meta with
                | None =>
                    metaFor e klass w
                    = (wp, Throw (NoScopeMeta (store_of e) (p_name plugin)))
                | Some ctor =>
                    let m := {| mo_id := next_obj wp; mo_ctor := ctor;
                                mo_entity := ref_of e |} in
                    ∃ w', metaFor e klass w = (w', Ok m)
                      ∧ ∀ map' rootKey' klass',
                          cached map' rootKey' klass' w' =
                            if decide ((map', rootKey', klass')
                                       = (store_of e, root, c_id klass))
                            then Some m else cached map' rootKey' klass' w
                end
            end
        end
    end.
Proof.
  intros Hroot Hmiss He Hp.
  destruct (metaFor_miss e klass w root Hroot Hmiss)
    as (wa' & He' & Hca & _ & _ & _ & ->).
  rewrite He in He'. injection He' as <-.
  pose proof (quiet_plugins (table_of e) wa) as Hq. rewrite Hp in Hq. simpl in Hq.
  assert (∀ map' rootKey' klass',
            cached map' rootKey' klass' wp = cached map' rootKey' klass' w) as Hsame.
  { intros. by rewrite (quiet_but_cached _ _ _ _ _ _ Hq), Hca. }
  split; [exact Hsame |].
  destruct r as [v|err].
  - rewrite (pluginOf_read _ _ _ _ _ Hp). destruct v as [ps|]; [| done].
    destruct (List.find _ ps) as [plugin|]; [| done].
    destruct (p_meta plugin) as [meta|]; [| done].
    destruct (scope_ctor e meta) as [ctor|]; [| done].
    eexists. split; [done |]. intros map' rootKey' klass'.
    rewrite cached_with_new_meta by by eapply root_of_kind.
    by rewrite Hsame.
  - unfold pluginOf. by rewrite (bind_Throw _ _ _ _ _ Hp).
Qed.

Lemma metaFor_outcomes_witness :
  let w := Fixture.world in
  let row := OfRow {| row_id := 300; row_table := Fixture.table |} in
  let wr := (plugins Fixture.table (ensure_bucket ROW_META_map (KObject 300) w).1).1 in
  let wc := (plugins Fixture.table
               (ensure_bucket COLUMN_META_map (KObject 102) w).1).1 in
  let u := Unconfigured.world in
  let wu := (plugins Unconfigured.table
               (ensure_bucket COLUMN_META_map (KObject 100) u).1).1 in
  metaFor row StickyColumns w
    = (wr, Throw (NoScopeMeta ROW_META_map "sticky-columns"))
  ∧ metaFor (OfColumn Fixture.middle) TwoProviders.A w
    = (wc, Throw (UnregisteredPlugin "A"))
  ∧ (∃ w', metaFor (OfColumn Fixture.middle) StickyColumns w
           = (w', Ok {| mo_id := 203; mo_ctor := StickyColumns_ColumnMeta;
                        mo_entity := RColumn 102 |}))
  ∧ metaFor (OfColumn Inheritance.column) StickyColumns u = (wu, Throw TypeError)
  ∧ metaFor (OfColumn Inheritance.column) StickyColumns wu = (wu, Throw TypeError).
Proof.
  intros w row wr wc u wu.
  set (ps := built 7 200 (normalizePluginsConfig (cfg_plugins Fixture.named))).
  split; [| split; [| split; [| split]]].
  - apply (metaFor_outcomes row StickyColumns w (KObject 300)
             (ensure_bucket ROW_META_map (KObject 300) w).1 wr (Ok (Some ps)));
      [reflexivity | vm_compute; reflexivity | vm_compute; reflexivity
      | vm_compute; reflexivity].
  - apply (metaFor_outcomes (OfColumn Fixture.middle) TwoProviders.A w (KObject 102)
             (ensure_bucket COLUMN_META_map (KObject 102) w).1 wc (Ok (Some ps)));
      [reflexivity | vm_compute; reflexivity | vm_compute; reflexivity
      | vm_compute; reflexivity].
  - destruct (metaFor_outcomes (OfColumn Fixture.middle) StickyColumns w (KObject 102)
                (ensure_bucket COLUMN_META_map (KObject 102) w).1 wc (Ok (Some ps)))
      as (_ & w' & H & _);
      [reflexivity | vm_compute; reflexivity | vm_compute; reflexivity
      | vm_compute; reflexivity |].
    exists w'. exact H.
  - apply (metaFor_outcomes (OfColumn Inheritance.column) StickyColumns u (KObject 100)
             (ensure_bucket COLUMN_META_map (KObject 100) u).1 wu (Throw TypeError));
      [reflexivity | vm_compute; reflexivity | vm_compute; reflexivity
      | vm_compute; reflexivity].
  - apply (metaFor_outcomes (OfColumn Inheritance.column) StickyColumns wu
             (KObject 100) wu wu (Ok None));
      [reflexivity | vm_compute; reflexivity | vm_compute; reflexivity
      | vm_compute; reflexivity].
Defined.

(** ** The errors of a lookup *)

Lemma mapM_instantiate_error table l : ∀ w w' err,
  mapM (instantiate table) l w = (w', Throw err) →
  err = TypeError ∨ err = NoOwner.
Proof.
  induction l as [|x xs IH]; intros w w' err; simpl; [done |].
  intros H. apply bind_inv in H as [(w1 & p & Hp & H)|(e & Hp & [= <-])].
  - apply bind_inv in H as [(w2 & ps & Hps & H)|(e & Hps & [= <-])]; [done |].
    by eapply IH.
  - revert Hp. unfold instantiate. destruct (x.1); [| done].
    unfold bind, fresh, emit, get_table, ret, throw. simpl.
    destruct (tables w !! table) as [T|]; [| intros [= _ <-]; auto].
    destruct (t_owner T); [done | intros [= _ <-]; auto].
Qed.

Lemma compute_plugins_error table w w' err :
  compute_plugins table w = (w', Throw err) →
  err = TypeError ∨ err = NoOwner
  ∨ ∃ feature name, err = UnsatisfiedRequirement feature name.
Proof.
  unfold compute_plugins. intros Hc.
  apply bind_inv in Hc as [(w1 & named & _ & Hc)|(e' & HT & [= <-])]; cycle 1.
  { left. revert HT. unfold read_named, bind, get_table.
    destruct (tables w !! table) as [T|]; [| by intros [= _ <-]].
    destruct (t_args T); [done | by intros [= _ <-]]. }
  apply bind_inv in Hc as [(w2 & [] & _ & Hc)|(e' & Hv & [= <-])].
  - apply mapM_instantiate_error in Hc as [-> | ->]; auto.
  - right. right. revert Hv. unfold verifyPlugins.
    destruct (verify_from _ _) as [e0|] eqn:Ev; [| done].
    intros [= _ <-]. clear -Ev.
    revert Ev. generalize (@nil (PluginRef * Provider)).
    generalize (normalizePluginsConfig (named ≫= cfg_plugins)).
    induction l as [|[r fn] rest IH]; intros before; simpl; [done |].
    destruct (List.find _ _) as [f|]; [intros [= <-]; eauto | apply IH].
Qed.

Lemma plugins_error table w w' err :
  plugins table w = (w', Throw err) →
  err = TypeError ∨ err = NoOwner
  ∨ ∃ feature name, err = UnsatisfiedRequirement feature name.
Proof.
  intros H. destruct (tables w !! table) as [T|] eqn:HT; cycle 1.
  { rewrite plugins_no_table in H by done. injection H as _ <-. auto. }
  destruct (memo_cases T) as [[last Hm]|Hstale].
  { by rewrite (plugins_cached _ _ _ _ HT Hm) in H. }
  rewrite (plugins_stale _ _ _ HT Hstale) in H.
  destruct (recompute_plugins_spec table w T (last_plugins T) HT)
    as (wc & r & Hc & _ & Hr).
  rewrite Hr in H. destruct r as [ps|e]; [done |]. injection H as _ <-.
  by eapply compute_plugins_error.
Qed.

Lemma metaFor_error_kinds e klass w w' err :
  metaFor e klass w = (w', Throw err) → lookup_error klass err.
Proof.
  intros H. unfold lookup_error.
  destruct (root_of e w) as [root|] eqn:Hroot; cycle 1.
  { destruct e as [table| |]; simpl in Hroot; try done.
    destruct (tables w !! table) eqn:HT; [done |].
    rewrite metaFor_no_table in H by done. injection H as _ <-. auto. }
  destruct (cached (store_of e) root (c_id klass) w) as [m|] eqn:Hc.
  { rewrite (metaFor_hit e klass w m) in H; [done |].
    unfold cached_for. by rewrite Hroot. }
  destruct (metaFor_miss e klass w root Hroot Hc) as (wa & _ & _ & _ & _ & _ & Hm).
  rewrite Hm in H.
  destruct (plugins (table_of e) wa) as [wp [v|e0]] eqn:Hp.
  - rewrite (pluginOf_read _ _ _ _ _ Hp) in H.
    destruct v as [ps|]; [| injection H as _ <-; auto].
    destruct (List.find _ ps) as [plugin|]; [| injection H as _ <-; auto 10].
    destruct (p_meta plugin) as [meta|]; [| injection H as _ <-; eauto 10].
    destruct (scope_ctor e meta); [done | injection H as _ <-; eauto 10].
  - unfold pluginOf in H. rewrite (bind_Throw _ _ _ _ _ Hp) in H.
    injection H as _ <-.
    apply plugins_error in Hp as [-> | [-> | (f & n & ->)]]; eauto 10.
Qed.

(** X2.  A metadata lookup throws nothing but: a type error (the table
    reference is dangling, or the plugin list is read before the first
    [modify] or after a failed computation), the errors of building the
    plugin list (no owner, unsatisfied requirement), "unregistered plugin" for the class
    asked for, "no meta specified", or "no meta for the scope".  In
    particular [meta.forTable] never throws "plugin already exists for the
    table", and no lookup throws a key-kind assertion.  A lookup that throws
    has constructed no meta and leaves every entry of the cache as it was. *)
Theorem metaFor_throws_only e klass w w' err :
  metaFor e klass w = (w', Throw err) →
  lookup_error klass err
  ∧ (∀ map rootKey klass',
       cached map rootKey klass' w' = cached map rootKey klass' w)
  ∧ constructions (trace w') = constructions (trace w).
Proof.
  intros H. split; [by eapply metaFor_error_kinds |].
  destruct (root_of e w) as [root|] eqn:Hroot; cycle 1.
  { destruct e as [table| |]; simpl in Hroot; try done.
    destruct (tables w !! table) eqn:HT; [done |].
    rewrite metaFor_no_table in H by done. by injection H as <- _. }
  destruct (cached (store_of e) root (c_id klass) w) as [m|] eqn:Hc.
  { rewrite (metaFor_hit e klass w m) in H; [done |].
    unfold cached_for. by rewrite Hroot. }
  destruct (metaFor_miss e klass w root Hroot Hc)
    as (wa & _ & Hca & _ & Htr & _ & Hm).
  rewrite Hm in H.
  pose proof (quiet_pluginOf (table_of e) klass wa) as Hq.
  assert (w' = (pluginOf (table_of e) klass wa).1) as ->.
  { destruct (pluginOf (table_of e) klass wa) as [wp [[plugin|]|e0]]; simpl;
      try (by injection H as <- _).
    destruct (p_meta plugin) as [meta|]; [| by injection H as <- _].
    destruct (scope_ctor e meta); [done | by injection H as <- _]. }
  split.
  - intros. by rewrite (quiet_but_cached _ _ _ _ _ _ Hq), Hca.
  - by rewrite (qb_trace _ _ _ Hq), app_nil_r, Htr.
Qed.

Lemma metaFor_throws_only_witness :
  let w := Fixture.world in
  let w' := (metaFor (OfRow {| row_id := 300; row_table := Fixture.table |})
               StickyColumns Fixture.world).1 in
  lookup_error StickyColumns (NoScopeMeta ROW_META_map "sticky-columns")
  ∧ (∀ map rootKey klass',
       cached map rootKey klass' w' = cached map rootKey klass' w)
  ∧ constructions (trace w') = constructions (trace w).
Proof.
  intros w w'.
  apply (metaFor_throws_only
           (OfRow {| row_id := 300; row_table := Fixture.table |})
           StickyColumns w w').
  vm_compute. reflexivity.
Defined.

(** ** C3: a second table meta *)

Lemma forTable_factory_with_entry table klass w T m :
  tables w !! table = Some T →
  cached TABLE_META_map (KString (t_key T)) (c_id klass) w = Some m →
  ∃ w' e, forTable_factory table klass w = (w', Throw e)
    ∧ quiet w w'
    ∧ cached TABLE_META_map (KString (t_key T)) (c_id klass) w' = Some m
    ∧ ∀ w1 plugin meta ctor,
        pluginOf table klass w = (w1, Ok (Some plugin)) →
        p_meta plugin = Some meta → meta_table meta = Some ctor →
        w' = w1 ∧ e = PluginAlreadyExists (p_name plugin).
Proof.
  intros HT Hc.
  pose proof (forTable_factory_ok table klass (t_key T) w
                (ex_intro _ T (conj HT eq_refl))) as Hok.
  unfold factory_ok_at in Hok.
  pose proof (quiet_pluginOf table klass w) as Hq.
  unfold forTable_factory, bind in *.
  destruct (pluginOf table klass w) as [w1 [[plugin|]|e]] eqn:Ep; simpl in *.
  2:{ eexists _, _. split; [done |]. split; [done |].
      split; [by rewrite (quiet_but_cached _ _ _ _ _ _ Hq) |]. intros; congruence. }
  2:{ eexists _, _. split; [done |]. split; [done |].
      split; [by rewrite (quiet_but_cached _ _ _ _ _ _ Hq) |]. intros; congruence. }
  destruct (p_meta plugin) as [meta|] eqn:Em; simpl in *.
  2:{ eexists _, _. split; [done |]. split; [done |].
      split; [by rewrite (quiet_but_cached _ _ _ _ _ _ Hq) |]. intros; congruence. }
  destruct (meta_table meta) as [ctor|] eqn:Ec; simpl in *.
  2:{ eexists _, _. split; [done |]. split; [done |].
      split; [by rewrite (quiet_but_cached _ _ _ _ _ _ Hq) |]. intros; congruence. }
  destruct (qb_tables _ _ _ Hq table T HT) as (T1 & HT1 & Hk1).
  rewrite (table_key_lookup _ _ _ HT1) in *. unfold table_bucket_has in *.
  assert (cached TABLE_META_map (KString (t_key T)) (c_id klass) w1 = Some m)
    as Hc1 by by rewrite (quiet_but_cached _ _ _ _ _ _ Hq).
  unfold cached in Hc1. simpl in Hc1. rewrite Hk1.
  destruct (TABLE_META w1 !! t_key T) as [b|]; [| done]. simpl in Hc1.
  rewrite bool_decide_eq_true_2 by (by rewrite Hc1). simpl.
  eexists _, _. split; [done |]. split; [done |].
  split; [by rewrite (quiet_but_cached _ _ _ _ _ _ Hq) |].
  intros w1' plugin' meta' ctor' [= -> ->] _ _. done.
Qed.

(** C3 (as amended).  The table store holds at most one meta for a table
    and the plugin class that is asked for.  (1) While the store holds a
    meta under the table's key and class [klass], [meta.forTable] returns
    that meta and changes nothing: the construction closure is not run.
    (2) So no call of [meta.forTable], in any state, ends in the error that
    says the plugin already exists for the table.  (3) The closure itself,
    were it run while the entry is there, throws, constructs nothing and
    leaves the three stores as they are, so the meta is not overwritten;
    when the plugin is registered and declares a table meta, the error is
    the one that says the plugin already exists.  (4) In any run that starts
    before any meta was made, a table meta is constructed at most once for a
    table key and a class asked for.  What does not hold is "at most once
    per table and table-meta constructor": the store is keyed by the class
    asked for, and a plugin is found by [instanceof]. *)
Theorem table_meta_once_per_class :
  (∀ table klass w T m,
     tables w !! table = Some T →
     cached TABLE_META_map (KString (t_key T)) (c_id klass) w = Some m →
     meta_forTable table klass w = (w, Ok m))
  ∧ (∀ table klass w w' name,
       meta_forTable table klass w ≠ (w', Throw (PluginAlreadyExists name)))
  ∧ (∀ table klass w T m,
       tables w !! table = Some T →
       cached TABLE_META_map (KString (t_key T)) (c_id klass) w = Some m →
       ∃ w' e, forTable_factory table klass w = (w', Throw e)
         ∧ quiet w w'
         ∧ cached TABLE_META_map (KString (t_key T)) (c_id klass) w' = Some m
         ∧ ∀ w1 plugin meta ctor,
             pluginOf table klass w = (w1, Ok (Some plugin)) →
             p_meta plugin = Some meta → meta_table meta = Some ctor →
             w' = w1 ∧ e = PluginAlreadyExists (p_name plugin))
  ∧ (∀ calls w0 table T klass,
       trace w0 = [] → tables w0 !! table = Some T →
       (times_constructed TABLE_META_map (KString (t_key T)) (c_id klass)
          (trace (run calls w0)) ≤ 1)%nat).
Proof.
  split; [| split; [| split]].
  - intros table klass w T m HT Hc.
    apply (metaFor_hit (OfTable table) klass w m).
    unfold cached_for, root_of. by rewrite HT.
  - intros table klass w w' name H.
    apply (metaFor_error_kinds (OfTable table)) in H.
    by destruct H as [?|[?|[(?&?&?)|[?|[(?&?)|(?&?&?)]]]]].
  - apply forTable_factory_with_entry.
  - intros calls w0 table T klass H0 _. by apply run_at_most_once.
Qed.

Lemma table_meta_once_per_class_witness :
  let w1 := (meta_forTable Fixture.table StickyColumns Fixture.world).1 in
  let T1 := default Fixture.the_table (tables w1 !! Fixture.table) in
  let m := {| mo_id := 203; mo_ctor := StickyColumns_TableMeta;
              mo_entity := RTable Fixture.table |} in
  meta_forTable Fixture.table StickyColumns w1 = (w1, Ok m)
  ∧ (∃ w' e, forTable_factory Fixture.table StickyColumns w1 = (w', Throw e)
       ∧ quiet w1 w'
       ∧ cached TABLE_META_map (KString (t_key T1)) (c_id StickyColumns) w' = Some m
       ∧ ∀ w2 plugin meta ctor,
           pluginOf Fixture.table StickyColumns w1 = (w2, Ok (Some plugin)) →
           p_meta plugin = Some meta → meta_table meta = Some ctor →
           w' = w2 ∧ e = PluginAlreadyExists (p_name plugin))
  ∧ (times_constructed TABLE_META_map (KString (t_key Fixture.the_table))
       (c_id StickyColumns)
       (trace (run [CallMetaFor (OfTable Fixture.table) StickyColumns;
                    CallMetaFor (OfTable Fixture.table) StickyColumns]
                 Fixture.world)) ≤ 1)%nat.
Proof.
  intros w1 T1 m. destruct table_meta_once_per_class as (H1 & _ & H3 & H4).
  split; [| split].
  - apply (H1 Fixture.table StickyColumns w1 T1 m).
    + vm_compute. reflexivity.
    + vm_compute. reflexivity.
  - apply (H3 Fixture.table StickyColumns w1 T1 m).
    + vm_compute. reflexivity.
    + vm_compute. reflexivity.
  - apply (H4 _ Fixture.world Fixture.table Fixture.the_table).
    + reflexivity.
    + vm_compute. reflexivity.
Defined.

(** The claim C3 as it stands fails: a second construction for a plugin
    is no error.  With the single plugin [Sub], a subclass of
    [Base], the lookups [meta.forTable(table, Base)] and
    [meta.forTable(table, Sub)] both succeed, and each constructs a table
    meta with the table-meta constructor 76 of [Sub] -- two distinct meta
    objects of one plugin for one table, stored under the two classes.  So
    the table-meta constructor of a plugin does run twice for the same
    table, and nothing throws. *)
Lemma table_meta_constructor_runs_twice :
  let w := Inheritance.world_with [Bare (PClass Inheritance.Sub)] in
  let m1 := {| mo_id := 201; mo_ctor := 76; mo_entity := RTable Inheritance.table |} in
  let m2 := {| mo_id := 202; mo_ctor := 76; mo_entity := RTable Inheritance.table |} in
  let w1 := (meta_forTable Inheritance.table Inheritance.Base w).1 in
  let w2 := (meta_forTable Inheritance.table Inheritance.Sub w1).1 in
  (plugins Inheritance.table w).2
  = Ok (Some [Inheritance.instance Inheritance.Sub 200])
  ∧ (meta_forTable Inheritance.table Inheritance.Base w).2 = Ok m1
  ∧ (meta_forTable Inheritance.table Inheritance.Sub w1).2 = Ok m2
  ∧ m1 ≠ m2
  ∧ cached TABLE_META_map (KString (guidFor Inheritance.table))
      (c_id Inheritance.Base) w2 = Some m1
  ∧ cached TABLE_META_map (KString (guidFor Inheritance.table))
      (c_id Inheritance.Sub) w2 = Some m2
  ∧ constructions (trace w2)
    = [(TABLE_META_map, KString (guidFor Inheritance.table), c_id Inheritance.Base);
       (TABLE_META_map, KString (guidFor Inheritance.table), c_id Inheritance.Sub)].
Proof. repeat split; try (vm_compute; reflexivity). intros [=]. Qed.

(** ** Metas are distinct objects, made for the entity they are stored under *)

#[global] Instance older_preorder : PreOrder older.
Proof. split; unfold older; [intros w; lia | intros w1 w2 w3; lia]. Qed.

#[global] Instance sound_step_preorder : PreOrder sound_step.
Proof.
  split.
  - intros w. split; [reflexivity | done].
  - intros w1 w2 w3 [H1 H2] [G1 G2]. split; [by etrans | auto].
Qed.

Lemma older_get_table t : keeps older (get_table t).
Proof. intros w. unfold get_table. destruct (tables w !! t); reflexivity. Qed.

Lemma older_put_table t T : keeps older (put_table t T).
Proof. intros w. unfold older. simpl. lia. Qed.

Lemma older_fresh : keeps older fresh.
Proof. intros w. unfold older. simpl. lia. Qed.

Lemma older_emit ev : keeps older (emit ev).
Proof. intros w. unfold older. simpl. lia. Qed.

Lemma older_read_named t : keeps older (read_named t).
Proof.
  unfold read_named.
  apply keeps_bind; [apply _ | apply older_get_table | intros T0].
  destruct (t_args T0); [apply keeps_ret | apply keeps_throw]; apply _.
Qed.

Lemma older_compute_plugins t : keeps older (compute_plugins t).
Proof.
  unfold compute_plugins.
  apply keeps_bind; [apply _ | apply older_read_named | intros named].
  apply keeps_bind; [apply _ | | intros _].
  { intros w. unfold verifyPlugins. destruct (verify_from _ _); reflexivity. }
  apply keeps_mapM; [apply _ | intros x]. unfold instantiate.
  destruct (x.1); [| apply keeps_ret; apply _].
  apply keeps_bind; [apply _ | apply older_fresh | intros obj].
  apply keeps_bind; [apply _ | apply older_emit | intros _].
  apply keeps_bind; [apply _ | apply older_get_table | intros T1].
  destruct (t_owner T1); [apply keeps_ret | apply keeps_throw]; apply _.
Qed.

Lemma older_plugins t : keeps older (plugins t).
Proof.
  apply keeps_plugins; [apply _ | apply older_compute_plugins |].
  intros cell w. unfold store_plugins_cache, older.
  destruct (tables w !! t); simpl; lia.
Qed.

Lemma older_pluginOf t klass : keeps older (pluginOf t klass).
Proof. apply keeps_pluginOf; [apply _ | apply older_plugins]. Qed.

Lemma older_modify t named : keeps older (modify t named).
Proof.
  unfold modify. apply keeps_bind; [apply _ | apply older_get_table | intros T].
  destruct (t_preferences _); apply older_put_table.
Qed.

Lemma older_update_storage t f : keeps older (update_storage t f).
Proof.
  unfold update_storage.
  apply keeps_bind; [apply _ | apply older_get_table | intros T].
  destruct (t_preferences T); [apply older_put_table | apply keeps_throw; apply _].
Qed.

Lemma older_get_preferences t : keeps older (get_preferences t).
Proof.
  unfold get_preferences.
  apply keeps_bind; [apply _ | apply older_get_table | intros T].
  destruct (t_preferences T); [apply keeps_ret | apply keeps_throw]; apply _.
Qed.

Lemma older_persist t : keeps older (persist t).
Proof.
  unfold persist.
  apply keeps_bind; [apply _ | apply older_get_preferences | intros prefs].
  apply older_emit.
Qed.

Lemma older_pref_get e klass key : keeps older (pref_get e klass key).
Proof.
  destruct e; simpl; unfold preferences.forTable_get, preferences.forColumn_get;
    (apply keeps_bind; [apply _ | apply older_get_preferences
                       | intros; apply keeps_ret; apply _]).
Qed.

Lemma older_pref_set e klass key value : keeps older (pref_set e klass key value).
Proof.
  rewrite pref_set_unfold.
  apply keeps_bind; [apply _ | apply older_update_storage | intros; apply older_persist].
Qed.

Lemma older_pref_delete e klass key : keeps older (pref_delete e klass key).
Proof.
  rewrite pref_delete_unfold.
  apply keeps_bind; [apply _ | apply older_update_storage | intros; apply older_persist].
Qed.

Lemma older_options_forTable t klass : keeps older (options_forTable t klass).
Proof.
  unfold options_forTable, config.
  apply keeps_bind; [apply _ | apply older_read_named | intros; apply keeps_ret; apply _].
Qed.

(** A step that leaves the stores alone and does not take the counter
    back keeps the metas sound. *)
Lemma quiet_sound_step w w' : quiet w w' → older w w' → sound_step w w'.
Proof.
  intros Hq Ho. split; [done |]. unfold older in Ho.
  intros (H1 & H2 & H3 & H4).
  repeat split.
  - intros map rootKey klass m. rewrite (quiet_but_cached _ _ _ _ _ _ Hq).
    intros Hm. specialize (H1 _ _ _ _ Hm). lia.
  - intros ??????? Ha Hb. rewrite (quiet_but_cached _ _ _ _ _ _ Hq) in Ha.
    rewrite (quiet_but_cached _ _ _ _ _ _ Hq) in Hb. eauto.
  - intros o klass m. rewrite (quiet_but_cached _ _ _ _ _ _ Hq). apply H3.
  - intros o klass m. rewrite (quiet_but_cached _ _ _ _ _ _ Hq). apply H4.
Qed.

Lemma sound_with_new_meta e klass ctor root w0 w :
  root_of e w0 = Some root →
  (∀ map' rootKey' klass',
     cached map' rootKey' klass' w = cached map' rootKey' klass' w0) →
  cached (store_of e) root (c_id klass) w0 = None →
  next_obj w0 ≤ next_obj w →
  metas_sound w0 →
  metas_sound
    (with_new_meta (store_of e) root (c_id klass)
       {| mo_id := next_obj w; mo_ctor := ctor; mo_entity := ref_of e |} w).
Proof.
  intros Hroot Hsame Hmiss Hle (H1 & H2 & H3 & H4).
  pose proof (root_of_kind _ _ _ Hroot) as Hk.
  assert (next_obj (with_new_meta (store_of e) root (c_id klass)
            {| mo_id := next_obj w; mo_ctor := ctor; mo_entity := ref_of e |} w)
          = S (next_obj w)) as Hn.
  { unfold with_new_meta. by rewrite map_set_next_obj. }
  repeat split.
  - intros map' rootKey' klass' m. rewrite cached_with_new_meta, Hn by done.
    case_decide.
    + intros [= <-]. simpl. lia.
    + rewrite Hsame. intros Hm. specialize (H1 _ _ _ _ Hm). lia.
  - intros map1 r1 k1 map2 r2 k2 m.
    rewrite !cached_with_new_meta by done.
    case_decide as Ha; case_decide as Hb; rewrite ?Hsame.
    + congruence.
    + intros [= <-] Hm. specialize (H1 _ _ _ _ Hm). simpl in H1. lia.
    + intros Hm [= <-]. specialize (H1 _ _ _ _ Hm). simpl in H1. lia.
    + apply H2.
  - intros o klass' m. rewrite cached_with_new_meta by done. case_decide as Ha.
    + intros [= <-]. simpl. destruct e; by simplify_eq/=.
    + rewrite Hsame. apply H3.
  - intros o klass' m. rewrite cached_with_new_meta by done. case_decide as Ha.
    + intros [= <-]. simpl. destruct e; by simplify_eq/=.
    + rewrite Hsame. apply H4.
Qed.

Lemma sound_step_metaFor e klass : keeps sound_step (metaFor e klass).
Proof.
  intros w.
  destruct (root_of e w) as [root|] eqn:Hroot; cycle 1.
  { destruct e as [table| |]; simpl in Hroot; try done.
    destruct (tables w !! table) eqn:HT; [done |].
    rewrite metaFor_no_table by done. reflexivity. }
  destruct (cached (store_of e) root (c_id klass) w) as [m|] eqn:Hc.
  { rewrite (metaFor_hit e klass w m); [reflexivity |].
    unfold cached_for. by rewrite Hroot. }
  destruct (metaFor_miss e klass w root Hroot Hc)
    as (wa & _ & Hca & Hta & Htr & Hn & ->).
  pose proof (quiet_pluginOf (table_of e) klass wa) as Hq.
  pose proof (older_pluginOf (table_of e) klass wa) as Ho.
  assert (∀ map' rootKey' klass',
            cached map' rootKey' klass' (pluginOf (table_of e) klass wa).1
            = cached map' rootKey' klass' w) as Hsame.
  { intros. by rewrite (quiet_but_cached _ _ _ _ _ _ Hq), Hca. }
  assert (sound_step w (pluginOf (table_of e) klass wa).1) as Hfail.
  { unfold older in Ho. rewrite Hn in Ho. split; [done |].
    intros (H1 & H2 & H3 & H4). repeat split.
    - intros map rootKey klass' m. rewrite Hsame. intros Hm.
      specialize (H1 _ _ _ _ Hm). lia.
    - intros ??????? Ha Hb. rewrite Hsame in Ha. rewrite Hsame in Hb. eauto.
    - intros o klass' m. rewrite Hsame. apply H3.
    - intros o klass' m. rewrite Hsame. apply H4. }
  destruct (pluginOf (table_of e) klass wa) as [wp [[plugin|]|err]];
    simpl in *; try done.
  destruct (p_meta plugin) as [meta|]; [| done].
  destruct (scope_ctor e meta) as [ctor|]; [| done].
  simpl. unfold older in Ho. rewrite Hn in Ho. split.
  - unfold older, with_new_meta. rewrite map_set_next_obj. simpl. lia.
  - intros Hs. by apply (sound_with_new_meta e klass ctor root w wp).
Qed.

Lemma sound_step_quiet {A} (m : M A) :
  keeps quiet m → keeps older m → keeps sound_step m.
Proof. intros Hq Ho w. apply quiet_sound_step; [apply Hq | apply Ho]. Qed.

Lemma sound_step_exec c w : sound_step w (exec c w).
Proof.
  destruct c; simpl.
  - apply sound_step_metaFor.
  - apply keeps_withFeature_forTable; [apply _ | |].
    + apply sound_step_quiet; [apply quiet_plugins | apply older_plugins].
    + intros klass. apply (sound_step_metaFor (OfTable table)).
  - apply keeps_withFeature_forColumn; [apply _ | |].
    + apply sound_step_quiet; [apply quiet_plugins | apply older_plugins].
    + intros klass. apply (sound_step_metaFor (OfColumn column)).
  - apply sound_step_quiet; [apply quiet_plugins | apply older_plugins].
  - apply sound_step_quiet; [apply quiet_pluginOf | apply older_pluginOf].
  - apply sound_step_quiet; [apply quiet_modify | apply older_modify].
  - apply sound_step_quiet; [apply quiet_options_forTable | apply older_options_forTable].
  - apply sound_step_quiet; [apply quiet_pref_get | apply older_pref_get].
  - apply sound_step_quiet; [apply quiet_pref_set | apply older_pref_set].
  - apply sound_step_quiet; [apply quiet_pref_delete | apply older_pref_delete].
Qed.

Lemma sound_step_run calls w : sound_step w (run calls w).
Proof.
  revert w. induction calls as [|c calls IH]; intros w; simpl.
  - reflexivity.
  - etrans; [apply (sound_step_exec c) | apply IH].
Qed.

Lemma metas_sound_empty w :
  TABLE_META w = ∅ → COLUMN_META w = ∅ → ROW_META w = ∅ → metas_sound w.
Proof.
  intros Ht Hc Hr.
  assert (∀ map rootKey klass, cached map rootKey klass w = None) as Hnone.
  { intros map rootKey klass. unfold cached.
    destruct map, rootKey; simpl; by rewrite ?Ht, ?Hc, ?Hr, ?lookup_empty. }
  repeat split; intros; by rewrite Hnone in *.
Qed.

(** X3.  The metas of the cache stay sound.  A world whose three
    stores are empty is sound, and every sequence of calls takes a sound
    world to a sound world: each cached meta is an allocated object, no meta
    object sits under two (store, root key, class) places, and a meta in the
    column (row) store was constructed for the column (row) it is stored
    under.  The allocation counter never goes back. *)
Theorem metas_stay_sound calls w :
  (TABLE_META w = ∅ → COLUMN_META w = ∅ → ROW_META w = ∅ → metas_sound w)
  ∧ (metas_sound w → metas_sound (run calls w))
  ∧ next_obj w ≤ next_obj (run calls w).
Proof.
  split; [| split].
  - apply metas_sound_empty.
  - apply sound_step_run.
  - apply sound_step_run.
Qed.

Lemma metas_stay_sound_witness :
  let calls := [CallMetaFor (OfColumn Fixture.first) StickyColumns;
                CallWithFeatureColumn Fixture.middle "columnWidth";
                CallModify Fixture.table (Some Fixture.named);
                CallMetaFor (OfColumn Fixture.middle) StickyColumns] in
  metas_sound (run calls Fixture.world).
Proof.
  intros calls.
  destruct (metas_stay_sound calls Fixture.world) as (H0 & H1 & _).
  apply H1, H0; reflexivity.
Defined.

(** X4.  Per-entity isolation.  In a sound world, let a lookup return
    [m1] and, after any further calls, a lookup return [m2].  If the two are
    the same object, then both lookups were for the same store, the same
    root key and the same class.  So the metas of two distinct columns (or
    rows), and the metas of two plugin classes for one entity, are distinct
    objects, and the meta returned for a column was constructed for that
    column. *)
Theorem metas_are_per_entity e1 klass1 e2 klass2 calls w w1 w2 m1 m2 :
  metas_sound w →
  metaFor e1 klass1 w = (w1, Ok m1) →
  metaFor e2 klass2 (run calls w1) = (w2, Ok m2) →
  (m1 = m2 →
     store_of e1 = store_of e2 ∧ root_of e1 w2 = root_of e2 w2
     ∧ c_id klass1 = c_id klass2)
  ∧ (∀ column, e2 = OfColumn column → mo_entity m2 = RColumn (col_id column))
  ∧ (∀ row, e2 = OfRow row → mo_entity m2 = RRow (row_id row)).
Proof.
  intros Hs H1 H2.
  pose proof (sound_step_metaFor e1 klass1 w) as [_ Hs1]. rewrite H1 in Hs1.
  pose proof (sound_step_run calls w1) as [_ Hsr].
  pose proof (sound_step_metaFor e2 klass2 (run calls w1)) as [_ Hs2].
  rewrite H2 in Hs2. simpl in *.
  pose proof (Hs2 (Hsr (Hs1 Hs))) as (_ & Hinj & Hcol & Hrow).
  pose proof (metaFor_Ok_cached _ _ _ _ _ H2) as Hc2.
  assert (cached_for e1 klass1 w2 = Some m1) as Hc1.
  { eapply cached_for_grows.
    - etrans; [apply grows_run |].
      pose proof (grows_metaFor e2 klass2 (run calls w1)) as Hg.
      rewrite H2 in Hg. exact Hg.
    - by eapply metaFor_Ok_cached. }
  unfold cached_for in *.
  destruct (root_of e1 w2) as [r1|] eqn:Hr1; [| done].
  destruct (root_of e2 w2) as [r2|] eqn:Hr2; [| done].
  simpl in *. split; [| split].
  - intros <-. by injection (Hinj _ _ _ _ _ _ _ Hc1 Hc2) as -> -> ->.
  - intros column ->. simpl in *. injection Hr2 as <-. by eapply Hcol.
  - intros row ->. simpl in *. injection Hr2 as <-. by eapply Hrow.
Qed.

Lemma metas_are_per_entity_witness :
  let w := Fixture.world in
  let w1 := (metaFor (OfColumn Fixture.first) StickyColumns w).1 in
  let m1 := {| mo_id := 203; mo_ctor := StickyColumns_ColumnMeta;
               mo_entity := RColumn 101 |} in
  let m2 := {| mo_id := 204; mo_ctor := StickyColumns_ColumnMeta;
               mo_entity := RColumn 102 |} in
  let w2 := (metaFor (OfColumn Fixture.middle) StickyColumns w1).1 in
  (m1 = m2 →
     store_of (OfColumn Fixture.first) = store_of (OfColumn Fixture.middle)
     ∧ root_of (OfColumn Fixture.first) w2 = root_of (OfColumn Fixture.middle) w2
     ∧ c_id StickyColumns = c_id StickyColumns)
  ∧ (∀ column, OfColumn Fixture.middle = OfColumn column →
       mo_entity m2 = RColumn (col_id column))
  ∧ (∀ row, OfColumn Fixture.middle = OfRow row → mo_entity m2 = RRow (row_id row)).
Proof.
  intros w w1 m1 m2 w2.
  apply (metas_are_per_entity (OfColumn Fixture.first) StickyColumns
           (OfColumn Fixture.middle) StickyColumns [] w w1 w2 m1 m2).
  - apply metas_sound_empty; reflexivity.
  - vm_compute. reflexivity.
  - vm_compute. reflexivity.
Defined.

(** ** The plugin list is memoised until the table is modified *)

#[global] Instance memo_kept_preorder table : PreOrder (memo_kept table).
Proof.
  split; [intros w ps H; exact H | intros w1 w2 w3 H1 H2 ps H; apply H2, H1, H].
Qed.

Lemma memo_kept_lookup table w w' :
  tables w' !! table = tables w !! table → memo_kept table w w'.
Proof. intros H ps (T & HT & Hc). exists T. by rewrite H. Qed.

Lemma memo_kept_same_tables {A} table (m : M A) :
  keeps same_tables m → keeps (memo_kept table) m.
Proof. intros H w. apply memo_kept_lookup. by rewrite (H w). Qed.

Lemma memo_kept_plugins table t0 : keeps (memo_kept table) (plugins t0).
Proof.
  destruct (decide (t0 = table)) as [->|Hne].
  - intros w last (T & HT & Hc). rewrite (plugins_cached _ _ _ _ HT Hc). by exists T.
  - apply keeps_plugins; [apply _ | |].
    + apply memo_kept_same_tables, same_tables_compute_plugins.
    + intros cell w. apply memo_kept_lookup. unfold store_plugins_cache.
      destruct (tables w !! t0); [| done]. simpl. by rewrite lookup_insert_ne.
Qed.

Lemma memo_kept_pluginOf table t0 klass : keeps (memo_kept table) (pluginOf t0 klass).
Proof. apply keeps_pluginOf; [apply _ | apply memo_kept_plugins]. Qed.

Lemma memo_kept_metaFor table e klass : keeps (memo_kept table) (metaFor e klass).
Proof.
  intros w.
  destruct (root_of e w) as [root|] eqn:Hroot; cycle 1.
  { destruct e as [t| |]; simpl in Hroot; try done.
    destruct (tables w !! t) eqn:HT; [done |].
    rewrite metaFor_no_table by done. reflexivity. }
  destruct (cached (store_of e) root (c_id klass) w) as [m|] eqn:Hc.
  { rewrite (metaFor_hit e klass w m); [reflexivity |].
    unfold cached_for. by rewrite Hroot. }
  destruct (metaFor_miss e klass w root Hroot Hc)
    as (wa & _ & _ & Hta & _ & _ & ->).
  pose proof (memo_kept_pluginOf table (table_of e) klass wa) as Hp.
  assert (memo_kept table w wa) as Hwa by (apply memo_kept_lookup; by rewrite Hta).
  destruct (pluginOf (table_of e) klass wa) as [wp [[plugin|]|err]]; simpl in *;
    try (by etrans).
  destruct (p_meta plugin) as [meta|]; [| by etrans].
  destruct (scope_ctor e meta) as [ctor|]; [| by etrans].
  simpl. etrans; [exact Hwa |]. etrans; [exact Hp |].
  apply memo_kept_lookup. unfold with_new_meta. by rewrite map_set_tables.
Qed.

Lemma memo_kept_update_storage table t0 f : keeps (memo_kept table) (update_storage t0 f).
Proof.
  intros w ps (T & HT & Hc). unfold update_storage, bind, get_table, put_table.
  destruct (tables w !! t0) as [T0|] eqn:HT0; [| by exists T].
  destruct (t_preferences T0); [| by exists T]. simpl.
  destruct (decide (t0 = table)) as [->|Hne].
  - eexists. split; [simpl; apply lookup_insert_eq |].
    rewrite HT in HT0. injection HT0 as <-. done.
  - exists T. split; [simpl; by rewrite lookup_insert_ne | done].
Qed.

Lemma same_tables_get_preferences t : keeps same_tables (get_preferences t).
Proof.
  intros w. unfold get_preferences, bind, get_table.
  destruct (tables w !! t) as [T|]; [| done]. by destruct (t_preferences T).
Qed.

Lemma same_tables_persist t : keeps same_tables (persist t).
Proof.
  intros w. unfold persist, bind.
  pose proof (same_tables_get_preferences t w) as H.
  by destruct (get_preferences t w) as [w1 [prefs|e]].
Qed.

Lemma same_tables_pref_get e klass key : keeps same_tables (pref_get e klass key).
Proof.
  intros w.
  destruct e as [t|c]; simpl;
    unfold preferences.forTable_get, preferences.forColumn_get, bind.
  - pose proof (same_tables_get_preferences t w) as H.
    by destruct (get_preferences t w) as [? [?|?]].
  - pose proof (same_tables_get_preferences (col_table c) w) as H.
    by destruct (get_preferences (col_table c) w) as [? [?|?]].
Qed.

Lemma memo_kept_exec table c w :
  is_modify_of table c = false → memo_kept table w (exec c w).
Proof.
  destruct c; simpl; intros Hc.
  - apply memo_kept_metaFor.
  - apply keeps_withFeature_forTable; [apply _ | apply memo_kept_plugins |].
    intros klass. apply (memo_kept_metaFor table (OfTable table0)).
  - apply keeps_withFeature_forColumn; [apply _ | apply memo_kept_plugins |].
    intros klass. apply (memo_kept_metaFor table (OfColumn column)).
  - apply memo_kept_plugins.
  - apply memo_kept_pluginOf.
  - apply memo_kept_lookup. apply Nat.eqb_neq in Hc.
    unfold modify, bind, get_table, put_table.
    destruct (tables w !! table0) as [T|]; [| done].
    destruct (t_preferences _); simpl; by rewrite lookup_insert_ne.
  - apply memo_kept_same_tables. unfold options_forTable, config.
    apply keeps_bind; [apply _ | apply same_tables_read_named
                      | intros; apply keeps_ret; apply _].
  - apply memo_kept_same_tables, same_tables_pref_get.
  - rewrite pref_set_unfold. apply bind_rel; [apply _ | apply memo_kept_update_storage |].
    intros _ w1 _. apply memo_kept_same_tables, same_tables_persist.
  - rewrite pref_delete_unfold. apply bind_rel; [apply _ | apply memo_kept_update_storage |].
    intros _ w1 _. apply memo_kept_same_tables, same_tables_persist.
Qed.

Lemma memo_kept_run table calls : ∀ w,
  forallb (λ c, negb (is_modify_of table c)) calls = true →
  memo_kept table w (run calls w).
Proof.
  induction calls as [|c calls IH]; intros w; simpl; [reflexivity |].
  intros [Hc Hcs]%andb_prop. apply negb_true_iff in Hc.
  etrans; [by apply memo_kept_exec | by apply IH].
Qed.

(** X5.  The plugin list is memoised until the table is modified: once
    [plugins] has returned a list for a table, then after any sequence of
    calls that contains no [modify] of that table -- lookups, feature
    resolutions, preference writes, reads of [plugins] and [modify] of other
    tables -- [plugins] returns the same list of the same plugin objects and
    changes nothing, and [pluginOf] finds in it the first instance of the
    class. *)
Theorem plugins_memoised table w w1 ps calls :
  plugins table w = (w1, Ok (Some ps)) →
  forallb (λ c, negb (is_modify_of table c)) calls = true →
  plugins table (run calls w1) = (run calls w1, Ok (Some ps))
  ∧ ∀ klass, pluginOf table klass (run calls w1)
             = (run calls w1, Ok (List.find (λ q, instanceof q klass) ps)).
Proof.
  intros H Hcalls.
  assert (plugins_memo (run calls w1) table (Some ps)) as Hm.
  { apply (memo_kept_run table calls w1 Hcalls). by eapply plugins_Ok_cached. }
  split.
  - destruct Hm as (T & HT & Hc). by eapply plugins_cached.
  - intros klass. by apply pluginOf_memo.
Qed.

Lemma plugins_memoised_witness :
  let w1 := (plugins Fixture.table Fixture.world).1 in
  let ps := match (plugins Fixture.table Fixture.world).2 with
            | Ok (Some ps) => ps
            | _ => []
            end in
  let calls := [CallMetaFor (OfColumn Fixture.middle) StickyColumns;
                CallPrefSet (PrefTable Fixture.table) StickyColumns "k" JNull;
                CallWithFeatureTable Fixture.table "columnVisibility"] in
  plugins Fixture.table (run calls w1) = (run calls w1, Ok (Some ps))
  ∧ ∀ klass, pluginOf Fixture.table klass (run calls w1)
             = (run calls w1, Ok (List.find (λ q, instanceof q klass) ps)).
Proof.
  intros w1 ps calls.
  apply (plugins_memoised Fixture.table Fixture.world w1 ps calls).
  - vm_compute. reflexivity.
  - reflexivity.
Defined.

(** X6.  Feature resolution is stable between modifications: once a
    feature has resolved to a meta for a table (for a column), resolving it
    again after any sequence of calls without a [modify] of that table
    returns the same meta object and changes nothing. *)
Theorem resolveFeature_stable e featureName w w1 m calls :
  match e with
  | OfTable table => withFeature_forTable table featureName w = (w1, Ok m)
  | OfColumn column => withFeature_forColumn column featureName w = (w1, Ok m)
  | OfRow _ => False
  end →
  forallb (λ c, negb (is_modify_of (table_of e) c)) calls = true →
  match e with
  | OfTable table =>
      withFeature_forTable table featureName (run calls w1) = (run calls w1, Ok m)
  | OfColumn column =>
      withFeature_forColumn column featureName (run calls w1) = (run calls w1, Ok m)
  | OfRow _ => False
  end.
Proof.
  intros H Hcalls.
  assert (∃ wp ps provider,
            plugins (table_of e) w = (wp, Ok (Some ps))
            ∧ findPlugin ps featureName = Some provider
            ∧ metaFor e (p_constructor provider) wp = (w1, Ok m)) as
      (wp & ps & provider & Hp & Hf & Hm).
  { destruct e as [table|column|row]; [| | done]; simpl;
      (destruct (plugins _ w) as [wp [[ps|]|err]] eqn:Hp;
       [ first [rewrite (withFeature_forTable_read _ _ _ _ _ Hp) in H
               |rewrite (withFeature_forColumn_read _ _ _ _ _ Hp) in H];
         destruct (findPlugin ps featureName) as [provider|] eqn:Hf; [| done];
         eauto 10
       | first [by rewrite (withFeature_forTable_read _ _ _ _ _ Hp) in H
               |by rewrite (withFeature_forColumn_read _ _ _ _ _ Hp) in H]
       | first [progress unfold withFeature_forTable in H
               |progress unfold withFeature_forColumn in H];
         by rewrite (bind_Throw _ _ _ _ _ Hp) in H ]). }
  assert (plugins_memo (run calls w1) (table_of e) (Some ps)) as (T & HT & Hc).
  { apply (memo_kept_run _ calls w1 Hcalls).
    pose proof (memo_kept_metaFor (table_of e) e (p_constructor provider) wp) as Hk.
    rewrite Hm in Hk. apply Hk. by eapply plugins_Ok_cached. }
  assert (metaFor e (p_constructor provider) (run calls w1) = (run calls w1, Ok m))
    as Hhit.
  { apply metaFor_hit. eapply cached_for_grows; [apply grows_run |].
    by eapply metaFor_Ok_cached. }
  destruct e as [table|column|row]; [| | done]; simpl in *.
  - rewrite (withFeature_forTable_read _ _ _ _ _ (plugins_cached _ _ _ _ HT Hc)).
    by rewrite Hf.
  - rewrite (withFeature_forColumn_read _ _ _ _ _ (plugins_cached _ _ _ _ HT Hc)).
    by rewrite Hf.
Qed.

Lemma resolveFeature_stable_witness :
  let e := OfColumn Fixture.middle in
  let w1 := (withFeature_forColumn Fixture.middle "columnWidth" Fixture.world).1 in
  let calls := [CallMetaFor (OfTable Fixture.table) StickyColumns;
                CallPrefDelete (PrefColumn Fixture.first) StickyColumns "k"] in
  withFeature_forColumn Fixture.middle "columnWidth" (run calls w1)
  = (run calls w1, Ok {| mo_id := 203; mo_ctor := 22; mo_entity := RColumn 102 |}).
Proof.
  intros e w1 calls.
  apply (resolveFeature_stable e "columnWidth" Fixture.world w1
           {| mo_id := 203; mo_ctor := 22; mo_entity := RColumn 102 |} calls).
  - vm_compute. reflexivity.
  - reflexivity.
Defined.

(** ** What reads, [modify] and preference writes leave alone *)

Lemma set_plugins_cache_id T : set_plugins_cache (t_plugins_cache T) T = T.
Proof. by destruct T. Qed.

Lemma set_plugins_cache_twice c c' T :
  set_plugins_cache c' (set_plugins_cache c T) = set_plugins_cache c' T.
Proof. done. Qed.

#[global] Instance memo_only_preorder : PreOrder memo_only.
Proof.
  split.
  - intros w t. destruct (tables w !! t) as [T|] eqn:HT; [| done].
    exists (t_plugins_cache T). by rewrite set_plugins_cache_id.
  - intros w1 w2 w3 H1 H2 t. specialize (H1 t).
    destruct (tables w1 !! t) as [T|].
    + destruct H1 as [c Hc]. specialize (H2 t). rewrite Hc in H2.
      destruct H2 as [c' Hc']. exists c'. by rewrite Hc'.
    + specialize (H2 t). by rewrite H1 in H2.
Qed.

Lemma memo_only_tables w w' : tables w' = tables w → memo_only w w'.
Proof.
  intros H t. rewrite H. destruct (tables w !! t) as [T|] eqn:HT; [| done].
  exists (t_plugins_cache T). by rewrite set_plugins_cache_id.
Qed.

Lemma memo_only_put w t T c :
  tables w !! t = Some T →
  memo_only w (set_tables (<[t := set_plugins_cache c T]> (tables w)) w).
Proof.
  intros HT t'. simpl. destruct (decide (t' = t)) as [->|Hne].
  - rewrite HT, lookup_insert_eq. eauto.
  - rewrite lookup_insert_ne by done.
    destruct (tables w !! t') as [T'|] eqn:HT'; [| done].
    exists (t_plugins_cache T'). by rewrite set_plugins_cache_id.
Qed.

Lemma memo_only_same_tables {A} (m : M A) :
  keeps same_tables m → keeps memo_only m.
Proof. intros H w. apply memo_only_tables, H. Qed.

Lemma memo_only_store t cell w : memo_only w (store_plugins_cache t cell w).
Proof.
  unfold store_plugins_cache. destruct (tables w !! t) as [T|] eqn:HT;
    [by apply memo_only_put | reflexivity].
Qed.

Lemma memo_only_plugins t : keeps memo_only (plugins t).
Proof.
  apply keeps_plugins; [apply _ | | intros; apply memo_only_store].
  apply memo_only_same_tables, same_tables_compute_plugins.
Qed.

Lemma memo_only_pluginOf t klass : keeps memo_only (pluginOf t klass).
Proof. apply keeps_pluginOf; [apply _ | apply memo_only_plugins]. Qed.

Lemma memo_only_metaFor e klass : keeps memo_only (metaFor e klass).
Proof.
  intros w.
  destruct (root_of e w) as [root|] eqn:Hroot; cycle 1.
  { destruct e as [t| |]; simpl in Hroot; try done.
    destruct (tables w !! t) eqn:HT; [done |].
    rewrite metaFor_no_table by done. reflexivity. }
  destruct (cached (store_of e) root (c_id klass) w) as [m|] eqn:Hc.
  { rewrite (metaFor_hit e klass w m); [reflexivity |].
    unfold cached_for. by rewrite Hroot. }
  destruct (metaFor_miss e klass w root Hroot Hc)
    as (wa & _ & _ & Hta & _ & _ & ->).
  pose proof (memo_only_pluginOf (table_of e) klass wa) as Hp.
  assert (memo_only w wa) as Hwa by by apply memo_only_tables.
  destruct (pluginOf (table_of e) klass wa) as [wp [[plugin|]|err]]; simpl in *;
    try (by etrans).
  destruct (p_meta plugin) as [meta|]; [| by etrans].
  destruct (scope_ctor e meta) as [ctor|]; [| by etrans].
  simpl. etrans; [exact Hwa |]. etrans; [exact Hp |].
  apply memo_only_tables. unfold with_new_meta. by rewrite map_set_tables.
Qed.

Lemma memo_only_exec c w : is_read c = true → memo_only w (exec c w).
Proof.
  destruct c; simpl; intros Hc; try done.
  - apply memo_only_metaFor.
  - apply keeps_withFeature_forTable; [apply _ | apply memo_only_plugins |].
    intros klass. apply (memo_only_metaFor (OfTable table)).
  - apply keeps_withFeature_forColumn; [apply _ | apply memo_only_plugins |].
    intros klass. apply (memo_only_metaFor (OfColumn column)).
  - apply memo_only_plugins.
  - apply memo_only_pluginOf.
  - apply memo_only_same_tables. unfold options_forTable, config.
    apply keeps_bind; [apply _ | apply same_tables_read_named
                      | intros; apply keeps_ret; apply _].
  - apply memo_only_tables, same_tables_pref_get.
Qed.

(** X7.  Reads change a table in its memo cell only.  After any
    sequence of reading calls -- lookups for tables, columns and rows,
    feature resolutions, reads of the plugins, of the options and of
    preferences -- every table has its identity key, owner, configuration,
    revision, preferences and scroll position as before, and no table has
    come or gone. *)
Theorem reads_touch_only_memo calls w :
  forallb is_read calls = true →
  ∀ t, match tables w !! t with
       | Some T =>
           ∃ T', tables (run calls w) !! t = Some T'
             ∧ t_key T' = t_key T ∧ t_owner T' = t_owner T
             ∧ t_args T' = t_args T ∧ t_args_rev T' = t_args_rev T
             ∧ t_preferences T' = t_preferences T
             ∧ t_scrollTop T' = t_scrollTop T
       | None => tables (run calls w) !! t = None
       end.
Proof.
  intros Hcalls.
  assert (memo_only w (run calls w)) as Hm.
  { revert w. induction calls as [|c calls IH]; intros w; simpl in *; [reflexivity |].
    apply andb_prop in Hcalls as [Hc Hcs].
    etrans; [by apply memo_only_exec | by apply IH]. }
  intros t. specialize (Hm t). destruct (tables w !! t) as [T|]; [| done].
  destruct Hm as [c ->]. by eexists.
Qed.

Lemma reads_touch_only_memo_witness :
  let calls := [CallWithFeatureColumn Fixture.middle "columnWidth";
                CallMetaFor (OfTable Fixture.table) StickyColumns;
                CallPluginOf Fixture.table StickyColumns;
                CallPrefGet (PrefTable Fixture.table) StickyColumns "k"] in
  (∃ T', tables (run calls Fixture.world) !! Fixture.table = Some T'
     ∧ t_key T' = t_key Fixture.the_table
     ∧ t_owner T' = t_owner Fixture.the_table
     ∧ t_args T' = t_args Fixture.the_table
     ∧ t_args_rev T' = t_args_rev Fixture.the_table
     ∧ t_preferences T' = t_preferences Fixture.the_table
     ∧ t_scrollTop T' = t_scrollTop Fixture.the_table)
  ∧ tables (run calls Fixture.world) !! 2 = None.
Proof.
  intros calls. split.
  - exact (reads_touch_only_memo calls Fixture.world eq_refl Fixture.table).
  - exact (reads_touch_only_memo calls Fixture.world eq_refl 2).
Defined.

#[global] Instance prefs_kept_preorder strict table : PreOrder (prefs_kept strict table).
Proof.
  split.
  - intros w T prefs HT Hp. by exists T, prefs.
  - intros w1 w2 w3 H1 H2 T prefs HT Hp.
    destruct (H1 T prefs HT Hp) as (T' & prefs' & HT' & Hp' & Hk & Ha & Hs).
    destruct (H2 T' prefs' HT' Hp') as (T'' & prefs'' & HT'' & Hp'' & Hk' & Ha' & Hs').
    exists T'', prefs''. repeat split; try congruence.
    intros E. rewrite Hs', Hs; done.
Qed.

Lemma memo_only_prefs_kept strict table w w' :
  memo_only w w' → prefs_kept strict table w w'.
Proof.
  intros Hm T prefs HT Hp. specialize (Hm table). rewrite HT in Hm.
  destruct Hm as [c Hc]. by eexists _, prefs.
Qed.

Lemma prefs_kept_modify table t named : keeps (prefs_kept true table) (modify t named).
Proof.
  intros w T prefs HT Hp. unfold modify, bind, get_table, put_table.
  destruct (tables w !! t) as [T0|] eqn:HT0; [| by exists T, prefs].
  destruct (decide (t = table)) as [->|Hne].
  - rewrite HT in HT0. injection HT0 as <-. simpl. rewrite Hp. simpl.
    eexists _, prefs. split; [apply lookup_insert_eq |].
    unfold resetScrollContainer. simpl. by destruct (t_scrollTop T).
  - exists T, prefs. split; [| done].
    destruct (t_preferences (set_args named T0)); simpl; by rewrite lookup_insert_ne.
Qed.

Lemma prefs_kept_write table e klass f :
  keeps (prefs_kept (negb (Nat.eqb (pref_table e) table)) table)
    (let* _ := update_storage (pref_table e)
                 (write_level f (c_name klass) (pref_level e)) in
     persist (pref_table e)).
Proof.
  intros w T prefs HT Hp.
  destruct (tables w !! pref_table e) as [T0|] eqn:HT0; cycle 1.
  { unfold update_storage, bind, get_table. rewrite HT0. by exists T, prefs. }
  destruct (t_preferences T0) as [prefs0|] eqn:Hp0; cycle 1.
  { unfold update_storage, bind, get_table. rewrite HT0, Hp0. by exists T, prefs. }
  rewrite (pref_write_spec f e klass w T0 prefs0 HT0 Hp0). simpl.
  destruct (Nat.eqb_spec (pref_table e) table) as [E|Hne].
  - rewrite E, lookup_insert_eq. rewrite E, HT in HT0. injection HT0 as <-.
    rewrite Hp in Hp0. injection Hp0 as <-.
    by eexists _, _.
  - rewrite lookup_insert_ne by done. by exists T, prefs.
Qed.

Lemma prefs_kept_weaken table w w' : prefs_kept true table w w' → prefs_kept false table w w'.
Proof.
  intros H T prefs HT Hp. destruct (H T prefs HT Hp) as (T' & prefs' & ? & ? & ? & ? & _).
  by exists T', prefs'.
Qed.

Lemma prefs_kept_exec table c w :
  prefs_kept (negb (is_pref_write table c)) table w (exec c w).
Proof.
  destruct c; simpl; try (apply memo_only_prefs_kept;
    apply (memo_only_exec _ _ eq_refl || memo_only_exec); done).
  - apply (memo_only_prefs_kept _ _ _ _ (memo_only_exec (CallMetaFor e klass) w eq_refl)).
  - apply (memo_only_prefs_kept _ _ _ _
             (memo_only_exec (CallWithFeatureTable table0 featureName) w eq_refl)).
  - apply (memo_only_prefs_kept _ _ _ _
             (memo_only_exec (CallWithFeatureColumn column featureName) w eq_refl)).
  - apply (memo_only_prefs_kept _ _ _ _ (memo_only_exec (CallPlugins table0) w eq_refl)).
  - apply (memo_only_prefs_kept _ _ _ _
             (memo_only_exec (CallPluginOf table0 klass) w eq_refl)).
  - apply prefs_kept_modify.
  - apply (memo_only_prefs_kept _ _ _ _
             (memo_only_exec (CallOptions table0 klass) w eq_refl)).
  - apply (memo_only_prefs_kept _ _ _ _
             (memo_only_exec (CallPrefGet e klass key) w eq_refl)).
  - rewrite pref_set_unfold. apply prefs_kept_write.
  - rewrite pref_delete_unfold. apply prefs_kept_write.
Qed.

Lemma prefs_kept_run_weak table calls : ∀ w, prefs_kept false table w (run calls w).
Proof.
  induction calls as [|c calls IH]; intros w; simpl; [reflexivity |].
  etrans; [| apply IH].
  pose proof (prefs_kept_exec table c w) as H.
  destruct (negb (is_pref_write table c)); [by apply prefs_kept_weaken | done].
Qed.

Lemma prefs_kept_run_strict table calls : ∀ w,
  forallb (λ c, negb (is_pref_write table c)) calls = true →
  prefs_kept true table w (run calls w).
Proof.
  induction calls as [|c calls IH]; intros w; simpl; [reflexivity |].
  intros [Hc Hcs]%andb_prop. etrans; [| by apply IH].
  pose proof (prefs_kept_exec table c w) as H. by rewrite Hc in H.
Qed.

(** X8.  The preferences of a table are set up once.  Once a table has
    its preferences, no sequence of calls replaces them or changes their
    key or adapter -- in particular no [modify], whatever key the new
    configuration names -- and a sequence without [set] and [delete] on that
    table leaves the store as it is. *)
Theorem preferences_set_up_once table calls w T prefs :
  tables w !! table = Some T → t_preferences T = Some prefs →
  ∃ T' prefs',
    tables (run calls w) !! table = Some T'
    ∧ t_preferences T' = Some prefs'
    ∧ tp_key prefs' = tp_key prefs ∧ tp_adapter prefs' = tp_adapter prefs
    ∧ (forallb (λ c, negb (is_pref_write table c)) calls = true →
       tp_storage prefs' = tp_storage prefs).
Proof.
  intros HT Hp.
  destruct (prefs_kept_run_weak table calls w T prefs HT Hp)
    as (T' & prefs' & HT' & Hp' & Hk & Ha & _).
  exists T', prefs'. repeat (split; [done |]).
  intros Hcalls.
  destruct (prefs_kept_run_strict table calls w Hcalls T prefs HT Hp)
    as (T'' & prefs'' & HT'' & Hp'' & _ & _ & Hs).
  rewrite HT' in HT''. injection HT'' as <-. rewrite Hp' in Hp''.
  injection Hp'' as <-. by apply Hs.
Qed.

Lemma preferences_set_up_once_witness :
  let other := Some {| cfg_plugins := None;
                       cfg_preferences := Some {| pc_key := Some "other";
                                                  pc_adapter := Some 9 |} |} in
  let calls := [CallModify Fixture.table other;
                CallPrefSet (PrefTable Fixture.table) StickyColumns "k" JNull;
                CallModify Fixture.table None] in
  ∃ T' prefs',
    tables (run calls Fixture.world) !! Fixture.table = Some T'
    ∧ t_preferences T' = Some prefs'
    ∧ tp_key prefs' = guidFor Fixture.table ∧ tp_adapter prefs' = None
    ∧ (forallb (λ c, negb (is_pref_write Fixture.table c)) calls = true →
       tp_storage prefs' = ∅).
Proof.
  intros other calls.
  apply (preferences_set_up_once Fixture.table calls Fixture.world Fixture.the_table
           {| tp_key := guidFor Fixture.table; tp_adapter := None; tp_storage := ∅ |}).
  - vm_compute. reflexivity.
  - reflexivity.
Defined.

(** X9.  Preferences survive everything but a write.  What [set] has
    stored under a key is what [get] returns for that key after any sequence
    of calls that holds no [set] or [delete] on the preferences of that
    table: reconfigurations of the table, reads of the plugins and metadata
    lookups do not lose it. *)
Theorem preferences_survive e klass key value w w1 calls :
  pref_set e klass key value w = (w1, Ok tt) →
  forallb (λ c, negb (is_pref_write (pref_table e) c)) calls = true →
  pref_get e klass key (run calls w1) = (run calls w1, Ok value).
Proof.
  intros Hset Hcalls.
  assert (∃ T prefs, tables w !! pref_table e = Some T ∧ t_preferences T = Some prefs)
    as (T & prefs & HT & Hp).
  { rewrite pref_set_unfold in Hset.
    apply bind_inv in Hset as [(w0 & [] & Hu & _)|(err & _ & ?)]; [| done].
    unfold update_storage, bind, get_table in Hu.
    destruct (tables w !! pref_table e) as [T|]; [| done].
    destruct (t_preferences T) as [prefs|] eqn:Hp; [eauto | done]. }
  rewrite pref_set_unfold, (pref_write_spec _ e klass w T prefs HT Hp) in Hset.
  injection Hset as <-.
  set (prefs1 := {| tp_key := tp_key prefs; tp_adapter := tp_adapter prefs;
                    tp_storage := write_level (<[key := value]>) (c_name klass)
                                    (pref_level e) (tp_storage prefs) |}).
  match goal with
  | |- pref_get _ _ _ (run calls ?W) = _ =>
      destruct (prefs_kept_run_strict (pref_table e) calls W Hcalls
                  (set_preferences (Some prefs1) T) prefs1)
        as (T' & prefs' & HT' & Hp' & _ & _ & Hs);
        [simpl; apply lookup_insert_eq | done |]
  end.
  rewrite (pref_get_spec e klass key _ T' prefs' HT' Hp'), (Hs eq_refl). simpl.
  by rewrite bucket_at_write, decide_True, lookup_insert_eq.
Qed.

Lemma preferences_survive_witness :
  let e := PrefColumn Fixture.middle in
  let w1 := (pref_set e StickyColumns "pinned" (JBool true) Fixture.world).1 in
  let calls := [CallModify Fixture.table None;
                CallPlugins Fixture.table;
                CallPrefSet (PrefTable 2) StickyColumns "pinned" JNull;
                CallModify Fixture.table (Some Fixture.named)] in
  pref_get e StickyColumns "pinned" (run calls w1) = (run calls w1, Ok (JBool true)).
Proof.
  intros e w1 calls.
  apply (preferences_survive e StickyColumns "pinned" (JBool true) Fixture.world w1 calls).
  - vm_compute. reflexivity.
  - reflexivity.
Defined.

(** ** Building the plugin list *)

Lemma mapM_instantiate_built table owner T l : ∀ w,
  tables w !! table = Some T → t_owner T = Some owner →
  ∃ w', mapM (instantiate table) l w = (w', Ok (built owner (next_obj w) l))
    ∧ tables w' = tables w
    ∧ next_obj w' = next_obj w + length (filter (λ t, is_PClass t.1 = true) l).
Proof.
  induction l as [|[[c|p] fn] l IH]; intros w HT Ho.
  - exists w. simpl. repeat split. lia.
  - set (w1 := log (EvNewPlugin table (c_id c) (next_obj w))
                 (set_next_obj (S (next_obj w)) w)).
    destruct (IH w1 HT Ho) as (w' & Hm & Ht & Hn).
    exists w'. split; [| split; [done |]].
    + simpl. unfold bind at 1. unfold instantiate at 1. simpl.
      unfold bind, fresh, emit, get_table, ret. simpl. rewrite HT, Ho.
      fold w1. unfold bind, ret in Hm. by rewrite Hm.
    + rewrite filter_cons_True by done. rewrite Hn. simpl. lia.
  - destruct (IH w HT Ho) as (w' & Hm & Ht & Hn).
    exists w'. split; [| split; [done |]].
    + simpl. unfold bind at 1. unfold instantiate at 1. simpl. unfold ret at 1.
      unfold bind, ret. by rewrite Hm.
    + by rewrite filter_cons_False by done.
Qed.

Lemma mapM_instantiate_no_owner table T l : ∀ w,
  tables w !! table = Some T → t_owner T = None →
  ∃ w', tables w' = tables w ∧
    mapM (instantiate table) l w =
      if existsb (λ t, is_PClass t.1) l then (w', Throw NoOwner)
      else (w, Ok (built 0 0 l)).
Proof.
  induction l as [|[[c|p] fn] l IH]; intros w HT Ho; simpl.
  - by exists w.
  - eexists. split; [| unfold bind at 1; unfold instantiate at 1; simpl;
      unfold bind, fresh, emit, get_table, throw; simpl; by rewrite HT, Ho].
    done.
  - destruct (IH w HT Ho) as (w' & Ht & Hm). exists w'. split; [done |].
    unfold bind at 1. unfold instantiate at 1. simpl. unfold ret at 1.
    unfold bind, ret. rewrite Hm. by destruct (existsb _ l).
Qed.

Lemma built_length owner l : ∀ n, length (built owner n l) = length l.
Proof.
  induction l as [|[[c|p] fn] l IH]; intros n; simpl; [done | |]; by rewrite IH.
Qed.

Lemma built_objects owner l : ∀ n,
  existsb (λ t, is_PClass t.1) l = false →
  Forall2 (λ tuple p, tuple.1 = PObject p) l (built owner n l).
Proof.
  induction l as [|[[c|p] fn] l IH]; intros n; simpl; [constructor | done |].
  intros H. constructor; [done | by apply IH].
Qed.

Lemma built_instance owner l c : ∀ n,
  PClass c ∈ map fst l →
  ∃ p, p ∈ built owner n l ∧ p_constructor p = c ∧ p_owner p = Some owner.
Proof.
  induction l as [|[[c'|q] fn] l IH]; intros n; simpl.
  - by intros ?%elem_of_nil.
  - intros [[= <-]|H]%elem_of_cons.
    + eexists. split; [apply elem_of_cons; by left | done].
    + destruct (IH (S n) H) as (p & Hp & ?). exists p. split; [| done].
      apply elem_of_cons. by right.
  - intros [?|H]%elem_of_cons; [done |].
    destruct (IH n H) as (p & Hp & ?). exists p. split; [| done].
    apply elem_of_cons. by right.
Qed.

Lemma compute_plugins_eq table w T :
  tables w !! table = Some T →
  compute_plugins table w =
    match t_args T with
    | None => (w, Throw TypeError)
    | Some args =>
        let normalized := normalizePluginsConfig (args_named args ≫= cfg_plugins) in
        match verify_from [] normalized with
        | Some err => (w, Throw err)
        | None => mapM (instantiate table) normalized w
        end
    end.
Proof.
  intros HT. unfold compute_plugins, read_named, bind, get_table. rewrite HT.
  destruct (t_args T) as [args|]; [| done]. simpl.
  unfold verifyPlugins. by destruct (verify_from _ _).
Qed.

Lemma plugins_failed table w T wc err :
  tables w !! table = Some T → memo_stale T →
  compute_plugins table w = (wc, Throw err) →
  ∃ w', plugins table w = (w', Throw err) ∧ read_failed table T w'.
Proof.
  intros HT Hstale Hc. rewrite (plugins_stale _ _ _ HT Hstale).
  destruct (recompute_plugins_spec table w T (last_plugins T) HT)
    as (wc' & r & Hc' & Ht & Hr).
  rewrite Hc in Hc'. injection Hc' as <- <-. rewrite Hr.
  eexists. split; [done |].
  assert (plugins_memo
            (set_tables
               (<[table := set_plugins_cache
                              (Some (t_args_rev T, last_plugins T)) T]>
                  (tables wc)) wc) table (last_plugins T)) as (T' & HT' & Hm).
  { eexists. simpl. split; [apply lookup_insert_eq | done]. }
  split; [simpl; apply lookup_insert_eq |].
  split; [by eapply plugins_cached |].
  intros Hnone klass.
  rewrite (pluginOf_read _ _ _ _ _ (plugins_cached _ _ _ _ HT' Hm)).
  by rewrite Hnone.
Qed.

(** X10.  Building the plugin list.  For a table whose cell of
    [plugins] is missing or out of date, a read runs the getter body.
    Before the first [modify] ([args] unset) it throws a type error; when
    the configuration fails the requirement check it throws that error;
    without an owner it throws "no owner" as soon as one entry is a class.
    After each of these failures the cell carries the revision of [args] and
    the value it held before, so the next read returns that value without
    running the body again -- [undefined] when there was none, and
    [pluginOf] then throws a type error.  Otherwise: with an owner,
    [plugins] returns one plugin per configured entry, in configuration
    order -- for a class a new object (the next free identities, in order)
    constructed from the class and given the table's owner, for a plugin
    object that object itself -- and memoises the list; every configured
    class is then found by [pluginOf].  Without an owner and with objects
    only, it returns the configured objects. *)
Theorem plugins_built table w T :
  tables w !! table = Some T → memo_stale T →
  match t_args T with
  | None => ∃ w', plugins table w = (w', Throw TypeError) ∧ read_failed table T w'
  | Some args =>
      let normalized := normalizePluginsConfig (args_named args ≫= cfg_plugins) in
      match verify_from [] normalized with
      | Some err => ∃ w', plugins table w = (w', Throw err) ∧ read_failed table T w'
      | None =>
          match t_owner T with
          | Some owner =>
              let ps := built owner (next_obj w) normalized in
              ∃ w', plugins table w = (w', Ok (Some ps))
                ∧ plugins_memo w' table (Some ps)
                ∧ length ps = length normalized
                ∧ next_obj w' = next_obj w
                    + length (filter (λ t, is_PClass t.1 = true) normalized)
                ∧ ∀ c, PClass c ∈ map fst normalized →
                       ∃ p, pluginOf table c w' = (w', Ok (Some p))
                            ∧ instanceof p c = true
          | None =>
              if existsb (λ t, is_PClass t.1) normalized
              then ∃ w', plugins table w = (w', Throw NoOwner)
                         ∧ read_failed table T w'
              else ∃ w' ps, plugins table w = (w', Ok (Some ps))
                            ∧ Forall2 (λ tuple p, tuple.1 = PObject p) normalized ps
          end
      end
  end.
Proof.
  intros HT Hstale.
  pose proof (compute_plugins_eq table w T HT) as Hcp.
  destruct (t_args T) as [args|]; [| by eapply plugins_failed].
  simpl in Hcp. simpl.
  set (normalized := normalizePluginsConfig (args_named args ≫= cfg_plugins)) in *.
  destruct (verify_from [] normalized) as [err|]; [by eapply plugins_failed |].
  destruct (recompute_plugins_spec table w T (last_plugins T) HT)
    as (wc' & r & Hc' & Ht' & Hr).
  destruct (t_owner T) as [owner|] eqn:Ho.
  - destruct (mapM_instantiate_built table owner T normalized w HT Ho)
      as (wc & Hm & Ht & Hn).
    rewrite <- Hcp in Hm. rewrite Hm in Hc'. injection Hc' as <- <-.
    rewrite (plugins_stale _ _ _ HT Hstale), Hr.
    eexists. split; [done |].
    assert (plugins_memo
              (set_tables
                 (<[table := set_plugins_cache
                       (Some (t_args_rev T,
                              Some (built owner (next_obj w) normalized))) T]>
                    (tables wc)) wc) table
              (Some (built owner (next_obj w) normalized)))
      as Hmemo.
    { eexists. simpl. split; [apply lookup_insert_eq | done]. }
    split; [done |]. split; [apply built_length |]. split; [done |].
    intros c Hc. rewrite (pluginOf_memo _ _ _ _ Hmemo).
    destruct (built_instance owner normalized c (next_obj w) Hc) as (p & Hp & <- & _).
    destruct (List.find (λ q, instanceof q (p_constructor p))
                (built owner (next_obj w) normalized)) as [p'|] eqn:Hf.
    + exists p'. split; [done |]. by apply find_some in Hf as [_ ?].
    + apply list_elem_of_In in Hp. apply (find_none _ _ Hf p) in Hp.
      by rewrite instanceof_constructor in Hp.
  - destruct (mapM_instantiate_no_owner table T normalized w HT Ho) as (wc & Ht & Hm).
    rewrite <- Hcp in Hm.
    destruct (existsb _ normalized) eqn:Hex.
    + by eapply plugins_failed.
    + rewrite Hm in Hc'. injection Hc' as <- <-.
      rewrite (plugins_stale _ _ _ HT Hstale), Hr.
      eexists _, _. split; [done |]. by apply built_objects.
Qed.

Lemma plugins_built_witness :
  (∃ w', plugins Fixture.table Fixture.world
         = (w', Ok (Some (built 7 200
                            (normalizePluginsConfig (cfg_plugins Fixture.named)))))
     ∧ next_obj w' = 203)
  ∧ (∃ w', plugins 1 (NoOwnerTable.world_with
                        [Bare (PObject NoOwnerTable.an_object);
                         Bare (PClass Fixture.WidthPlugin)])
           = (w', Throw NoOwner)
           ∧ plugins 1 w' = (w', Ok None)
           ∧ pluginOf 1 Fixture.WidthPlugin w' = (w', Throw TypeError))
  ∧ (∃ w' ps, plugins 1 (NoOwnerTable.world_with
                           [Bare (PObject NoOwnerTable.an_object)])
              = (w', Ok (Some ps))
       ∧ ps = [NoOwnerTable.an_object])
  ∧ (∃ w', plugins Unconfigured.table Unconfigured.world = (w', Throw TypeError)
           ∧ plugins Unconfigured.table w' = (w', Ok None)
           ∧ pluginOf Unconfigured.table StickyColumns w' = (w', Throw TypeError)).
Proof.
  split; [| split; [| split]].
  - destruct (plugins_built Fixture.table Fixture.world Fixture.the_table)
      as (w' & H & _ & _ & Hn & _).
    + vm_compute. reflexivity.
    + intros rev ps H. discriminate H.
    + exists w'. split; [exact H | exact Hn].
  - destruct (plugins_built 1
                (NoOwnerTable.world_with
                   [Bare (PObject NoOwnerTable.an_object);
                    Bare (PClass Fixture.WidthPlugin)])
                (NoOwnerTable.table_with
                   [Bare (PObject NoOwnerTable.an_object);
                    Bare (PClass Fixture.WidthPlugin)]))
      as (w' & H & _ & Hagain & Hof).
    + vm_compute. reflexivity.
    + intros rev ps H. discriminate H.
    + exists w'. split; [exact H |]. split; [exact Hagain |].
      exact (Hof eq_refl Fixture.WidthPlugin).
  - destruct (plugins_built 1
                (NoOwnerTable.world_with [Bare (PObject NoOwnerTable.an_object)])
                (NoOwnerTable.table_with [Bare (PObject NoOwnerTable.an_object)]))
      as (w' & ps & H & HF).
    + vm_compute. reflexivity.
    + intros rev ps H. discriminate H.
    + exists w', ps. split; [exact H |].
      inversion HF as [|? ? ? ? Hx Hr]; subst. inversion Hr; subst.
      simpl in Hx. by injection Hx as <-.
  - destruct (plugins_built Unconfigured.table Unconfigured.world
                Unconfigured.the_table)
      as (w' & H & _ & Hagain & Hof).
    + vm_compute. reflexivity.
    + intros rev ps H. discriminate H.
    + exists w'. split; [exact H |]. split; [exact Hagain |].
      exact (Hof eq_refl StickyColumns).
Defined.

(** ** A feature that no plugin provides *)

Lemma findPlugin_none ps featureName :
  findPlugin ps featureName = None
  ↔ Forall (λ q, provides featureName q = false) ps.
Proof.
  unfold findPlugin. split.
  - intros H. apply Forall_forall. intros q Hq%list_elem_of_In.
    by apply (find_none _ _ H).
  - apply find_none_Forall.
Qed.

Lemma availableFeatures_none ps :
  Forall (λ q, Forall (λ f, f = "") (default [] (features_of q))) ps →
  availableFeatures ps = "[none]".
Proof.
  intros H. unfold availableFeatures.
  assert (filter (λ f, f ≠ "")
            (flat_map (λ plugin, default [] (features_of plugin)) ps) = []) as ->; [| done].
  induction H as [|q ps Hq _ IH]; simpl; [done |].
  rewrite filter_app, IH, app_nil_r.
  induction Hq as [|f fs -> _ IHf]; [done |].
  by rewrite filter_cons_False by (intros ?; done).
Qed.

(** X11.  Resolving a feature that none of the live plugins provides
    throws "could not find plugin with feature", for the table and for its
    columns alike, and the message lists the features that are available;
    when no plugin declares any feature it reads "[none]".  Nothing is
    constructed and the three metadata stores are as before.  Conversely,
    with a list in which some plugin provides the feature this error is not
    what the resolution ends in. *)
Theorem feature_not_found featureName table w w1 ps :
  plugins table w = (w1, Ok (Some ps)) →
  (Forall (λ q, provides featureName q = false) ps →
     withFeature_forTable table featureName w
     = (w1, Throw (FeatureNotFound featureName (availableFeatures ps)))
     ∧ (∀ column, col_table column = table →
          withFeature_forColumn column featureName w
          = (w1, Throw (FeatureNotFound featureName (availableFeatures ps))))
     ∧ TABLE_META w1 = TABLE_META w ∧ COLUMN_META w1 = COLUMN_META w
     ∧ ROW_META w1 = ROW_META w
     ∧ constructions (trace w1) = constructions (trace w))
  ∧ (Forall (λ q, Forall (λ f, f = "") (default [] (features_of q))) ps →
     availableFeatures ps = "[none]")
  ∧ (Exists (λ q, provides featureName q = true) ps →
     ∀ w' available,
       withFeature_forTable table featureName w
       ≠ (w', Throw (FeatureNotFound featureName available))
       ∧ ∀ column, col_table column = table →
           withFeature_forColumn column featureName w
           ≠ (w', Throw (FeatureNotFound featureName available))).
Proof.
  intros Hp. split; [| split].
  - intros Hnone. apply findPlugin_none in Hnone.
    pose proof (quiet_plugins table w) as Hq. rewrite Hp in Hq.
    split; [| split].
    + rewrite (withFeature_forTable_read _ _ _ _ _ Hp). by rewrite Hnone.
    + intros column <-. rewrite (withFeature_forColumn_read _ _ _ _ _ Hp).
      by rewrite Hnone.
    + destruct Hq as [? ? ? _ Ht]. by rewrite app_nil_r in Ht.
  - apply availableFeatures_none.
  - intros Hex w' available.
    assert (∃ provider, findPlugin ps featureName = Some provider) as [provider Hf].
    { destruct (findPlugin ps featureName) eqn:Hf; [eauto |].
      apply findPlugin_none in Hf. apply Exists_exists in Hex as (q & Hq & Hpq).
      rewrite Forall_forall in Hf. specialize (Hf q Hq). congruence. }
    split.
    + intros Hr. rewrite (withFeature_forTable_read _ _ _ _ _ Hp), Hf in Hr.
      apply (metaFor_error_kinds (OfTable table)) in Hr.
      by destruct Hr as [?|[?|[(?&?&?)|[?|[(?&?)|(?&?&?)]]]]].
    + intros column <- Hr.
      rewrite (withFeature_forColumn_read _ _ _ _ _ Hp), Hf in Hr.
      apply (metaFor_error_kinds (OfColumn column)) in Hr.
      by destruct Hr as [?|[?|[(?&?&?)|[?|[(?&?)|(?&?&?)]]]]].
Qed.

Lemma feature_not_found_witness :
  let w1 := (plugins Fixture.table Fixture.world).1 in
  withFeature_forTable Fixture.table "columnOrder" Fixture.world
  = (w1, Throw (FeatureNotFound "columnOrder" "columnWidth, columnVisibility"))
  ∧ (∀ column, col_table column = Fixture.table →
       withFeature_forColumn column "columnOrder" Fixture.world
       = (w1, Throw (FeatureNotFound "columnOrder" "columnWidth, columnVisibility")))
  ∧ TABLE_META w1 = TABLE_META Fixture.world
  ∧ COLUMN_META w1 = COLUMN_META Fixture.world
  ∧ ROW_META w1 = ROW_META Fixture.world
  ∧ constructions (trace w1) = constructions (trace Fixture.world).
Proof.
  intros w1.
  destruct (feature_not_found "columnOrder" Fixture.table Fixture.world w1
              (built 7 200 (normalizePluginsConfig (cfg_plugins Fixture.named))))
    as (H & _ & _).
  - vm_compute. reflexivity.
  - apply H. repeat constructor.
Defined.

(** ** Preferences are kept by column key *)

Lemma pref_get_after_write_by_level (f : gmap string JsVal → gmap string JsVal)
    e e2 P Q key w T prefs :
  tables w !! pref_table e = Some T → t_preferences T = Some prefs →
  pref_table e2 = pref_table e →
  ∃ w', (let* _ := update_storage (pref_table e)
                     (write_level f (c_name Q) (pref_level e)) in
         persist (pref_table e)) w = (w', Ok tt)
    ∧ pref_get e2 P key w' =
        (w', Ok (default JUndefined
                   (bucket_at (write_level f (c_name Q) (pref_level e)
                                 (tp_storage prefs))
                      (c_name P) (pref_level e2) !! key))).
Proof.
  intros HT Hp Htab. eexists. split; [by apply pref_write_spec |].
  apply (pref_get_spec e2 P key _
           (set_preferences
              (Some {| tp_key := tp_key prefs; tp_adapter := tp_adapter prefs;
                       tp_storage := write_level f (c_name Q) (pref_level e)
                                       (tp_storage prefs) |}) T)
           {| tp_key := tp_key prefs; tp_adapter := tp_adapter prefs;
              tp_storage := write_level f (c_name Q) (pref_level e)
                              (tp_storage prefs) |}).
  - simpl. rewrite Htab. apply lookup_insert_eq.
  - done.
Qed.

(** X15.  The preferences of a column are kept under the column's key,
    not under the column object: what is set through the façade of one
    column is what the façade of any other column object of the same table
    with the same key gets (so the preferences outlive the column objects,
    which are made anew whenever the column configuration changes), and it
    is not what a column of another key gets. *)
Theorem column_preferences_by_key c1 c2 klass key value w T prefs :
  tables w !! col_table c1 = Some T → t_preferences T = Some prefs →
  col_table c2 = col_table c1 →
  ∃ w', pref_set (PrefColumn c1) klass key value w = (w', Ok tt)
    ∧ (col_key c2 = col_key c1 →
       pref_get (PrefColumn c2) klass key w' = (w', Ok value))
    ∧ (col_key c2 ≠ col_key c1 →
       ∃ v0, pref_get (PrefColumn c2) klass key w = (w, Ok v0)
             ∧ pref_get (PrefColumn c2) klass key w' = (w', Ok v0)).
Proof.
  intros HT Hp Htab.
  destruct (pref_get_after_write_by_level (<[key := value]>) (PrefColumn c1)
              (PrefColumn c2) klass klass key w T prefs HT Hp Htab)
    as (w' & Hw & Hg).
  exists w'. rewrite pref_set_unfold. split; [done |]. split.
  - intros Hk. rewrite Hg. cbn [pref_level]. rewrite Hk.
    by rewrite bucket_at_write, decide_True, lookup_insert_eq.
  - intros Hk. eexists. split.
    + apply (pref_get_spec (PrefColumn c2) klass key w T prefs); [| done].
      simpl. by rewrite Htab.
    + rewrite Hg. cbn [pref_level].
      by rewrite bucket_at_write, decide_False by (intros [_ [= ?]]; done).
Qed.

Lemma column_preferences_by_key_witness :
  let c1 := Fixture.middle in
  let c2 := {| col_id := 502; col_table := Fixture.table; col_key := "col2";
               col_pluginOptions := None |} in
  ∃ w', pref_set (PrefColumn c1) StickyColumns "width" (JNum (Number_of_Z 120)) Fixture.world
        = (w', Ok tt)
    ∧ (col_key c2 = col_key c1 →
       pref_get (PrefColumn c2) StickyColumns "width" w' = (w', Ok (JNum (Number_of_Z 120))))
    ∧ (col_key c2 ≠ col_key c1 →
       ∃ v0, pref_get (PrefColumn c2) StickyColumns "width" Fixture.world
             = (Fixture.world, Ok v0)
             ∧ pref_get (PrefColumn c2) StickyColumns "width" w' = (w', Ok v0)).
Proof.
  intros c1 c2.
  apply (column_preferences_by_key c1 c2 StickyColumns "width" (JNum (Number_of_Z 120))
           Fixture.world Fixture.the_table
           {| tp_key := guidFor Fixture.table; tp_adapter := None; tp_storage := ∅ |}).
  - vm_compute. reflexivity.
  - reflexivity.
  - reflexivity.
Defined.

(** ** Preferences before and after the first [modify] *)



(** ** A feature resolves to the meta that is there *)

(** X17.  Metas survive a reconfiguration at the feature level.  Once
    the cache holds a meta for an entity and a plugin class, then after any
    sequence of calls -- also [modify], after which the plugin objects are
    new ones -- resolving a feature whose first provider in the then-live
    plugin list is of that class returns that very meta. *)
Theorem resolveFeature_after_calls e klass featureName w w1 m calls w2 ps provider :
  metaFor e klass w = (w1, Ok m) →
  plugins (table_of e) (run calls w1) = (w2, Ok (Some ps)) →
  findPlugin ps featureName = Some provider →
  c_id (p_constructor provider) = c_id klass →
  match e with
  | OfTable table =>
      withFeature_forTable table featureName (run calls w1) = (w2, Ok m)
  | OfColumn column =>
      withFeature_forColumn column featureName (run calls w1) = (w2, Ok m)
  | OfRow _ => True
  end.
Proof.
  intros Hm Hp Hf Hid.
  assert (cached_for e (p_constructor provider) w2 = Some m) as Hc.
  { assert (cached_for e klass w2 = Some m) as Hc.
    { eapply cached_for_grows; [| by eapply metaFor_Ok_cached].
      etrans; [apply grows_run |].
      pose proof (quiet_plugins (table_of e) (run calls w1)) as Hq.
      rewrite Hp in Hq. by apply quiet_grows. }
    unfold cached_for in *. by rewrite Hid. }
  apply metaFor_hit in Hc.
  destruct e as [table|column|row]; simpl in *; [| | done].
  - rewrite (withFeature_forTable_read _ _ _ _ _ Hp). by rewrite Hf.
  - rewrite (withFeature_forColumn_read _ _ _ _ _ Hp). by rewrite Hf.
Qed.

Lemma resolveFeature_after_calls_witness :
  let e := OfTable Fixture.table in
  let w1 := (metaFor e Fixture.VisibilityPlugin Fixture.world).1 in
  let calls := [CallModify Fixture.table (Some Fixture.named)] in
  let w2 := (plugins Fixture.table (run calls w1)).1 in
  withFeature_forTable Fixture.table "columnVisibility" (run calls w1)
  = (w2, Ok {| mo_id := 203; mo_ctor := 31; mo_entity := RTable Fixture.table |}).
Proof.
  intros e w1 calls w2.
  apply (resolveFeature_after_calls e Fixture.VisibilityPlugin "columnVisibility"
           Fixture.world w1 _ calls w2
           (built 7 204 (normalizePluginsConfig (cfg_plugins Fixture.named)))
           {| p_obj := 205; p_constructor := Fixture.VisibilityPlugin;
              p_name := "visibility-plugin"; p_features := None;
              p_requires := None; p_meta := c_inst_meta Fixture.VisibilityPlugin;
              p_owner := Some 7 |}).
  - vm_compute. reflexivity.
  - vm_compute. reflexivity.
  - reflexivity.
  - reflexivity.
Defined.

(** ** C8, C10: the sticky-columns column meta *)

Lemma memo_only_rev w w' t :
  memo_only w w' →
  t_args_rev <$> tables w' !! t = t_args_rev <$> tables w !! t.
Proof.
  intros H. specialize (H t). destruct (tables w !! t) as [T|]; [| by rewrite H].
  by destruct H as [c ->].
Qed.

Lemma memo_only_withFeature_forTable table f :
  keeps memo_only (withFeature_forTable table f).
Proof. intros w. exact (memo_only_exec (CallWithFeatureTable table f) w eq_refl). Qed.

Lemma memo_only_withFeature_forColumn column f :
  keeps memo_only (withFeature_forColumn column f).
Proof. intros w. exact (memo_only_exec (CallWithFeatureColumn column f) w eq_refl). Qed.

Lemma valid_sticky_iff v :
  valid_sticky v = true
  ↔ v = JStr "left" ∨ v = JStr "right" ∨ v = JBool false ∨ v = JUndefined.
Proof.
  split.
  - unfold valid_sticky. intros H.
    destruct v as [| |b|x|s]; cbn [strict_eq] in H;
      (apply orb_prop in H as [H | H]; [| apply bool_decide_eq_true_1 in H; auto]);
      (apply orb_prop in H as [H | H]; [| apply bool_decide_eq_true_1 in H; auto]);
      (apply orb_prop in H as [H | H]; apply bool_decide_eq_true_1 in H; auto).
  - intros [-> | [-> | [-> | ->]]]; reflexivity.
Qed.

Lemma position_valid column w :
  valid_sticky (prop "sticky" (options_forColumn column StickyColumns)) = true →
  position column w
  = (w, Ok (js_or (prop "sticky" (options_forColumn column StickyColumns))
              (JStr "none"))).
Proof. intros H. unfold position, bind, assert, ret. by rewrite H. Qed.

Lemma position_invalid column w :
  valid_sticky (prop "sticky" (options_forColumn column StickyColumns)) = false →
  position column w
  = (w, Throw (InvalidSticky
                 (prop "sticky" (options_forColumn column StickyColumns)))).
Proof. intros H. unfold position, bind, assert, throw. by rewrite H. Qed.

Lemma position_side column side w :
  prop "sticky" (options_forColumn column StickyColumns) = JStr side →
  side = "left" ∨ side = "right" →
  position column w = (w, Ok (JStr side)) ∧ isSticky column w = (w, Ok true).
Proof.
  intros Hs Hside. unfold isSticky, position, bind, assert, ret. rewrite Hs.
  by destruct Hside as [-> | ->].
Qed.

Lemma keeps_position (R : relation World) `{!PreOrder R} column :
  keeps R (position column).
Proof.
  intros w. unfold position, bind, assert, ret, throw.
  destruct (valid_sticky _); reflexivity.
Qed.

Lemma keeps_isSticky (R : relation World) `{!PreOrder R} column :
  keeps R (isSticky column).
Proof.
  unfold isSticky.
  apply keeps_bind; [done | by apply keeps_position | intros; by apply keeps_ret].
Qed.

Section StickyColumnMetaProperties.

Variable columnsBefore : MetaObj → Column → list Column.
Variable columnsAfter : MetaObj → Column → list Column.
Variable width_of : MetaObj → option JsVal.

Lemma keeps_compute_offset (R : relation World) `{!PreOrder R} column :
  (∀ table f, keeps R (withFeature_forTable table f)) →
  (∀ c f, keeps R (withFeature_forColumn c f)) →
  keeps R (compute_offset columnsBefore columnsAfter width_of column).
Proof.
  intros Ht Hc.
  assert (∀ cols init, keeps R (reduceM (add_width width_of) init cols)) as Hred.
  { intros cols init. apply keeps_reduceM; [done |]. intros acc x.
    unfold add_width.
    apply keeps_bind; [done | apply Hc | intros; by apply keeps_ret]. }
  unfold compute_offset.
  apply keeps_bind; [done | by apply keeps_isSticky | intros sticky].
  destruct (negb sticky); [by apply keeps_ret |].
  apply keeps_bind; [done | apply Ht | intros visibility].
  apply keeps_bind; [done | by apply keeps_position | intros pos].
  destruct (strict_eq pos (JStr "left")).
  { apply keeps_bind; [done | apply Hred | intros; by apply keeps_ret]. }
  apply keeps_bind; [done | by apply keeps_position | intros pos'].
  destruct (strict_eq pos' (JStr "right")); [| by apply keeps_ret].
  apply keeps_bind; [done | apply Hred | intros; by apply keeps_ret].
Qed.

Lemma compute_offset_rev column w t :
  t_args_rev
    <$> tables (compute_offset columnsBefore columnsAfter width_of column w).1 !! t
  = t_args_rev <$> tables w !! t.
Proof.
  apply memo_only_rev.
  apply (keeps_compute_offset memo_only);
    [apply memo_only_withFeature_forTable | apply memo_only_withFeature_forColumn].
Qed.

(** A read of [offset] while the cell is missing or out of date. *)
Lemma offset_fresh column w :
  offset_stale column w →
  offset columnsBefore columnsAfter width_of column w =
    finally (compute_offset columnsBefore columnsAfter width_of column)
      (λ r, store_offset_cell column
              (offset_reads column w, match r with
                                      | Ok v => v
                                      | Throw _ => offset_last column w
                                      end)) w.
Proof.
  intros Hs. unfold offset, offset_last.
  destruct (offset_cell column w) as [cell|] eqn:Ec; [| done].
  by rewrite (Hs cell Ec).
Qed.

(** A read of [offset] right after the cell was written with what the
    getter body read. *)
Lemma offset_after_store column tag v w :
  match tag with
  | Some rev => t_args_rev <$> tables w !! col_table column = Some rev
  | None => True
  end →
  offset columnsBefore columnsAfter width_of column
    (store_offset_cell column (tag, v) w)
  = (store_offset_cell column (tag, v) w, Ok v).
Proof.
  intros Htag. unfold offset, offset_cell, store_offset_cell. simpl.
  rewrite lookup_insert_eq. unfold offset_cell_valid. simpl.
  destruct tag as [rev|]; [| done]. by rewrite bool_decide_eq_true_2.
Qed.

Lemma offset_reads_side column side w :
  prop "sticky" (options_forColumn column StickyColumns) = JStr side →
  side = "left" ∨ side = "right" →
  offset_reads column w = t_args_rev <$> tables w !! col_table column.
Proof.
  intros Hs Hside. unfold offset_reads.
  by destruct (position_side column side w Hs Hside) as [_ ->].
Qed.

(** How a read of [offset] of a sticky column ends, given how the getter
    body ends, and what the next read returns. *)
Lemma offset_sticky column side w w2 r :
  prop "sticky" (options_forColumn column StickyColumns) = JStr side →
  side = "left" ∨ side = "right" →
  offset_stale column w →
  compute_offset columnsBefore columnsAfter width_of column w = (w2, r) →
  let v := match r with
           | Ok v => v
           | Throw _ => offset_last column w
           end in
  let w' := store_offset_cell column
              (t_args_rev <$> tables w !! col_table column, v) w2 in
  offset columnsBefore columnsAfter width_of column w = (w', r)
  ∧ (is_Some (tables w !! col_table column) →
     offset columnsBefore columnsAfter width_of column w' = (w', Ok v)).
Proof.
  intros Hs Hside Hstale Hc v w'. split.
  - rewrite (offset_fresh _ _ Hstale), (finally_eq _ _ _ _ _ Hc).
    by rewrite (offset_reads_side column side w Hs Hside).
  - intros [T HT]. apply offset_after_store.
    pose proof (compute_offset_rev column w (col_table column)) as Hrev.
    rewrite Hc in Hrev. simpl in Hrev. rewrite HT. simpl. by rewrite Hrev, HT.
Qed.

Lemma reduceM_add_width cols : ∀ acc w w' metas,
  mapM (λ c, withFeature_forColumn c "columnWidth") cols w = (w', Ok metas) →
  reduceM (add_width width_of) acc cols w
  = (w', Ok (fold_left (accumulate width_of) metas acc)).
Proof.
  induction cols as [|c cols IH]; intros acc w w' metas; simpl.
  - unfold ret. by intros [= <- <-].
  - intros H.
    apply bind_inv in H as [(w1 & m & Hm & H)|(e & _ & ?)]; [| done].
    apply bind_inv in H as [(w2 & ms & Hms & H)|(e & _ & ?)]; [| done].
    unfold ret in H. injection H as <- <-.
    assert (add_width width_of acc c w = (w1, Ok (accumulate width_of acc m)))
      as Ha.
    { unfold add_width. by rewrite (bind_Ok _ _ _ _ _ Hm). }
    by rewrite (bind_Ok _ _ _ _ _ Ha), (IH _ _ _ _ Hms).
Qed.

(** What the getter body of [offset] returns for a sticky column, given
    what the features resolve to. *)
Lemma compute_offset_of_metas column side w w1 visibility w2 metas :
  prop "sticky" (options_forColumn column StickyColumns) = JStr side →
  side = "left" ∨ side = "right" →
  withFeature_forTable (col_table column) "columnVisibility" w
    = (w1, Ok visibility) →
  mapM (λ c, withFeature_forColumn c "columnWidth")
    (if String.eqb side "left" then columnsBefore visibility column
     else columnsAfter visibility column) w1 = (w2, Ok metas) →
  compute_offset columnsBefore columnsAfter width_of column w
  = (w2, Ok (Some (px (fold_left (accumulate width_of) metas
                         (JNum (S754_zero false)))))).
Proof.
  intros Hs Hside Hvis Hm. unfold compute_offset.
  destruct (position_side column side w Hs Hside) as [_ Hst].
  destruct (position_side column side w1 Hs Hside) as [Hpos _].
  rewrite (bind_Ok _ _ _ _ _ Hst). simpl.
  rewrite (bind_Ok _ _ _ _ _ Hvis), (bind_Ok _ _ _ _ _ Hpos).
  destruct Hside as [-> | ->]; simpl in *.
  - by rewrite (bind_Ok _ _ _ _ _ (reduceM_add_width _ _ _ _ _ Hm)).
  - rewrite (bind_Ok _ _ _ _ _ Hpos). simpl.
    by rewrite (bind_Ok _ _ _ _ _ (reduceM_add_width _ _ _ _ _ Hm)).
Qed.

Lemma withFeature_forTable_table table f w w1 m :
  withFeature_forTable table f w = (w1, Ok m) → is_Some (tables w !! table).
Proof.
  intros H. destruct (tables w !! table) eqn:HT; [done |].
  unfold withFeature_forTable in H.
  by rewrite (bind_Throw _ _ _ _ _ (plugins_no_table _ _ HT)) in H.
Qed.

Lemma offset_of_metas column side w w1 visibility w2 metas :
  prop "sticky" (options_forColumn column StickyColumns) = JStr side →
  side = "left" ∨ side = "right" →
  offset_stale column w →
  withFeature_forTable (col_table column) "columnVisibility" w
    = (w1, Ok visibility) →
  mapM (λ c, withFeature_forColumn c "columnWidth")
    (if String.eqb side "left" then columnsBefore visibility column
     else columnsAfter visibility column) w1 = (w2, Ok metas) →
  let total := fold_left (accumulate width_of) metas (JNum (S754_zero false)) in
  let w' := store_offset_cell column
              (t_args_rev <$> tables w !! col_table column, Some (px total)) w2 in
  offset columnsBefore columnsAfter width_of column w = (w', Ok (Some (px total)))
  ∧ offset columnsBefore columnsAfter width_of column w'
    = (w', Ok (Some (px total))).
Proof.
  intros Hs Hside Hstale Hvis Hm total w'.
  pose proof (compute_offset_of_metas column side w w1 visibility w2 metas
                Hs Hside Hvis Hm) as Hc.
  destruct (offset_sticky column side w w2 _ Hs Hside Hstale Hc) as [H1 H2].
  split; [exact H1 |]. apply H2. by eapply withFeature_forTable_table.
Qed.



Lemma offset_cases column w :
  (∃ cell, offset_cell column w = Some cell
           ∧ offset_cell_valid column cell w = true)
  ∨ offset_stale column w.
Proof.
  unfold offset_stale. destruct (offset_cell column w) as [cell|]; [| by right].
  destruct (offset_cell_valid column cell w) eqn:Hv; [left; eauto |].
  right. by intros ? [= <-].
Qed.

Lemma offset_memoised column cell w :
  offset_cell column w = Some cell → offset_cell_valid column cell w = true →
  offset columnsBefore columnsAfter width_of column w = (w, Ok cell.2).
Proof. intros Hc Hv. unfold offset. by rewrite Hc, Hv. Qed.

Lemma style_sticky column side w w' off :
  prop "sticky" (options_forColumn column StickyColumns) = JStr side →
  side = "left" ∨ side = "right" →
  offset columnsBefore columnsAfter width_of column w = (w', Ok off) →
  ∃ st, style columnsBefore columnsAfter width_of column w = (w', Ok st)
    ∧ st !! "position" = Some (JStr "sticky")
    ∧ st !! side = Some (from_option JStr JUndefined off)
    ∧ st !! "zIndex" = Some (JStr "8")
    ∧ st !! (if String.eqb side "left" then "right" else "left") = None
    ∧ size st = 3.
Proof.
  intros Hs Hside Hoff.
  destruct (position_side column side w Hs Hside) as [Hpos Hst].
  eexists. unfold style.
  rewrite (bind_Ok _ _ _ _ _ Hst), (bind_Ok _ _ _ _ _ Hpos), (bind_Ok _ _ _ _ _ Hoff).
  split; [reflexivity |]. simpl.
  destruct Hside as [-> | ->]; repeat split; try done.
Qed.


(** C10.  The values of the [sticky] column option that pass the check
    are ['left'], ['right'], [false] and [undefined], and no others.  For
    a column whose option is any other value -- [true], any other string,
    [null], a number -- reading [position] throws the invalid-value
    assertion, and so do [isSticky] and [style], which read it first, in
    every world; so does a read of [offset] that runs the getter body, after
    which the cell of [offset] answers the next read with the value it held
    ([undefined] when there was none).  For [false] and [undefined],
    [position] is ['none'] and [isSticky] is false; for ['left'] and
    ['right'], [position] is that value and [isSticky] is true. *)
Theorem sticky_values_checked column w :
  let sticky := prop "sticky" (options_forColumn column StickyColumns) in
  (∀ v, valid_sticky v = true
        ↔ v = JStr "left" ∨ v = JStr "right" ∨ v = JBool false ∨ v = JUndefined)
  ∧ (valid_sticky sticky = false →
       position column w = (w, Throw (InvalidSticky sticky))
       ∧ isSticky column w = (w, Throw (InvalidSticky sticky))
       ∧ compute_offset columnsBefore columnsAfter width_of column w
         = (w, Throw (InvalidSticky sticky))
       ∧ (offset_stale column w →
          let w' := store_offset_cell column (None, offset_last column w) w in
          offset columnsBefore columnsAfter width_of column w
          = (w', Throw (InvalidSticky sticky))
          ∧ offset columnsBefore columnsAfter width_of column w'
            = (w', Ok (offset_last column w)))
       ∧ style columnsBefore columnsAfter width_of column w
         = (w, Throw (InvalidSticky sticky)))
  ∧ (sticky = JBool false ∨ sticky = JUndefined →
       position column w = (w, Ok (JStr "none"))
       ∧ isSticky column w = (w, Ok false))
  ∧ (sticky = JStr "left" ∨ sticky = JStr "right" →
       position column w = (w, Ok sticky)
       ∧ isSticky column w = (w, Ok true)).
Proof.
  intros sticky. split; [| split; [| split]].
  - apply valid_sticky_iff.
  - intros H. pose proof (position_invalid column w H) as Hp.
    assert (isSticky column w = (w, Throw (InvalidSticky sticky))) as Hs.
    { unfold isSticky. by rewrite (bind_Throw _ _ _ _ _ Hp). }
    assert (compute_offset columnsBefore columnsAfter width_of column w
            = (w, Throw (InvalidSticky sticky))) as Hc.
    { unfold compute_offset. by rewrite (bind_Throw _ _ _ _ _ Hs). }
    split; [done |]. split; [done |]. split; [done |]. split.
    + intros Hstale w'. split.
      * rewrite (offset_fresh _ _ Hstale), (finally_eq _ _ _ _ _ Hc).
        unfold offset_reads. by rewrite Hs.
      * by apply offset_after_store.
    + unfold style. by rewrite (bind_Throw _ _ _ _ _ Hs).
  - intros H.
    assert (position column w = (w, Ok (JStr "none"))) as Hp.
    { rewrite position_valid; fold sticky; by destruct H as [-> | ->]. }
    split; [done |]. unfold isSticky. by rewrite (bind_Ok _ _ _ _ _ Hp).
  - intros H.
    assert (position column w = (w, Ok sticky)) as Hp.
    { rewrite position_valid; fold sticky; by destruct H as [-> | ->]. }
    split; [done |]. unfold isSticky. rewrite (bind_Ok _ _ _ _ _ Hp).
    by destruct H as [-> | ->].
Qed.

(** X12.  A column that is not sticky asks no other plugin for anything:
    when its [sticky] option is [false] or missing, [style] is the empty
    object in every world -- also for a table without any width or
    visibility plugin, and even without a table -- and the world is left as
    it is; the getter body of [offset] returns [undefined] and changes
    nothing.  A read of [offset] returns [undefined] whenever the cell of
    the column holds no value, which is so before the first read and stays
    so: the read leaves the world as it is but for that cell, and the next
    read returns [undefined] again. *)
Theorem not_sticky_needs_no_plugins column w :
  prop "sticky" (options_forColumn column StickyColumns) = JBool false
  ∨ prop "sticky" (options_forColumn column StickyColumns) = JUndefined →
  compute_offset columnsBefore columnsAfter width_of column w = (w, Ok None)
  ∧ style columnsBefore columnsAfter width_of column w = (w, Ok ∅)
  ∧ (offset_last column w = None →
     ∃ w', offset columnsBefore columnsAfter width_of column w = (w', Ok None)
       ∧ (w' = w ∨ w' = store_offset_cell column (None, None) w)
       ∧ offset_last column w' = None
       ∧ offset columnsBefore columnsAfter width_of column w' = (w', Ok None)).
Proof.
  intros H.
  assert (isSticky column w = (w, Ok false)) as Hs.
  { unfold isSticky, position, bind, assert, ret.
    by destruct H as [-> | ->]. }
  assert (compute_offset columnsBefore columnsAfter width_of column w
          = (w, Ok None)) as Hc.
  { unfold compute_offset. by rewrite (bind_Ok _ _ _ _ _ Hs). }
  split; [done |]. split.
  - unfold style. by rewrite (bind_Ok _ _ _ _ _ Hs).
  - intros Hlast. destruct (offset_cases column w) as [(cell & Hcell & Hv)|Hstale].
    + assert (cell.2 = None) as Hnone.
      { unfold offset_last in Hlast. by rewrite Hcell in Hlast. }
      pose proof (offset_memoised column cell w Hcell Hv) as Ho.
      rewrite Hnone in Ho. exists w. auto.
    + exists (store_offset_cell column (None, None) w).
      split; [| split; [by right | split]].
      * rewrite (offset_fresh _ _ Hstale), (finally_eq _ _ _ _ _ Hc).
        unfold offset_reads. by rewrite Hs.
      * unfold offset_last, offset_cell, store_offset_cell. simpl.
        by rewrite lookup_insert_eq.
      * by apply offset_after_store.
Qed.


(** X14.  A sticky column needs a visibility provider, and a width
    provider as soon as there is a column on its side.  Let the cell of
    [offset] be missing or out of date and let [ps] be the plugin list of
    the table.  If no plugin provides "columnVisibility", [offset] and
    [style] throw "could not find plugin with feature columnVisibility";
    the cell then carries the revision of [args], so until the table is
    modified the next read of [offset] does not throw: it returns the value
    the cell held ([undefined] when there was none), and [style] returns the
    three properties with that value under the side.  If the visibility
    meta reports no column on the column's side, the offset is "0px" whether
    or not any plugin provides "columnWidth"; if the first reported column
    is a column of the same table and no plugin provides "columnWidth",
    [offset] throws "could not find plugin with feature columnWidth". *)
Theorem sticky_needs_providers column side w wp ps :
  prop "sticky" (options_forColumn column StickyColumns) = JStr side →
  side = "left" ∨ side = "right" →
  offset_stale column w →
  plugins (col_table column) w = (wp, Ok (Some ps)) →
  let tag := t_args_rev <$> tables w !! col_table column in
  (Forall (λ q, provides "columnVisibility" q = false) ps →
     let err := FeatureNotFound "columnVisibility" (availableFeatures ps) in
     let w' := store_offset_cell column (tag, offset_last column w) wp in
     offset columnsBefore columnsAfter width_of column w = (w', Throw err)
     ∧ style columnsBefore columnsAfter width_of column w = (w', Throw err)
     ∧ offset columnsBefore columnsAfter width_of column w'
       = (w', Ok (offset_last column w))
     ∧ ∃ st, style columnsBefore columnsAfter width_of column w' = (w', Ok st)
         ∧ st !! "position" = Some (JStr "sticky")
         ∧ st !! side = Some (from_option JStr JUndefined (offset_last column w))
         ∧ st !! "zIndex" = Some (JStr "8"))
  ∧ (∀ w1 visibility,
       withFeature_forTable (col_table column) "columnVisibility" w
         = (w1, Ok visibility) →
       let reported := if String.eqb side "left"
                       then columnsBefore visibility column
                       else columnsAfter visibility column in
       (reported = [] →
          offset columnsBefore columnsAfter width_of column w
          = (store_offset_cell column (tag, Some "0px") w1, Ok (Some "0px")))
       ∧ (∀ c rest, reported = c :: rest → col_table c = col_table column →
            Forall (λ q, provides "columnWidth" q = false) ps →
            offset columnsBefore columnsAfter width_of column w
            = (store_offset_cell column (tag, offset_last column w) w1,
               Throw (FeatureNotFound "columnWidth" (availableFeatures ps))))).
Proof.
  intros Hs Hside Hstale Hp tag.
  destruct (position_side column side w Hs Hside) as [Hpos Hst].
  assert (is_Some (tables w !! col_table column)) as HT.
  { destruct (tables w !! col_table column) eqn:HT; [done |].
    by rewrite (plugins_no_table _ _ HT) in Hp. }
  split.
  - intros Hnone err w'. apply findPlugin_none in Hnone.
    assert (withFeature_forTable (col_table column) "columnVisibility" w
            = (wp, Throw err)) as Hv.
    { rewrite (withFeature_forTable_read _ _ _ _ _ Hp). by rewrite Hnone. }
    assert (compute_offset columnsBefore columnsAfter width_of column w
            = (wp, Throw err)) as Hc.
    { unfold compute_offset. rewrite (bind_Ok _ _ _ _ _ Hst). simpl.
      by rewrite (bind_Throw _ _ _ _ _ Hv). }
    destruct (offset_sticky column side w wp _ Hs Hside Hstale Hc) as [H1 H2].
    specialize (H2 HT). simpl in H1, H2. fold tag in H1, H2. fold w' in H1, H2.
    split; [exact H1 |]. split; [| split; [exact H2 |]].
    + unfold style.
      rewrite (bind_Ok _ _ _ _ _ Hst), (bind_Ok _ _ _ _ _ Hpos).
      by rewrite (bind_Throw _ _ _ _ _ H1).
    + destruct (style_sticky column side w' w' _ Hs Hside H2)
        as (st & ? & ? & ? & ? & _).
      by exists st.
  - intros w1 visibility Hvis reported. split.
    + intros Hnil.
      apply (offset_of_metas column side w w1 visibility w1 []
               Hs Hside Hstale Hvis).
      fold reported. by rewrite Hnil.
    + intros c rest Hrep Hsame Hnone. apply findPlugin_none in Hnone.
      destruct (position_side column side w1 Hs Hside) as [Hpos1 _].
      assert (plugins (col_table c) w1 = (w1, Ok (Some ps))) as Hp1.
      { rewrite Hsame.
        rewrite (withFeature_forTable_read _ _ _ _ _ Hp) in Hvis.
        destruct (findPlugin ps "columnVisibility") as [provider|]; [| done].
        destruct (plugins_Ok_cached _ _ _ _ Hp) as (T & HT' & Hc).
        pose proof (memo_kept_metaFor (col_table column) (OfTable (col_table column))
                      (p_constructor provider) wp) as Hk.
        simpl in Hk. rewrite Hvis in Hk.
        destruct (Hk _ (ex_intro _ T (conj HT' Hc))) as (T1 & HT1 & Hc1).
        by eapply plugins_cached. }
      assert (∀ acc, reduceM (add_width width_of) acc (c :: rest) w1
                = (w1, Throw (FeatureNotFound "columnWidth" (availableFeatures ps))))
        as Hred.
      { intros acc. simpl. unfold add_width at 1.
        assert (withFeature_forColumn c "columnWidth" w1
                = (w1, Throw (FeatureNotFound "columnWidth" (availableFeatures ps))))
          as Hw.
        { rewrite (withFeature_forColumn_read _ _ _ _ _ Hp1). by rewrite Hnone. }
        unfold bind at 1 2. by rewrite Hw. }
      assert (compute_offset columnsBefore columnsAfter width_of column w
              = (w1, Throw (FeatureNotFound "columnWidth" (availableFeatures ps))))
        as Hc.
      { unfold compute_offset. rewrite (bind_Ok _ _ _ _ _ Hst). simpl.
        rewrite (bind_Ok _ _ _ _ _ Hvis), (bind_Ok _ _ _ _ _ Hpos1).
        subst reported. destruct Hside as [-> | ->]; simpl in Hrep |- *.
        - rewrite Hrep. by rewrite (bind_Throw _ _ _ _ _ (Hred _)).
        - rewrite (bind_Ok _ _ _ _ _ Hpos1). simpl. rewrite Hrep.
          by rewrite (bind_Throw _ _ _ _ _ (Hred _)). }
      by destruct (offset_sticky column side w w1 _ Hs Hside Hstale Hc) as [H1 _].
Qed.

End StickyColumnMetaProperties.



(** A width meta without a [width], or with one that is [undefined] or
    [null], counts as zero: the middle column then has the offset "0px";
    with the first two columns' widths present the last column, when sticky
    on the left, has 150px; widths 0.1 and 0.2 give what the Numbers add up
    to. *)
Example sticky_offset_missing_width :
  let with_first (v : option JsVal) (m : MetaObj) :=
    match mo_entity m with
    | RColumn 101 => v
    | _ => Fixture.width_of m
    end in
  let tenths (m : MetaObj) :=
    match mo_entity m with
    | RColumn 101 => Some (JNum (SFdiv 53 1024 (Number_of_Z 1) (Number_of_Z 10)))
    | RColumn 102 => Some (JNum (SFdiv 53 1024 (Number_of_Z 2) (Number_of_Z 10)))
    | _ => None
    end in
  (offset Fixture.columnsBefore Fixture.columnsAfter (with_first None)
     Fixture.middle Fixture.world).2 = Ok (Some "0px")
  ∧ (offset Fixture.columnsBefore Fixture.columnsAfter (with_first (Some JUndefined))
       Fixture.middle Fixture.world).2 = Ok (Some "0px")
  ∧ (offset Fixture.columnsBefore Fixture.columnsAfter (with_first (Some JNull))
       Fixture.middle Fixture.world).2 = Ok (Some "0px")
  ∧ (offset Fixture.columnsBefore Fixture.columnsAfter Fixture.width_of
       (Fixture.column 3 (Some (JStr "left"))) Fixture.world).2
    = Ok (Some "150px")
  ∧ (offset Fixture.columnsBefore Fixture.columnsAfter tenths
       (Fixture.column 3 (Some (JStr "left"))) Fixture.world).2
    = Ok (Some "0.30000000000000004px").
Proof. repeat split; vm_compute; reflexivity. Qed.

(** When the visibility meta leaves the first column out of what it reports
    before the middle column, the middle column has the offset "0px". *)
Example sticky_offset_hidden_first :
  let before (m : MetaObj) (c : Column) :=
    filter (λ x, col_id x ≠ 101) (Fixture.columnsBefore m c) in
  (offset before Fixture.columnsAfter Fixture.width_of
     Fixture.middle Fixture.world).2 = Ok (Some "0px").
Proof. vm_compute. reflexivity. Qed.

(** The offset is kept until the table is modified: a read after [modify]
    runs the getter body again. *)
Example sticky_offset_cached_until_modify :
  let off := offset Fixture.columnsBefore Fixture.columnsAfter Fixture.width_of
               Fixture.middle in
  let w1 := (off Fixture.world).1 in
  let w2 := (modify Fixture.table (Some Fixture.named) w1).1 in
  off w1 = (w1, Ok (Some "50px"))
  ∧ offset_stale Fixture.middle w2
  ∧ (off w2).2 = Ok (Some "50px").
Proof.
  split; [vm_compute; reflexivity |]. split; [| vm_compute; reflexivity].
  intros cell Hc. vm_compute in Hc. injection Hc as <-. vm_compute. reflexivity.
Qed.

Lemma sticky_values_checked_witness :
  let column := Fixture.column 4 (Some (JBool true)) in
  let none := Fixture.first in
  let w := Fixture.world in
  let w' := store_offset_cell column (None, None) w in
  (position column w = (w, Throw (InvalidSticky (JBool true)))
   ∧ isSticky column w = (w, Throw (InvalidSticky (JBool true)))
   ∧ compute_offset Fixture.columnsBefore Fixture.columnsAfter Fixture.width_of
       column w = (w, Throw (InvalidSticky (JBool true)))
   ∧ (offset Fixture.columnsBefore Fixture.columnsAfter Fixture.width_of column w
      = (w', Throw (InvalidSticky (JBool true)))
      ∧ offset Fixture.columnsBefore Fixture.columnsAfter Fixture.width_of
          column w' = (w', Ok None))
   ∧ style Fixture.columnsBefore Fixture.columnsAfter Fixture.width_of column w
     = (w, Throw (InvalidSticky (JBool true))))
  ∧ (position none w = (w, Ok (JStr "none")) ∧ isSticky none w = (w, Ok false))
  ∧ (position Fixture.middle w = (w, Ok (JStr "left"))
     ∧ isSticky Fixture.middle w = (w, Ok true)).
Proof.
  intros column none w w'.
  split; [| split].
  - destruct (sticky_values_checked Fixture.columnsBefore Fixture.columnsAfter
                Fixture.width_of column w) as (_ & H & _).
    destruct H as (H1 & H2 & H3 & H4 & H5); [reflexivity |].
    split; [exact H1 |]. split; [exact H2 |]. split; [exact H3 |].
    split; [| exact H5].
    apply H4. intros cell Hc. discriminate Hc.
  - apply (sticky_values_checked Fixture.columnsBefore Fixture.columnsAfter
             Fixture.width_of none w). right. reflexivity.
  - apply (sticky_values_checked Fixture.columnsBefore Fixture.columnsAfter
             Fixture.width_of Fixture.middle w). left. reflexivity.
Defined.

Lemma not_sticky_needs_no_plugins_witness :
  let w := NoOwnerTable.world_with [] in
  compute_offset Fixture.columnsBefore Fixture.columnsAfter Fixture.width_of
    Fixture.first w = (w, Ok None)
  ∧ style Fixture.columnsBefore Fixture.columnsAfter Fixture.width_of Fixture.first w
    = (w, Ok ∅)
  ∧ ∃ w', offset Fixture.columnsBefore Fixture.columnsAfter Fixture.width_of
            Fixture.first w = (w', Ok None)
      ∧ (w' = w ∨ w' = store_offset_cell Fixture.first (None, None) w)
      ∧ offset_last Fixture.first w' = None
      ∧ offset Fixture.columnsBefore Fixture.columnsAfter Fixture.width_of
          Fixture.first w' = (w', Ok None).
Proof.
  intros w.
  destruct (not_sticky_needs_no_plugins Fixture.columnsBefore Fixture.columnsAfter
              Fixture.width_of Fixture.first w) as (H1 & H2 & H3).
  - right. reflexivity.
  - split; [exact H1 |]. split; [exact H2 |]. apply H3. reflexivity.
Defined.


Lemma sticky_needs_providers_witness :
  let w := NoOwnerTable.world_with [Bare (PObject NoOwnerTable.an_object)] in
  let wp := (plugins 1 w).1 in
  let err := FeatureNotFound "columnVisibility" "columnWidth" in
  let w' := store_offset_cell Fixture.middle (Some 1, None) wp in
  offset Fixture.columnsBefore Fixture.columnsAfter Fixture.width_of Fixture.middle w
    = (w', Throw err)
  ∧ style Fixture.columnsBefore Fixture.columnsAfter Fixture.width_of Fixture.middle w
    = (w', Throw err)
  ∧ offset Fixture.columnsBefore Fixture.columnsAfter Fixture.width_of
      Fixture.middle w' = (w', Ok None)
  ∧ ∃ st, style Fixture.columnsBefore Fixture.columnsAfter Fixture.width_of
            Fixture.middle w' = (w', Ok st)
      ∧ st !! "position" = Some (JStr "sticky")
      ∧ st !! "left" = Some JUndefined
      ∧ st !! "zIndex" = Some (JStr "8").
Proof.
  intros w wp err w'.
  destruct (sticky_needs_providers Fixture.columnsBefore Fixture.columnsAfter
              Fixture.width_of Fixture.middle "left" w wp [NoOwnerTable.an_object])
    as (H & _).
  - reflexivity.
  - left. reflexivity.
  - intros cell Hc. discriminate Hc.
  - vm_compute. reflexivity.
  - apply H. repeat constructor.
Defined.
